(** * nexus-agent: the session handoff core, embedded and verified

    A shallow embedding of the server side of the mobile-to-kiosk handoff:
    - [server/services/qrService.js]            (module [QrService])
    - [server/services/contextEngine.js]        (module [ContextEngine])
    - [server/services/recommendationEngine.js] (module [RecommendationEngine])
    - [server/services/socketManager.js] and the REST routes under
      [/api/chat] and [/api/qr]                 (module [SocketManager])
    - [server/models/Session.js]                (module [Session])

    JavaScript strings are modelled as Rocq [string]s holding their UTF-8
    bytes (this is what [hmac.update] hashes); numbers that the code only
    uses as integers are [Z]; prices and confidences are exact rationals. *)

From Stdlib Require Import ZArith List String Ascii Bool Lia QArith.
From Stdlib Require Import DecimalString DecimalZ.
From stdpp Require Import base option list gmap strings.

Local Open Scope string_scope.
Local Open Scope list_scope.
Local Open Scope Z_scope.

(* ===================================================================== *)
(** ** JavaScript strings *)
(* ===================================================================== *)

Module Js.

(** [!s] for a string: only the empty string is falsy. *)
Definition falsy (s : string) : bool :=
  match s with EmptyString => true | String _ _ => false end.

Definition code (c : ascii) : Z := Z.of_N (N_of_ascii c).

Definition bytes_of (s : string) : list Z := map code (list_ascii_of_string s).

(** [s.length] counts UTF-16 code units. Over the UTF-8 bytes of [s]: a
    continuation byte (10xxxxxx) adds nothing, a four-byte lead (11110xxx)
    starts a surrogate pair and adds two, every other byte adds one. *)
Definition utf16_units (c : ascii) : nat :=
  let n := code c in
  if (128 <=? n) && (n <? 192) then 0%nat
  else if 240 <=? n then 2%nat
  else 1%nat.

Fixpoint length (s : string) : nat :=
  match s with
  | EmptyString => 0%nat
  | String c r => (utf16_units c + length r)%nat
  end.

(** The UTF-16 code units of [s], read off its UTF-8 bytes: a lead byte
    takes the payload of the continuation bytes that follow it, and a
    four-byte sequence gives a surrogate pair. (The bytes are taken to be
    the UTF-8 encoding of a JavaScript string; on other byte sequences the
    values carry no meaning.) *)
Definition is_continuation (c : ascii) : bool := (128 <=? code c) && (code c <? 192).

Fixpoint continued (acc : Z) (s : string) : Z :=
  match s with
  | String c r =>
      if is_continuation c then continued (acc * 64 + (code c - 128)) r else acc
  | EmptyString => acc
  end.

Fixpoint units (s : string) : list Z :=
  match s with
  | EmptyString => []
  | String c r =>
      let n := code c in
      if is_continuation c then units r
      else if n <? 128 then n :: units r
      else if n <? 224 then continued (n - 192) r :: units r
      else if n <? 240 then continued (n - 224) r :: units r
      else
        let scalar := continued (n - 240) r - 65536 in
        (55296 + scalar / 1024) :: (56320 + scalar mod 1024) :: units r
  end.

Definition is_upper (c : ascii) : bool := (65 <=? code c) && (code c <=? 90).
Definition is_lower (c : ascii) : bool := (97 <=? code c) && (code c <=? 122).
Definition is_digit (c : ascii) : bool := (48 <=? code c) && (code c <=? 57).

Definition lower_char (c : ascii) : ascii :=
  if is_upper c then ascii_of_N (N_of_ascii c + 32) else c.
Definition upper_char (c : ascii) : ascii :=
  if is_lower c then ascii_of_N (N_of_ascii c - 32) else c.

(** [s.toLowerCase()] / [s.toUpperCase()], on the ASCII letters. *)
Fixpoint toLowerCase (s : string) : string :=
  match s with
  | EmptyString => EmptyString
  | String c r => String (lower_char c) (toLowerCase r)
  end.

Fixpoint toUpperCase (s : string) : string :=
  match s with
  | EmptyString => EmptyString
  | String c r => String (upper_char c) (toUpperCase r)
  end.

(** [String(n)] / a number inside a template literal, for an integer. *)
Definition of_Z (z : Z) : string := NilZero.string_of_int (Z.to_int z).

(** [parts.join(sep)] *)
Fixpoint join (sep : string) (parts : list string) : string :=
  match parts with
  | [] => ""
  | [p] => p
  | p :: rest => p +:+ sep +:+ join sep rest
  end.

End Js.

(* ===================================================================== *)
(** ** JSON.stringify on flat objects *)
(* ===================================================================== *)

Module Json.

Inductive atom :=
| JStr (s : string)
| JNum (n : Z).

(** An object literal whose properties are strings and integers, in
    property order. *)
Definition object := list (string * atom).

Definition hex_digit (n : Z) : ascii :=
  match n with
  | 0 => "0" | 1 => "1" | 2 => "2" | 3 => "3" | 4 => "4" | 5 => "5"
  | 6 => "6" | 7 => "7" | 8 => "8" | 9 => "9" | 10 => "a" | 11 => "b"
  | 12 => "c" | 13 => "d" | 14 => "e" | _ => "f"
  end%char.

Definition bslash : ascii := ascii_of_N 92.

(** QuoteJSONString: the two-character escapes, [\u00XX] for the other
    control characters, everything else unchanged. *)
Definition escape_char (c : ascii) : string :=
  let n := Js.code c in
  if n =? 34 then String bslash (String c "")
  else if n =? 92 then String bslash (String c "")
  else if n =? 8 then "\b"
  else if n =? 12 then "\f"
  else if n =? 10 then "\n"
  else if n =? 13 then "\r"
  else if n =? 9 then "\t"
  else if n <? 32 then
    "\u00" +:+ String (hex_digit (n / 16)) (String (hex_digit (n mod 16)) "")
  else String c "".

Fixpoint escape (s : string) : string :=
  match s with
  | EmptyString => ""
  | String c r => escape_char c +:+ escape r
  end.

Definition dquote : string := String (ascii_of_N 34) "".

Definition quote (s : string) : string := dquote +:+ escape s +:+ dquote.

Definition stringify_atom (a : atom) : string :=
  match a with
  | JStr s => quote s
  | JNum n => Js.of_Z n
  end.

Definition stringify_member (kv : string * atom) : string :=
  quote (fst kv) +:+ ":" +:+ stringify_atom (snd kv).

Definition stringify (o : object) : string :=
  "{" +:+ Js.join "," (map stringify_member o) +:+ "}".

Definition keys (o : object) : list string := map fst o.

Fixpoint get (k : string) (o : object) : option atom :=
  match o with
  | [] => None
  | (k', v) :: r => if String.eqb k k' then Some v else get k r
  end.

End Json.

(* ===================================================================== *)
(** ** SHA-256 and HMAC (Node's [crypto.createHmac('sha256', key)]) *)
(* ===================================================================== *)

Module Sha256.

Definition w32 (x : Z) : Z := x mod 4294967296.
Definition add32 (a b : Z) : Z := w32 (a + b).
Definition rotr (n x : Z) : Z :=
  Z.lor (Z.shiftr x n) (w32 (Z.shiftl x (32 - n))).
Definition not32 (x : Z) : Z := 4294967295 - x.

Definition Ch (x y z : Z) : Z := Z.lxor (Z.land x y) (Z.land (not32 x) z).
Definition Maj (x y z : Z) : Z :=
  Z.lxor (Z.lxor (Z.land x y) (Z.land x z)) (Z.land y z).
Definition bsig0 (x : Z) : Z := Z.lxor (Z.lxor (rotr 2 x) (rotr 13 x)) (rotr 22 x).
Definition bsig1 (x : Z) : Z := Z.lxor (Z.lxor (rotr 6 x) (rotr 11 x)) (rotr 25 x).
Definition ssig0 (x : Z) : Z := Z.lxor (Z.lxor (rotr 7 x) (rotr 18 x)) (Z.shiftr x 3).
Definition ssig1 (x : Z) : Z := Z.lxor (Z.lxor (rotr 17 x) (rotr 19 x)) (Z.shiftr x 10).

(** The round constants: the first thirty-two bits of the fractional
    parts of the cube roots of the first sixty-four primes. *)
Definition K : list Z :=
  [
    1116352408; 1899447441; 3049323471; 3921009573;
    961987163; 1508970993; 2453635748; 2870763221;
    3624381080; 310598401; 607225278; 1426881987;
    1925078388; 2162078206; 2614888103; 3248222580;
    3835390401; 4022224774; 264347078; 604807628;
    770255983; 1249150122; 1555081692; 1996064986;
    2554220882; 2821834349; 2952996808; 3210313671;
    3336571891; 3584528711; 113926993; 338241895;
    666307205; 773529912; 1294757372; 1396182291;
    1695183700; 1986661051; 2177026350; 2456956037;
    2730485921; 2820302411; 3259730800; 3345764771;
    3516065817; 3600352804; 4094571909; 275423344;
    430227734; 506948616; 659060556; 883997877;
    958139571; 1322822218; 1537002063; 1747873779;
    1955562222; 2024104815; 2227730452; 2361852424;
    2428436474; 2756734187; 3204031479; 3329325298
  ].

Record state := State {
  ha : Z; hb : Z; hc : Z; hd : Z; he : Z; hf : Z; hg : Z; hh : Z }.

(** The initial hash value: the square roots of the first eight primes. *)
Definition H0 : state :=
  State 1779033703 3144134277 1013904242 2773480762
        1359893119 2600822924 528734635 1541459225.

Definition round (s : state) (k w : Z) : state :=
  let t1 := add32 (add32 (add32 (add32 (hh s) (bsig1 (he s)))
                                (Ch (he s) (hf s) (hg s))) k) w in
  let t2 := add32 (bsig0 (ha s)) (Maj (ha s) (hb s) (hc s)) in
  State (add32 t1 t2) (ha s) (hb s) (hc s) (add32 (hd s) t1) (he s) (hf s) (hg s).

(** The 64 rounds over a sliding window of the last sixteen schedule words. *)
Fixpoint rounds (ks : list Z) (win : list Z) (s : state) : state :=
  match ks, win with
  | k :: ks', w0 :: rest =>
      let nw := add32 (add32 (add32 (ssig1 (nth 13 rest 0)) (nth 8 rest 0))
                             (ssig0 (nth 0 rest 0))) w0 in
      rounds ks' (rest ++ [nw]) (round s k w0)
  | _, _ => s
  end.

Definition compress (s : state) (block : list Z) : state :=
  let r := rounds K block s in
  State (add32 (ha s) (ha r)) (add32 (hb s) (hb r)) (add32 (hc s) (hc r))
        (add32 (hd s) (hd r)) (add32 (he s) (he r)) (add32 (hf s) (hf r))
        (add32 (hg s) (hg r)) (add32 (hh s) (hh r)).

(** Big-endian 32-bit words of a byte list (a trailing partial word is
    zero-filled; padded messages have none). *)
Fixpoint words (bs : list Z) : list Z :=
  match bs with
  | b0 :: b1 :: b2 :: b3 :: r =>
      (((b0 * 256 + b1) * 256 + b2) * 256 + b3) :: words r
  | _ => []
  end.

Definition be64 (n : Z) : list Z :=
  map (fun i => Z.shiftr n (8 * i) mod 256) [7; 6; 5; 4; 3; 2; 1; 0].

Definition pad (msg : list Z) : list Z :=
  let len := Z.of_nat (List.length msg) in
  let zeros := Z.to_nat ((55 - len) mod 64) in
  msg ++ [128] ++ repeat 0 zeros ++ be64 (8 * len).

Fixpoint blocks (fuel : nat) (ws : list Z) (s : state) : state :=
  match fuel, ws with
  | S f, _ :: _ => blocks f (skipn 16 ws) (compress s (firstn 16 ws))
  | _, _ => s
  end.

Definition be32 (w : Z) : list Z :=
  map (fun i => Z.shiftr w (8 * i) mod 256) [3; 2; 1; 0].

Definition state_words (s : state) : list Z :=
  [ha s; hb s; hc s; hd s; he s; hf s; hg s; hh s].

Definition digest (msg : list Z) : list Z :=
  let ws := words (pad msg) in
  concat (map be32 (state_words (blocks (List.length ws) ws H0))).

(** HMAC (RFC 2104) with block size 64. *)
Definition hmac_key (key : list Z) : list Z :=
  let k := if (64 <? Z.of_nat (List.length key)) then digest key else key in
  k ++ repeat 0 (64 - List.length k)%nat.

Definition hmac (key msg : list Z) : list Z :=
  let k := hmac_key key in
  digest (map (Z.lxor 92) k ++ digest (map (Z.lxor 54) k ++ msg)).

End Sha256.

(* ===================================================================== *)
(** ** Node Buffers in the 'hex' encoding *)
(* ===================================================================== *)

Module Hex.

(** [buf.toString('hex')] / [hmac.digest('hex')]: two lowercase digits
    per byte. *)
Definition encode_byte (b : Z) : string :=
  String (Json.hex_digit (b / 16 mod 16)) (String (Json.hex_digit (b mod 16)) "").

Fixpoint encode (bs : list Z) : string :=
  match bs with
  | [] => ""
  | b :: r => encode_byte b +:+ encode r
  end.

(** The value of one hex digit, either case, from its character code. *)
Definition unhex_code (n : Z) : option Z :=
  if (48 <=? n) && (n <=? 57) then Some (n - 48)
  else if (97 <=? n) && (n <=? 102) then Some (n - 87)
  else if (65 <=? n) && (n <=? 70) then Some (n - 55)
  else None.

Definition unhex (c : ascii) : option Z := unhex_code (Js.code c).

(** The hex decoder of [Buffer.from(s, 'hex')] goes through the string
    code unit by code unit and looks at the low byte of each unit only
    (so U+0135 reads as the digit 5); bytes are decoded pair by pair and
    decoding stops at the first pair that is not two hex digits; an
    unpaired last unit is dropped. *)
Fixpoint decode_units (us : list Z) : list Z :=
  match us with
  | u1 :: u2 :: r =>
      match unhex_code (u1 mod 256), unhex_code (u2 mod 256) with
      | Some h, Some l => (h * 16 + l) :: decode_units r
      | _, _ => []
      end
  | _ => []
  end.

Definition decode (s : string) : list Z := decode_units (Js.units s).

End Hex.

Definition hmac_sha256_hex (key msg : string) : string :=
  Hex.encode (Sha256.hmac (Js.bytes_of key) (Js.bytes_of msg)).


(* ===================================================================== *)
(** ** The shared Redis store *)
(* ===================================================================== *)

Module Redis.

(** The store is taken to be reachable: commands do not fail.

    What the server writes: socket ids ([redis.set(key, socket.id)]) and
    the JSON text [JSON.stringify({ sessionId, timestamp })], kept here as
    the record it serialises. *)
Inductive value :=
| SocketId (id : string)
| QrRecord (sessionId : string) (timestamp : Z).

(** A key holds a value and, after SETEX, the instant (in ms) at which it
    expires. *)
Record entry := Entry { value_of : value; expireAt : option Z }.

Abbreviation t := (gmap string entry).

Definition live (now : Z) (e : entry) : bool :=
  match expireAt e with
  | None => true
  | Some deadline => now <=? deadline
  end.

(** GET: the value of a key that exists and has not expired. *)
Definition get (now : Z) (db : t) (k : string) : option value :=
  match db !! k with
  | Some e => if live now e then Some (value_of e) else None
  | None => None
  end.

(** SET: no expiry. *)
Definition set (db : t) (k : string) (v : value) : t :=
  <[k := Entry v None]> db.

(** SETEX key seconds value. *)
Definition setex (now : Z) (db : t) (k : string) (seconds : Z) (v : value) : t :=
  <[k := Entry v (Some (now + seconds * 1000))]> db.

(** DEL: the number of keys removed, and the store without the key. *)
Definition del (now : Z) (db : t) (k : string) : Z * t :=
  ((match get now db k with Some _ => 1 | None => 0 end), delete k db).

(** TTL in seconds: -2 for a missing key, -1 for a key without expiry,
    else the remaining time rounded to the nearest second. *)
Definition ttl (now : Z) (db : t) (k : string) : Z :=
  match db !! k with
  | Some e =>
      if live now e then
        match expireAt e with
        | None => -1
        | Some deadline => (deadline - now + 500) / 1000
        end
      else -2
  | None => -2
  end.

Fixpoint has_prefix (p s : string) : bool :=
  match p, s with
  | EmptyString, _ => true
  | String a p', String b s' => if Ascii.eqb a b then has_prefix p' s' else false
  | String _ _, EmptyString => false
  end.

(** KEYS prefix*: the live keys under a prefix. *)
Definition keys (now : Z) (db : t) (prefix : string) : list string :=
  map fst (List.filter (fun kv => has_prefix prefix (fst kv) && live now (snd kv))
                  (map_to_list db)).

End Redis.

(* ===================================================================== *)
(** ** Exceptions *)
(* ===================================================================== *)

(** A JavaScript computation either returns or throws an [Error] with a
    message. *)
Inductive outcome (A : Type) :=
| Returned (a : A)
| Thrown (message : string).
Arguments Returned {A} a.
Arguments Thrown {A} message.

(* ===================================================================== *)
(** ** server/services/qrService.js *)
(* ===================================================================== *)

Module QrService.

Definition QR_TTL : Z := 300.
Definition QR_KEY_PREFIX : string := "qr:".

(** [process.env]: the only variable the service reads. *)
Record env := Env { JWT_SECRET : option string }.

(** [!process.env.JWT_SECRET] fails for an unset or empty variable. *)
Definition secret (e : env) : option string :=
  match JWT_SECRET e with
  | Some s => if Js.falsy s then None else Some s
  | None => None
  end.

(** [JSON.stringify(payload, Object.keys(payload).sort())] for
    [payload = { qrId, sessionId, timestamp }]: the sorted key list is the
    property order of the output. *)
Definition payload (qrId sessionId : string) (timestamp : Z) : Json.object :=
  [("qrId", Json.JStr qrId); ("sessionId", Json.JStr sessionId);
   ("timestamp", Json.JNum timestamp)].

(** [createHmac('sha256', secret).update(payloadString).digest('hex')] *)
Definition sign (key qrId sessionId : string) (timestamp : Z) : string :=
  hmac_sha256_hex key (Json.stringify (payload qrId sessionId timestamp)).

(** The object whose JSON text is drawn into the QR image. *)
Definition qrData (qrId signature : string) : Json.object :=
  [("qrId", Json.JStr qrId); ("signature", Json.JStr signature)].

(** [QRCode.toDataURL(text, options)]: the image is determined by the
    text it encodes; a scanner reads that text back. *)
Record image := Image { encoded : string }.

Definition toDataURL (text : string) : image := Image text.

Record qr := Qr {
  qrId : string;
  qrImage : image;
  expiresAt : Z;
  signature : string }.

(** [generateQR(sessionId)]. [id] is the value [uuidv4()] returns and
    [now] the value of [Date.now()]; the try/catch only logs and rethrows. *)
Definition generateQR (e : env) (id : string) (now : Z)
    (sessionId : string) (db : Redis.t) : outcome (qr * Redis.t) :=
  if Js.falsy sessionId then Thrown "sessionId is required"
  else match secret e with
  | None => Thrown "JWT_SECRET is not configured"
  | Some key =>
      let timestamp := now in
      let sig := sign key id sessionId timestamp in
      let redisKey := QR_KEY_PREFIX +:+ id in
      let db' := Redis.setex now db redisKey QR_TTL
                   (Redis.QrRecord sessionId timestamp) in
      let image := toDataURL (Json.stringify (qrData id sig)) in
      Returned (Qr id image (timestamp + 300000) sig, db')
  end.

(** [JSON.parse(redisValue)] followed by
    [const { sessionId, timestamp } = storedData]. A socket id is not
    JSON text. *)
Definition parse (v : Redis.value) : option (string * Z) :=
  match v with
  | Redis.QrRecord sessionId timestamp => Some (sessionId, timestamp)
  | Redis.SocketId _ => None
  end.

(** [!redisValue] *)
Definition value_falsy (v : Redis.value) : bool :=
  match v with
  | Redis.SocketId id => Js.falsy id
  | Redis.QrRecord _ _ => false
  end.

Fixpoint bytes_eqb (a b : list Z) : bool :=
  match a, b with
  | [], [] => true
  | x :: a', y :: b' => (x =? y) && bytes_eqb a' b'
  | _, _ => false
  end.

(** [crypto.timingSafeEqual(a, b)] throws a RangeError when the two
    buffers differ in byte length. *)
Definition timingSafeEqual (a b : list Z) : outcome bool :=
  if Nat.eqb (List.length a) (List.length b) then Returned (bytes_eqb a b)
  else Thrown "Input buffers must have the same byte length".

(** [validateQR(qrId, signature)] at time [now]: the session id or
    [null], and the store afterwards. The last [Thrown] case is the outer
    [catch], which returns [null] and leaves the store as it is. *)
Definition validateQR (e : env) (now : Z) (qrId signature : string)
    (db : Redis.t) : option string * Redis.t :=
  if Js.falsy qrId || Js.falsy signature then (None, db)
  else match secret e with
  | None => (None, db)
  | Some key =>
      let redisKey := QR_KEY_PREFIX +:+ qrId in
      match Redis.get now db redisKey with
      | None => (None, db)
      | Some redisValue =>
          if value_falsy redisValue then (None, db)
          else match parse redisValue with
          | None => (None, db)
          | Some (sessionId, timestamp) =>
              let expectedSignature := sign key qrId sessionId timestamp in
              if negb (Nat.eqb (Js.length signature) (Js.length expectedSignature))
              then (None, snd (Redis.del now db redisKey))
              else
                match timingSafeEqual (Hex.decode signature)
                                      (Hex.decode expectedSignature) with
                | Thrown _ => (None, db)
                | Returned false => (None, snd (Redis.del now db redisKey))
                | Returned true => (Some sessionId, snd (Redis.del now db redisKey))
                end
          end
      end
  end.

(** [expireQR(qrId)] *)
Definition expireQR (now : Z) (qrId : string) (db : Redis.t) : bool * Redis.t :=
  if Js.falsy qrId then (false, db)
  else
    let redisKey := QR_KEY_PREFIX +:+ qrId in
    let (result, db') := Redis.del now db redisKey in
    (0 <? result, db').

End QrService.

(* ===================================================================== *)
(** ** Regular expressions, as the context engine uses them *)
(* ===================================================================== *)

Module Regex.

Inductive cls := Digit | Space.

Definition in_cls (c : cls) (x : ascii) : bool :=
  let n := Js.code x in
  match c with
  | Digit => Js.is_digit x
  | Space => (n =? 32) || ((9 <=? n) && (n <=? 13))
  end.

(** [\w] *)
Definition is_word (x : ascii) : bool :=
  Js.is_digit x || Js.is_lower x || Js.is_upper x || (Js.code x =? 95).

(** The fragment of the syntax that occurs in the source. All patterns
    carry the [i] flag, so literals match without regard to case. *)
Inductive re :=
| Lit (s : string)
| Seq (a b : re)
| Alt (a b : re)
| Opt (a : re)
| Star (c : cls)
| Plus (c : cls)
| Bound
| Group (a : re).

(** A match in progress: the character before the current position, the
    text still ahead, and the text of capture group 1. *)
Definition cont (R : Type) := option ascii -> string -> option string -> option R.

Fixpoint lit {R} (l : string) (prev : option ascii) (s : string)
    (cap : option string) (k : cont R) : option R :=
  match l with
  | EmptyString => k prev s cap
  | String a l' =>
      match s with
      | String x r =>
          if Ascii.eqb (Js.lower_char a) (Js.lower_char x)
          then lit l' (Some x) r cap k else None
      | EmptyString => None
      end
  end.

(** Greedy [c*]: take as many characters as possible, give them back one
    by one while the rest of the pattern fails. *)
Fixpoint star {R} (c : cls) (prev : option ascii) (s : string)
    (cap : option string) (k : cont R) : option R :=
  match s with
  | String x r =>
      if in_cls c x then
        match star c (Some x) r cap k with
        | Some res => Some res
        | None => k prev s cap
        end
      else k prev s cap
  | EmptyString => k prev s cap
  end.

Definition at_boundary (prev : option ascii) (s : string) : bool :=
  let before := match prev with Some x => is_word x | None => false end in
  let after := match s with String x _ => is_word x | EmptyString => false end in
  xorb before after.

Fixpoint take (n : nat) (s : string) : string :=
  match n, s with
  | S n', String x r => String x (take n' r)
  | _, _ => EmptyString
  end.

(** The text between the start [s] of a match and what is left [r]. *)
Definition consumed (s r : string) : string :=
  take (String.length s - String.length r) s.

Fixpoint run {R} (p : re) (prev : option ascii) (s : string)
    (cap : option string) (k : cont R) : option R :=
  match p with
  | Lit l => lit l prev s cap k
  | Seq a b => run a prev s cap (fun prev' s' cap' => run b prev' s' cap' k)
  | Alt a b =>
      match run a prev s cap k with
      | Some res => Some res
      | None => run b prev s cap k
      end
  | Opt a =>
      match run a prev s cap k with
      | Some res => Some res
      | None => k prev s cap
      end
  | Star c => star c prev s cap k
  | Plus c =>
      match s with
      | String x r => if in_cls c x then star c (Some x) r cap k else None
      | EmptyString => None
      end
  | Bound => if at_boundary prev s then k prev s cap else None
  | Group a =>
      run a prev s cap (fun prev' s' _ => k prev' s' (Some (consumed s s')))
  end.

(** The result of [exec]: the matched text, capture group 1, and the
    position after the match (last character and remaining text). *)
Record found := Found {
  matched : string;
  group1 : option string;
  last : option ascii;
  rest : string }.

Definition match_here (p : re) (prev : option ascii) (s : string) : option found :=
  run p prev s None
      (fun prev' s' cap => Some (Found (consumed s s') cap prev' s')).

(** The leftmost match at or after the current position. *)
Fixpoint search (p : re) (prev : option ascii) (s : string) : option found :=
  match match_here p prev s with
  | Some f => Some f
  | None =>
      match s with
      | String x r => search p (Some x) r
      | EmptyString => None
      end
  end.

(** [regex.test(text)] *)
Definition test (p : re) (text : string) : bool :=
  match search p None text with Some _ => true | None => false end.

(** [text.match(regex)[1]] for a pattern without the [g] flag *)
Definition match1 (p : re) (text : string) : option string :=
  match search p None text with
  | Some f => group1 f
  | None => None
  end.

(** [text.match(regex)] with the [g] flag: the texts of the successive
    matches. After an empty match the search resumes one character on. *)
Fixpoint match_all_from (fuel : nat) (p : re) (prev : option ascii) (s : string)
    : list string :=
  match fuel with
  | O => []
  | S fuel' =>
      match search p prev s with
      | None => []
      | Some f =>
          match matched f with
          | EmptyString =>
              match rest f with
              | String x r => EmptyString :: match_all_from fuel' p (Some x) r
              | EmptyString => [EmptyString]
              end
          | _ => matched f :: match_all_from fuel' p (last f) (rest f)
          end
      end
  end.

Definition match_all (p : re) (text : string) : list string :=
  match_all_from (S (String.length text)) p None text.

Fixpoint alts (ps : list re) : re :=
  match ps with
  | [] => Lit ""
  | [p] => p
  | p :: r => Alt p (alts r)
  end.

(** [/\b(p1|p2|...)\b/i] *)
Definition keyword (ps : list re) : re := Seq Bound (Seq (Group (alts ps)) Bound).

(** [a\s+b] *)
Definition spaced (a b : string) : re := Seq (Lit a) (Seq (Plus Space) (Lit b)).

End Regex.

(* ===================================================================== *)
(** ** Intents and conversation messages *)
(* ===================================================================== *)

(** [intent.budget] is a number or the string ['flexible']. *)
Inductive amount :=
| BNum (n : Z)
| BStr (s : string).

(** The intent object; an absent property is [None] ([{}] has none). *)
Record intent := Intent {
  occasion : option string;
  style : option string;
  season : option string;
  budget : option amount;
  urgency : option string;
  preferences : list string;
  intent_tags : option (list string) }.

Definition empty_intent : intent := Intent None None None None None [] None.

(** One entry of [conversationHistory] (messageSchema). *)
Record message := Message {
  text : string;
  sender : string;
  timestamp : Z }.

(** [v || d] for an optional string. *)
Definition or_str (v : option string) (d : string) : string :=
  match v with
  | Some s => if Js.falsy s then d else s
  | None => d
  end.

(** [v || 'flexible'] for an optional budget: [0] and [''] are falsy. *)
Definition or_budget (v : option amount) (d : amount) : amount :=
  match v with
  | Some (BNum n) => if n =? 0 then d else BNum n
  | Some (BStr s) => if Js.falsy s then d else BStr s
  | None => d
  end.

Definition str_eqb (a b : string) : bool := String.eqb a b.

(** [arr.includes(x)] on strings *)
Fixpoint includes (x : string) (l : list string) : bool :=
  match l with
  | [] => false
  | y :: r => str_eqb x y || includes x r
  end.

(* ===================================================================== *)
(** ** server/services/contextEngine.js *)
(* ===================================================================== *)

Module ContextEngine.

Import Regex.

Definition words (ws : list string) : list re := map Lit ws.

Definition occasion_wedding := keyword (words ["wedding"; "marriage"; "ceremony"; "bridal"; "groom"]).
Definition occasion_work := keyword (words ["work"; "office"; "business"; "meeting"; "interview"; "professional"; "corporate"]).
Definition occasion_party := keyword (words ["party"; "celebration"; "event"; "gala"; "festival"; "gathering"]).
Definition occasion_date := keyword [Lit "date"; Lit "romantic"; Lit "dinner"; spaced "evening" "out"; spaced "night" "out"].
Definition occasion_casual := keyword (words ["casual"; "everyday"; "weekend"; "daily"; "regular"]).

Definition extractOccasion (text : string) (previousValue : option string) : string :=
  if Js.falsy text then or_str previousValue "other"
  else if test occasion_wedding text then "wedding"
  else if test occasion_work text then "work"
  else if test occasion_party text then "party"
  else if test occasion_date text then "date"
  else if test occasion_casual text then "casual"
  else or_str previousValue "other".

Definition style_formal := keyword [Lit "formal"; Lit "suit"; Lit "blazer"; spaced "dress" "shirt"; Lit "tuxedo"; Lit "tie"].
Definition style_business := keyword (words ["business"; "professional"; "corporate"; "executive"]).
Definition style_trendy := keyword (words ["trendy"; "fashionable"; "stylish"; "modern"; "contemporary"; "hip"]).
Definition style_classic := keyword (words ["classic"; "traditional"; "timeless"; "vintage"; "conservative"]).
Definition style_sporty := keyword (words ["sport"; "athletic"; "active"; "gym"; "workout"; "athleisure"]).
Definition style_casual := keyword [Lit "casual"; Lit "relaxed"; Lit "comfortable"; Lit "easygoing"; spaced "laid" "back"].

Definition extractStyle (text : string) (previousValue : option string) : string :=
  if Js.falsy text then or_str previousValue "casual"
  else if test style_formal text then "formal"
  else if test style_business text then "business"
  else if test style_trendy text then "trendy"
  else if test style_classic text then "classic"
  else if test style_sporty text then "sporty"
  else if test style_casual text then "casual"
  else or_str previousValue "casual".

Definition season_summer := keyword [Lit "summer"; Lit "hot"; Lit "lightweight"; Lit "breathable"; Lit "beach"; Lit "sunny"; spaced "warm" "weather"].
Definition season_winter := keyword (words ["winter"; "cold"; "warm"; "layer"; "layering"; "snow"; "freezing"; "insulated"; "wool"; "fleece"]).
Definition season_spring := keyword (words ["spring"; "bloom"; "mild"]).
Definition season_fall := keyword (words ["fall"; "autumn"; "cooler"; "crisp"]).

Definition extractSeason (text : string) (previousValue : option string) : string :=
  if Js.falsy text then or_str previousValue "all-season"
  else if test season_summer text then "summer"
  else if test season_winter text then "winter"
  else if test season_spring text then "spring"
  else if test season_fall text then "fall"
  else or_str previousValue "all-season".

Definition digits := Group (Plus Digit).

(** The seven [numberPatterns], in order. *)
Definition numberPatterns : list re :=
  [ Seq (Lit "$") digits;
    Seq digits (Seq (Star Space) (Seq (Lit "dollar") (Opt (Lit "s"))));
    Seq (Lit "budget") (Seq (Star Space) (Seq (Opt (Alt (Lit "of") (Lit "is")))
                                              (Seq (Star Space) digits)));
    Seq (Lit "around") (Seq (Star Space) digits);
    Seq (Lit "up") (Seq (Plus Space) (Seq (Lit "to") (Seq (Star Space) digits)));
    Seq digits (Seq (Star Space) (Alt (Seq (Lit "buck") (Opt (Lit "s"))) (Lit "usd")));
    Seq (Lit "approximately") (Seq (Star Space) digits) ].

(** [parseInt(s, 10)] on a string of decimal digits. *)
Fixpoint parseInt_from (acc : Z) (s : string) : Z :=
  match s with
  | String x r =>
      if Js.is_digit x then parseInt_from (acc * 10 + (Js.code x - 48)) r else acc
  | EmptyString => acc
  end.

Definition parseInt (s : string) : Z := parseInt_from 0 s.

(** The loop over [numberPatterns]: the first pattern whose capture is a
    positive amount decides. *)
Fixpoint first_amount (patterns : list re) (text : string) : option Z :=
  match patterns with
  | [] => None
  | pattern :: more =>
      match match1 pattern text with
      | Some m =>
          if Js.falsy m then first_amount more text
          else
            let amount := parseInt m in
            if 0 <? amount then Some amount else first_amount more text
      | None => first_amount more text
      end
  end.

Definition budget_low := keyword [Lit "cheap"; Lit "affordable"; Lit "budget"; Lit "inexpensive"; Lit "economical"; spaced "low" "price"].
Definition budget_high := keyword [Lit "expensive"; Lit "luxury"; Lit "premium"; spaced "high" "end"; Lit "designer"; Lit "upscale"].
Definition budget_mid := keyword [Seq (Lit "mid") (Seq (Star Space) (Lit "range")); Lit "moderate"; Lit "medium"].

Definition extractBudget (text : string) (previousValue : option amount) : amount :=
  if Js.falsy text then or_budget previousValue (BStr "flexible")
  else match first_amount numberPatterns text with
  | Some amount => BNum amount
  | None =>
      if test budget_low text then BNum 100
      else if test budget_high text then BNum 500
      else if test budget_mid text then BNum 200
      else or_budget previousValue (BStr "flexible")
  end.

Definition urgency_today := keyword [Lit "today"; spaced "right" "now"; Lit "asap";
  Seq (Lit "as") (Seq (Plus Space) (Seq (Lit "soon") (Seq (Plus Space) (Seq (Lit "as") (Seq (Plus Space) (Lit "possible"))))));
  Lit "immediately"; Lit "urgently"; spaced "right" "away"; spaced "this" "evening"].
Definition urgency_week := keyword [spaced "this" "week"; Lit "soon"; Lit "urgent"; Lit "quickly"; Lit "fast"; spaced "needed" "soon"; Lit "asap"; Lit "hurry"].

Definition extractUrgency (text : string) (previousValue : option string) : string :=
  if Js.falsy text then or_str previousValue "flexible"
  else if test urgency_today text then "today"
  else if test urgency_week text then "this-week"
  else or_str previousValue "flexible".

Definition colors : list string :=
  ["black"; "white"; "blue"; "red"; "green"; "grey"; "gray"; "brown"; "navy"; "beige"; "tan"; "burgundy"].
Definition materials_re := keyword (words ["cotton"; "wool"; "linen"; "silk"; "polyester"; "denim"; "leather"; "suede"]).
Definition fits_re := keyword (words ["slim"; "loose"; "fitted"; "relaxed"; "tailored"; "baggy"; "skinny"]).

(** The [forEach] over the matches of a [g] pattern: each match is
    lowercased and pushed unless already known. *)
Fixpoint push_new (found : list string) (preferences newPreferences : list string)
    : list string :=
  match found with
  | [] => newPreferences
  | m :: more =>
      let normalized := Js.toLowerCase m in
      if negb (includes normalized preferences) && negb (includes normalized newPreferences)
      then push_new more preferences (newPreferences ++ [normalized])
      else push_new more preferences newPreferences
  end.

Definition extractPreferences (text : string) (previousPreferences : list string)
    : list string :=
  let preferences := previousPreferences in
  let newPreferences :=
    List.filter (fun color => test (Seq Bound (Seq (Lit color) Bound)) text
                         && negb (includes color preferences)) colors in
  let newPreferences :=
    if test materials_re text
    then push_new (match_all materials_re text) preferences newPreferences
    else newPreferences in
  let newPreferences :=
    if test fits_re text
    then push_new (match_all fits_re text) preferences newPreferences
    else newPreferences in
  preferences ++ newPreferences.

(** [str.charAt(0).toUpperCase() + str.slice(1)] *)
Definition capitalize (str : string) : string :=
  match str with
  | EmptyString => ""
  | String c r => String (Js.upper_char c) r
  end.

Definition is_str (v : option string) (s : string) : bool :=
  match v with Some x => str_eqb x s | None => false end.

Definition truthy_str (v : option string) : bool :=
  match v with Some x => negb (Js.falsy x) | None => false end.

(** [generateTags(intent)] *)
Definition generateTags (i : intent) : list string :=
  let tags := [] in
  let tags :=
    if truthy_str (occasion i) && negb (is_str (occasion i) "other") then
      let tags := tags ++ ["#" +:+ capitalize (or_str (occasion i) "")] in
      if is_str (occasion i) "wedding" then tags ++ ["#Wedding"] else tags
    else tags in
  let tags :=
    if truthy_str (style i) then tags ++ ["#" +:+ capitalize (or_str (style i) "")]
    else tags in
  let tags :=
    if truthy_str (season i) && negb (is_str (season i) "all-season") then
      let seasonTag :=
        if is_str (season i) "summer" then "#SummerWear"
        else if is_str (season i) "winter" then "#WinterWear"
        else "#" +:+ capitalize (or_str (season i) "") +:+ "Wear" in
      tags ++ [seasonTag]
    else tags in
  let tags := if is_str (urgency i) "today" then tags ++ ["#Urgent"] else tags in
  match budget i with
  | Some (BNum n) =>
      if 300 <? n then tags ++ ["#Premium"]
      else if n <? 100 then tags ++ ["#Budget"]
      else tags
  | _ => tags
  end.

(** [generateSummary(intent)] *)
Definition generateSummary (i : intent) : string :=
  let parts := [] in
  let parts :=
    if truthy_str (occasion i) && negb (is_str (occasion i) "other")
    then parts ++ ["for " +:+ or_str (occasion i) ""] else parts in
  let parts :=
    if truthy_str (style i) then parts ++ [or_str (style i) "" +:+ " style"]
    else parts in
  let parts :=
    if truthy_str (season i) && negb (is_str (season i) "all-season")
    then parts ++ ["suitable for " +:+ or_str (season i) ""] else parts in
  let parts :=
    match budget i with
    | Some (BNum n) => parts ++ ["within $" +:+ Js.of_Z n +:+ " budget"]
    | Some (BStr s) => if str_eqb s "flexible" then parts ++ ["flexible budget"] else parts
    | None => parts
    end in
  let parts :=
    if truthy_str (urgency i) && negb (is_str (urgency i) "flexible") then
      if is_str (urgency i) "today" then parts ++ ["needed today"]
      else if is_str (urgency i) "this-week" then parts ++ ["needed this week"]
      else parts
    else parts in
  let parts :=
    match preferences i with
    | [] => parts
    | _ => parts ++ ["preferences: " +:+ Js.join ", " (firstn 3 (preferences i))]
    end in
  match parts with
  | [] => "Looking for clothing items"
  | _ => "Looking " +:+ Js.join ", " parts
  end.

(** The contribution of one field to the confidence score. *)
Definition meaningful (v : option string) : bool :=
  truthy_str v && negb (is_str v "other") && negb (is_str v "flexible")
  && negb (is_str v "all-season") && negb (is_str v "casual").

Definition field_score (is_style : bool) (v : option string) : Q :=
  if meaningful v then 1%Q
  else if is_style && is_str v "casual" then (1 # 2)%Q
  else 0%Q.

Definition budget_score (b : option amount) : Q :=
  match b with
  | Some (BNum n) => if n =? 0 then 0%Q else 1%Q
  | Some (BStr s) => field_score false (Some s)
  | None => 0%Q
  end.

Definition Qmin' (a b : Q) : Q := if Qle_bool a b then a else b.
Definition Qmax' (a b : Q) : Q := if Qle_bool a b then b else a.

(** [calculateConfidence(intent)], in exact arithmetic. *)
Definition calculateConfidence (i : intent) : Q :=
  let score := (field_score false (occasion i) + field_score true (style i)
                + field_score false (season i) + budget_score (budget i)
                + field_score false (urgency i))%Q in
  let maxScore := 5%Q in
  let '(score, maxScore) :=
    match preferences i with
    | [] => (score, maxScore)
    | _ => ((score + (2 # 10))%Q, (maxScore + (2 # 10))%Q)
    end in
  let normalizedScore := (score / maxScore)%Q in
  Qmin' (95 # 100) (Qmax' (1 # 10) normalizedScore).

Record context := Context {
  ctx_text : string;
  ctx_occasion : option string;
  ctx_style : option string;
  ctx_season : option string;
  ctx_budget : option amount;
  ctx_urgency : option string;
  ctx_preferences : list string }.

(** [extractPreviousContext(conversationHistory)]: the texts of the
    user's messages, lowercased and joined, and what they yield. *)
Definition extractPreviousContext (conversationHistory : list message) : context :=
  let previousMessages :=
    List.filter (fun t => negb (Js.falsy t))
      (map (fun msg => Js.toLowerCase (text msg))
         (List.filter (fun msg => str_eqb (Js.toLowerCase (sender msg)) "user")
                 conversationHistory)) in
  let combinedPreviousText := Js.join " " previousMessages in
  if Js.falsy combinedPreviousText
  then Context combinedPreviousText None None None None None []
  else Context combinedPreviousText
         (Some (extractOccasion combinedPreviousText None))
         (Some (extractStyle combinedPreviousText None))
         (Some (extractSeason combinedPreviousText None))
         (Some (extractBudget combinedPreviousText None))
         (Some (extractUrgency combinedPreviousText None))
         (extractPreferences combinedPreviousText []).

Record parsed := Parsed {
  parsed_intent : intent;
  parsed_tags : list string;
  summary : string;
  confidence : Q }.

(** [parseUserMessage(message, conversationHistory)] *)
Definition parseUserMessage (msg : string) (conversationHistory : list message)
    : parsed :=
  let text := Js.toLowerCase msg in
  let previousContext := extractPreviousContext conversationHistory in
  let combinedText :=
    if Js.falsy (ctx_text previousContext) then text
    else ctx_text previousContext +:+ " " +:+ text in
  let i := Intent
    (Some (extractOccasion combinedText (ctx_occasion previousContext)))
    (Some (extractStyle combinedText (ctx_style previousContext)))
    (Some (extractSeason combinedText (ctx_season previousContext)))
    (Some (extractBudget combinedText (ctx_budget previousContext)))
    (Some (extractUrgency combinedText (ctx_urgency previousContext)))
    (extractPreferences combinedText (ctx_preferences previousContext))
    None in
  Parsed i (generateTags i) (generateSummary i) (calculateConfidence i).

End ContextEngine.

(* ===================================================================== *)
(** ** server/services/recommendationEngine.js *)
(* ===================================================================== *)

Module RecommendationEngine.

Import ContextEngine.

(** A product document (productSchema), with the fields the engine reads. *)
Record product := Product {
  productId : string;
  name : string;
  category : string;
  price : Q;
  tags : list string;
  inStock : bool;
  stockCount : Z }.

(** [{ ...product, score }] *)
Record scored := Scored { item : product; score : Z }.

Record recommendations := Recommendations {
  products : list scored;
  explanations : list string;
  rec_confidence : Q }.

Definition nothing : recommendations := Recommendations [] [] 0%Q.

(** [tag.toString().replace(/^#/, '')] *)
Definition strip_hash (tag : string) : string :=
  match tag with
  | String c r => if Ascii.eqb c "#"%char then r else tag
  | EmptyString => tag
  end.

(** [generateTagsFromIntent(parsedIntent)] *)
Definition generateTagsFromIntent (i : intent) : list string :=
  let tags := [] in
  let tags :=
    if truthy_str (occasion i) && negb (is_str (occasion i) "other") then
      let tags := tags ++ [capitalize (or_str (occasion i) "")] in
      if is_str (occasion i) "wedding" then tags ++ ["Wedding"] else tags
    else tags in
  let tags :=
    if truthy_str (style i) then tags ++ [capitalize (or_str (style i) "")]
    else tags in
  let tags :=
    if truthy_str (season i) && negb (is_str (season i) "all-season") then
      if is_str (season i) "summer" then tags ++ ["SummerWear"]
      else if is_str (season i) "winter" then tags ++ ["WinterWear"]
      else tags ++ [capitalize (or_str (season i) "") +:+ "Wear"]
    else tags in
  let tags := if is_str (urgency i) "today" then tags ++ ["Urgent"] else tags in
  match budget i with
  | Some (BNum n) =>
      if 300 <? n then tags ++ ["Premium"]
      else if n <? 100 then tags ++ ["Budget"]
      else tags
  | _ => tags
  end.

(** [calculatePriceScore(productPrice, budget)], in exact arithmetic. *)
Definition calculatePriceScore (productPrice : Q) (b : option amount) : Z :=
  match b with
  | Some (BNum n) =>
      if 0 <? n then
        let priceDiff := (productPrice - inject_Z n)%Q in
        let percentOver := (priceDiff / inject_Z n * 100)%Q in
        if Qle_bool priceDiff 0 then 30
        else if Qle_bool percentOver 10 then 20
        else if Qle_bool percentOver 20 then 10
        else 0
      else 0
  | Some (BStr s) => if str_eqb s "flexible" then 15 else 0
  | None => 0
  end.

(** [calculateProductScore(product, parsedIntent, intentTags, ignoreBudget)] *)
Definition calculateProductScore (p : product) (i : intent)
    (intentTags : list string) (ignoreBudget : bool) : Z :=
  let productTags := map Js.toLowerCase (tags p) in
  let normalizedIntentTags := map Js.toLowerCase intentTags in
  let matchingTags := List.filter (fun tag => includes tag productTags) normalizedIntentTags in
  let tagScore := Z.min 40 (Z.of_nat (List.length matchingTags) * 10) in
  let priceScore :=
    if ignoreBudget then 0 else calculatePriceScore (price p) (budget i) in
  let stockScore :=
    if 5 <? stockCount p then 20
    else if 3 <=? stockCount p then 15
    else if 1 <=? stockCount p then 10
    else 0 in
  tagScore + priceScore + stockScore.

(** The comparator of the three [sort] calls: higher score first, then
    higher stock. *)
Definition compare_products (a b : scored) : Z :=
  if negb (score b =? score a) then score b - score a
  else stockCount (item b) - stockCount (item a).

Fixpoint insert_sorted (x : scored) (l : list scored) : list scored :=
  match l with
  | [] => [x]
  | y :: r =>
      if compare_products x y <=? 0 then x :: l else y :: insert_sorted x r
  end.

(** [Array.prototype.sort(compare_products)]: the sort is stable. *)
Fixpoint sort (l : list scored) : list scored :=
  match l with
  | [] => []
  | x :: r => insert_sorted x (sort r)
  end.

(** [arr.slice(0, end)]: a negative [end] counts from the back. *)
Definition slice0 {A} (l : list A) (e : Z) : list A :=
  if e <? 0 then firstn (Z.to_nat (Z.max (Z.of_nat (List.length l) + e) 0)) l
  else firstn (Z.to_nat e) l.

(** The [for] loop of [applyCategoryDiversity]; [selected] is the set of
    categories seen and [n] is [result.length]. *)
Fixpoint diversity_loop (ps : list scored) (selected : list string) (n limit : Z)
    : list scored :=
  match ps with
  | [] => []
  | p :: r =>
      let category := if Js.falsy (category (item p)) then "Unknown"
                      else category (item p) in
      let isNewCategory := negb (includes category selected) in
      if isNewCategory && (n <? limit)
      then Scored (item p) (score p + 10)
             :: diversity_loop r (category :: selected) (n + 1) limit
      else p :: diversity_loop r selected (n + 1) limit
  end.

Definition applyCategoryDiversity (ps : list scored) (limit : Z) : list scored :=
  slice0 (sort (diversity_loop ps [] 0 limit)) limit.

(** [generateExplanation(product, parsedIntent)] *)
Definition generateExplanation (p : scored) (i : intent) : string :=
  let reasons := [] in
  let reasons :=
    if truthy_str (style i) then reasons ++ [or_str (style i) "" +:+ " style"]
    else reasons in
  let reasons :=
    if truthy_str (occasion i) && negb (is_str (occasion i) "other")
    then reasons ++ ["suitable for " +:+ or_str (occasion i) "" +:+ " occasions"]
    else reasons in
  let reasons :=
    if truthy_str (season i) && negb (is_str (season i) "all-season")
    then reasons ++ ["perfect for " +:+ or_str (season i) ""]
    else reasons in
  let reasons :=
    match budget i with
    | Some (BNum n) =>
        let priceDiff := (price (item p) - inject_Z n)%Q in
        if Qle_bool priceDiff 0
        then reasons ++ ["within your $" +:+ Js.of_Z n +:+ " budget"]
        else if Qle_bool priceDiff (inject_Z n * (1 # 10))
        then reasons ++ ["slightly over budget but great value"]
        else reasons
    | _ => reasons
    end in
  let reasons :=
    if 5 <? stockCount (item p) then reasons ++ ["in stock and ready"]
    else reasons in
  let explanation := "This " +:+ name (item p) in
  match reasons with
  | [] => explanation +:+ " is a great option for you."
  | [r0] => explanation +:+ " matches your " +:+ r0 +:+ "."
  | r0 :: more =>
      explanation +:+ " matches your " +:+ r0 +:+ " and is "
        +:+ Js.join ", " more +:+ "."
  end.

Definition score_all (ps : list product) (i : intent) (intentTags : list string)
    (ignoreBudget : bool) : list scored :=
  map (fun p => Scored p (calculateProductScore p i intentTags ignoreBudget)) ps.

Definition is_number (b : option amount) : bool :=
  match b with Some (BNum _) => true | _ => false end.

(** [Product.find({ inStock: true, stockCount: { $gt: 0 } }).lean()] on
    the product collection. *)
Definition find_available (collection : list product) : list product :=
  List.filter (fun p => inStock p && (0 <? stockCount p)) collection.

(** The body of the [try] block. [parsedIntent = None] is an argument
    that is not an object; [catalog] is the product collection, or the
    error with which the query rejects. *)
Definition recommend (parsedIntent : option intent) (limit : Z)
    (catalog : outcome (list product)) : outcome recommendations :=
  match parsedIntent with
  | None => Returned nothing
  | Some i =>
      let intentTags :=
        match intent_tags i with
        | Some ts => map strip_hash ts
        | None => generateTagsFromIntent i
        end in
      match catalog with
      | Thrown e => Thrown e
      | Returned collection =>
          let products := find_available collection in
          match products with
          | [] => Returned nothing
          | _ =>
              let scoredProducts := score_all products i intentTags false in
              let filteredProducts :=
                sort (List.filter (fun p => 20 <=? score p) scoredProducts) in
              let filteredProducts :=
                if (Z.of_nat (List.length filteredProducts) <? 3)
                   && is_number (budget i)
                then sort (List.filter (fun p => 20 <=? score p)
                                  (score_all products i intentTags true))
                else filteredProducts in
              let diverseProducts := applyCategoryDiversity filteredProducts limit in
              let topProducts := slice0 diverseProducts limit in
              let explanations := map (fun p => generateExplanation p i) topProducts in
              let avgScore :=
                match topProducts with
                | [] => 0%Q
                | _ => (inject_Z (fold_left (fun sum p => (sum + score p)%Z) topProducts 0%Z)
                        / inject_Z (Z.of_nat (List.length topProducts)))%Q
                end in
              let confidence := Qmin' 1 (avgScore / 100) in
              Returned (Recommendations topProducts explanations confidence)
          end
      end
  end.

(** [getRecommendations(parsedIntent, limit)]: the [catch] turns every
    error of the body into the empty result. *)
Definition getRecommendations (parsedIntent : option intent) (limit : Z)
    (catalog : outcome (list product)) : outcome recommendations :=
  match recommend parsedIntent limit catalog with
  | Returned r => Returned r
  | Thrown _ => Returned nothing
  end.

End RecommendationEngine.

(* ===================================================================== *)
(** ** server/models/Session.js *)
(* ===================================================================== *)

Module Session.

Inductive stage := active | transferred | expired.

(** A session document (sessionSchema). [qrCode] and [qrExpiry] default
    to [null]. What Mongoose does to a document on the way in is not
    modelled: strings are kept untrimmed, [parsedIntent] is kept as
    assigned (the schema has no [season] path and casts [budget] to a
    number), and whether the MongoDB calls of a request succeed, [save]
    with its validation included, is an input of the handlers below. *)
Record t := Doc {
  sessionId : string;
  userId : string;
  conversationHistory : list message;
  parsedIntent : intent;
  tags : list string;
  qrCode : option string;
  qrExpiry : option Z;
  status : stage }.

(** The sessions collection; [sessionId] is a unique index. *)
Abbreviation collection := (gmap string t).

(** [Session.findOne({ sessionId })] *)
Definition findOne (c : collection) (id : string) : option t := c !! id.

(** [session.save()] *)
Definition save (c : collection) (s : t) : collection := <[sessionId s := s]> c.

(** [Session.deleteOne({ sessionId })]: [deletedCount] and the collection. *)
Definition deleteOne (c : collection) (id : string) : Z * collection :=
  (match c !! id with Some _ => 1 | None => 0 end, delete id c).

Definition with_qr (s : t) (code : string) (expiry : Z) : t :=
  Doc (sessionId s) (userId s) (conversationHistory s) (parsedIntent s) (tags s)
      (Some code) (Some expiry) (status s).

Definition with_status (s : t) (st : stage) : t :=
  Doc (sessionId s) (userId s) (conversationHistory s) (parsedIntent s) (tags s)
      (qrCode s) (qrExpiry s) st.

Definition with_message (s : t) (history : list message) (i : intent)
    (ts : list string) : t :=
  Doc (sessionId s) (userId s) history i ts (qrCode s) (qrExpiry s) (status s).

End Session.

(* ===================================================================== *)
(** ** server/services/socketManager.js and the REST routes *)
(* ===================================================================== *)

Module SocketManager.

Import ContextEngine.
Module RE := RecommendationEngine.

Definition SOCKET_KEY_PREFIX : string := "socket:".
Definition MOBILE_PREFIX : string := SOCKET_KEY_PREFIX +:+ "mobile:".
Definition KIOSK_PREFIX : string := SOCKET_KEY_PREFIX +:+ "kiosk:".

Inductive channel := mobile | kiosk.

(** The process: its environment, and whether [getRedisClient()] gave the
    socket manager a client ([REDIS_URL] defined). *)
Record config := Config {
  env : QrService.env;
  redis_client : bool }.

(** Everything the handlers read and write. A namespace is known by the
    ids of its connected sockets ([namespace.sockets]); the two module
    variables are [null] until the namespaces are set up. *)
Record state := State {
  redis : Redis.t;
  sessions : Session.collection;
  catalog : list RE.product;
  mobileNamespace : option (gset string);
  kioskNamespace : option (gset string) }.

Definition set_redis (st : state) (r : Redis.t) : state :=
  State r (sessions st) (catalog st) (mobileNamespace st) (kioskNamespace st).

Definition set_sessions (st : state) (c : Session.collection) : state :=
  State (redis st) c (catalog st) (mobileNamespace st) (kioskNamespace st).

Definition set_namespace (st : state) (ch : channel) (ns : option (gset string))
    : state :=
  match ch with
  | mobile => State (redis st) (sessions st) (catalog st) ns (kioskNamespace st)
  | kiosk => State (redis st) (sessions st) (catalog st) (mobileNamespace st) ns
  end.

Definition namespace_of (st : state) (ch : channel) : option (gset string) :=
  match ch with mobile => mobileNamespace st | kiosk => kioskNamespace st end.

Definition prefix_of (ch : channel) : string :=
  match ch with mobile => MOBILE_PREFIX | kiosk => KIOSK_PREFIX end.

(** A field of an event payload or request body: absent, or a string. *)
Definition field := option string.

Definition truthy (f : field) : bool := truthy_str f.

(** What the server sends. *)
Inductive event :=
| welcome (message socketId : string)
| mobile_error (message : string) (error : option string)
| mobile_aiResponse (message : string) (i : intent) (tags : list string)
    (recommendations : list RE.scored) (confidence : Q)
| mobile_qrGenerated (q : QrService.qr)
| mobile_identified (userId socketId : string)
| mobile_sessionTransferred (sessionId message kioskId : string)
| kiosk_identified (kioskId socketId : string)
| kiosk_invalidQR (message : string)
| kiosk_sessionData (s : Session.t) (r : RE.recommendations)
| kiosk_error (message : string) (error : option string)
| kiosk_associateRequested (message sessionId productId productName : string).

Inductive body :=
| failure (error : string)
| chat_reply (sessionId aiResponse : string) (i : intent) (tags : list string)
    (recommendations : list RE.scored)
| session_data (s : Session.t)
| session_deleted (sessionId : string)
| qr_issued (q : QrService.qr)
| qr_validated (s : Session.t)
| qr_expired (message qrId : string) (deleted : bool).

Inductive output :=
| Emit (socket : string) (e : event)
| Respond (code : Z) (b : body).

(** [redis.get(key)] read as a socket id. *)
Definition socket_id_of (v : Redis.value) : option string :=
  match v with
  | Redis.SocketId id => if Js.falsy id then None else Some id
  | Redis.QrRecord _ _ => None
  end.

(** [getSocketByUserId(userId, namespace)]: the connected socket
    registered for the identity, if any. *)
Definition getSocketByUserId (cfg : config) (now : Z) (st : state)
    (userId : field) (ns : channel) : option string :=
  match redis_client cfg, mobileNamespace st, kioskNamespace st, userId with
  | true, Some _, Some _, Some uid =>
      if Js.falsy uid then None
      else
        match namespace_of st ns with
        | None => None
        | Some sockets =>
            let key := prefix_of ns +:+ uid in
            match Redis.get now (redis st) key with
            | None => None
            | Some v =>
                match socket_id_of v with
                | None => None
                | Some socketId =>
                    if decide (socketId ∈ sockets) then Some socketId else None
                end
            end
        end
  | _, _, _, _ => None
  end.

(** The registration [redis.set(prefix + identity, socket.id)], done
    only when there is a client. *)
Definition register (cfg : config) (st : state) (ch : channel)
    (identity socket : string) : state :=
  if redis_client cfg
  then set_redis st (Redis.set (redis st) (prefix_of ch +:+ identity)
                               (Redis.SocketId socket))
  else st.

(** The loop of [cleanupExpiredQRs] over the keys. *)
Fixpoint sweep (now : Z) (keys : list string) (db : Redis.t) : Redis.t :=
  match keys with
  | [] => db
  | key :: more =>
      if Redis.ttl now db key <=? 0
      then sweep now more (snd (Redis.del now db key))
      else sweep now more db
  end.

Definition cleanupExpiredQRs (cfg : config) (now : Z) (st : state) : state :=
  if redis_client cfg
  then set_redis st (sweep now (Redis.keys now (redis st) "qr:") (redis st))
  else st.

(** The loop of the [disconnect] handlers: the first key of the
    namespace that holds this socket's id is deleted. *)
Fixpoint forget (now : Z) (socket : string) (keys : list string) (db : Redis.t)
    : Redis.t :=
  match keys with
  | [] => db
  | key :: more =>
      match Redis.get now db key with
      | Some (Redis.SocketId id) =>
          if str_eqb id socket then snd (Redis.del now db key)
          else forget now socket more db
      | _ => forget now socket more db
      end
  end.

Definition disconnect (cfg : config) (now : Z) (ch : channel) (socket : string)
    (st : state) : state :=
  let st :=
    set_namespace st ch (option_map (fun s => s ∖ {[socket]}) (namespace_of st ch)) in
  if redis_client cfg
  then set_redis st (forget now socket (Redis.keys now (redis st) (prefix_of ch))
                            (redis st))
  else st.

(** [namespace.on('connection', ...)] *)
Definition connect (ch : channel) (socket : string) (st : state)
    : list output * state :=
  let greeting := match ch with
                  | mobile => "Connected to mobile namespace"
                  | kiosk => "Connected to kiosk namespace"
                  end in
  ([Emit socket (welcome greeting socket)],
   set_namespace st ch (option_map (fun s => {[socket]} ∪ s) (namespace_of st ch))).

(** [Array.from(new Set(items))]: a Set keeps the first occurrence of
    each value, in insertion order. *)
Fixpoint set_add_all (items seen : list string) : list string :=
  match items with
  | [] => seen
  | x :: more =>
      if includes x seen then set_add_all more seen
      else set_add_all more (seen ++ [x])
  end.

Definition merge_tags (existingTags newTags : list string) : list string :=
  set_add_all (existingTags ++ newTags) [].

(** [new Session({ sessionId, userId, conversationHistory: [],
    parsedIntent: {}, tags: [], status: 'active' })] *)
Definition new_session (sessionId userId : string) : Session.t :=
  Session.Doc sessionId userId [] empty_intent [] None None Session.active.

Definition recommendations_of (o : outcome RE.recommendations) : RE.recommendations :=
  match o with
  | Returned r => r
  | Thrown _ => RE.nothing
  end.

(** The session as the message path leaves it, before the reply is
    built: shared by the socket handler and the REST route. *)
Definition absorb (now : Z) (session : Session.t) (msg : string)
    : Session.t * parsed :=
  let history := Session.conversationHistory session ++ [Message msg "user" now] in
  let parsed := parseUserMessage msg history in
  let parsedIntent := parsed_intent parsed in
  let newTags := parsed_tags parsed in
  let existingTags := Session.tags session in
  (Session.with_message session history parsedIntent (merge_tags existingTags newTags),
   parsed).

(** [parsed.summary || 'Got it. I will keep this in mind.'] *)
Definition reply_text (p : parsed) : string :=
  if Js.falsy (summary p) then "Got it. I will keep this in mind." else summary p.

(** [socket.on('mobile:message', ...)]. [mongo] tells whether the
    MongoDB calls of this request succeed; when they do not, the first
    one throws into the handler's [catch]. *)
Definition mobile_message (cfg : config) (now : Z) (mongo : outcome unit)
    (socket : string) (sessionId userId msg : field) (st : state)
    : list output * state :=
  match sessionId, userId, msg with
  | Some sid, Some uid, Some m =>
      if Js.falsy sid || Js.falsy uid || Js.falsy m
      then ([Emit socket (mobile_error "sessionId, userId, and message are required" None)], st)
      else
        let st := register cfg st mobile uid socket in
        match mongo with
        | Thrown e => ([Emit socket (mobile_error "Error processing message" (Some e))], st)
        | Returned _ =>
            let session :=
              match Session.findOne (sessions st) sid with
              | Some s => s
              | None => new_session sid uid
              end in
            let (session, parsed) := absorb now session m in
            let recommendations :=
              recommendations_of
                (RE.getRecommendations (Some (parsed_intent parsed)) 3
                                       (Returned (catalog st))) in
            let st := set_sessions st (Session.save (sessions st) session) in
            ([Emit socket (mobile_aiResponse (reply_text parsed) (parsed_intent parsed)
                             (Session.tags session) (RE.products recommendations)
                             (confidence parsed))], st)
        end
  | _, _, _ =>
      ([Emit socket (mobile_error "sessionId, userId, and message are required" None)], st)
  end.

(** [socket.on('mobile:generateQR', ...)]; [uuid] is what [uuidv4()]
    returns. *)
Definition mobile_generateQR (cfg : config) (now : Z) (mongo : outcome unit)
    (uuid : string) (socket : string) (sessionId : field) (st : state)
    : list output * state :=
  if negb (truthy sessionId)
  then ([Emit socket (mobile_error "sessionId is required" None)], st)
  else
    let sid := or_str sessionId "" in
    match QrService.generateQR (env cfg) uuid now sid (redis st) with
    | Thrown e => ([Emit socket (mobile_error "Error generating QR code" (Some e))], st)
    | Returned (qrData, db) =>
        let st := set_redis st db in
        match mongo with
        | Thrown e => ([Emit socket (mobile_error "Error generating QR code" (Some e))], st)
        | Returned _ =>
            let st :=
              match Session.findOne (sessions st) sid with
              | Some session =>
                  set_sessions st
                    (Session.save (sessions st)
                       (Session.with_qr session (QrService.qrId qrData)
                                        (QrService.expiresAt qrData)))
              | None => st
              end in
            ([Emit socket (mobile_qrGenerated qrData)], st)
        end
    end.

(** [socket.on('mobile:identify', ...)] and [socket.on('kiosk:identify', ...)] *)
Definition identify (cfg : config) (ch : channel) (socket : string)
    (identity : field) (st : state) : list output * state :=
  if truthy identity && redis_client cfg then
    let id := or_str identity "" in
    ([Emit socket (match ch with
                   | mobile => mobile_identified id socket
                   | kiosk => kiosk_identified id socket
                   end)],
     register cfg st ch id socket)
  else ([], st).

(** [socket.on('kiosk:scanQR', ...)] *)
Definition kiosk_scanQR (cfg : config) (now : Z) (mongo : outcome unit)
    (socket : string) (qrId signature kioskId : field) (st : state)
    : list output * state :=
  if negb (truthy qrId) || negb (truthy signature)
  then ([Emit socket (kiosk_invalidQR "qrId and signature are required")], st)
  else
    let st := if truthy kioskId then register cfg st kiosk (or_str kioskId "") socket
              else st in
    let (sessionId, db) :=
      QrService.validateQR (env cfg) now (or_str qrId "") (or_str signature "")
                           (redis st) in
    let st := set_redis st db in
    if negb (truthy sessionId)
    then ([Emit socket (kiosk_invalidQR "Invalid or expired QR code")], st)
    else
      match mongo with
      | Thrown e => ([Emit socket (kiosk_error "Error processing QR code" (Some e))], st)
      | Returned _ =>
          match Session.findOne (sessions st) (or_str sessionId "") with
          | None => ([Emit socket (kiosk_invalidQR "Session not found")], st)
          | Some session =>
              let session := Session.with_status session Session.transferred in
              let st := set_sessions st (Session.save (sessions st) session) in
              let recommendations :=
                recommendations_of
                  (RE.getRecommendations (Some (Session.parsedIntent session)) 5
                                         (Returned (catalog st))) in
              let data := Emit socket (kiosk_sessionData session recommendations) in
              let notice :=
                if negb (Js.falsy (Session.userId session)) then
                  match mobileNamespace st with
                  | Some _ =>
                      match getSocketByUserId cfg now st
                              (Some (Session.userId session)) mobile with
                      | Some mobileSocket =>
                          [Emit mobileSocket
                             (mobile_sessionTransferred (Session.sessionId session)
                                "Your session has been transferred to the kiosk"
                                (or_str kioskId "unknown"))]
                      | None => []
                      end
                  | None => []
                  end
                else [] in
              (data :: notice, st)
          end
      end.

(** [Product.findOne({ productId })] *)
Definition find_product (c : list RE.product) (id : string) : option RE.product :=
  List.find (fun p => str_eqb (RE.productId p) id) c.

(** [socket.on('kiosk:requestAssociate', ...)] *)
Definition kiosk_requestAssociate (mongo : outcome unit) (socket : string)
    (sessionId productId kioskId : field) (st : state) : list output * state :=
  if negb (truthy sessionId) || negb (truthy productId)
  then ([Emit socket (kiosk_error "sessionId and productId are required" None)], st)
  else
    match mongo with
    | Thrown e =>
        ([Emit socket (kiosk_error "Error processing associate request" (Some e))], st)
    | Returned _ =>
        match Session.findOne (sessions st) (or_str sessionId ""),
              find_product (catalog st) (or_str productId "") with
        | Some session, Some product =>
            ([Emit socket (kiosk_associateRequested "Associate request received"
                             (or_str sessionId "") (or_str productId "")
                             (RE.name product))], st)
        | _, _ => ([Emit socket (kiosk_error "Session or product not found" None)], st)
        end
    end.

(** The code units that [trim] removes: the white space and the line
    terminators of ECMAScript. *)
Definition is_space_unit (u : Z) : bool :=
  ((9 <=? u) && (u <=? 13)) || (u =? 32) || (u =? 160) || (u =? 5760)
  || ((8192 <=? u) && (u <=? 8202)) || (u =? 8232) || (u =? 8233)
  || (u =? 8239) || (u =? 8287) || (u =? 12288) || (u =? 65279).

(** [message.trim().length === 0] *)
Definition blank (s : string) : bool := forallb is_space_unit (Js.units s).

(** [error.message || 'Internal server error'], sent with status 500. *)
Definition internal_error (e : string) : output :=
  Respond 500 (failure (if Js.falsy e then "Internal server error" else e)).

(** [POST /api/chat/message] *)
Definition post_chat_message (now : Z) (mongo : outcome unit)
    (sessionId userId msg : field) (st : state) : list output * state :=
  if negb (truthy sessionId) || negb (truthy userId) || negb (truthy msg)
  then ([Respond 400 (failure "sessionId, userId, and message are required")], st)
  else if blank (or_str msg "")
  then ([Respond 400 (failure "message must be a non-empty string")], st)
  else
    match mongo with
    | Thrown e => ([internal_error e], st)
    | Returned _ =>
        let sid := or_str sessionId "" in
        let session :=
          match Session.findOne (sessions st) sid with
          | Some s => s
          | None => new_session sid (or_str userId "")
          end in
        let (session, parsed) := absorb now session (or_str msg "") in
        let recommendationsResult :=
          recommendations_of
            (RE.getRecommendations (Some (parsed_intent parsed)) 3
                                   (Returned (catalog st))) in
        let aiResponseText := reply_text parsed in
        let session :=
          Session.with_message session
            (Session.conversationHistory session ++ [Message aiResponseText "ai" now])
            (Session.parsedIntent session) (Session.tags session) in
        let st := set_sessions st (Session.save (sessions st) session) in
        ([Respond 200 (chat_reply (Session.sessionId session) aiResponseText
                         (parsed_intent parsed) (Session.tags session)
                         (RE.products recommendationsResult))], st)
    end.

(** [GET /api/chat/session/:sessionId] *)
Definition get_chat_session (mongo : outcome unit) (sessionId : string) (st : state)
    : list output * state :=
  if Js.falsy sessionId then ([Respond 400 (failure "sessionId is required")], st)
  else
    match mongo with
    | Thrown e => ([internal_error e], st)
    | Returned _ =>
        match Session.findOne (sessions st) sessionId with
        | None => ([Respond 404 (failure "Session not found")], st)
        | Some session => ([Respond 200 (session_data session)], st)
        end
    end.

(** [DELETE /api/chat/session/:sessionId] *)
Definition delete_chat_session (mongo : outcome unit) (sessionId : string)
    (st : state) : list output * state :=
  if Js.falsy sessionId then ([Respond 400 (failure "sessionId is required")], st)
  else
    match mongo with
    | Thrown e => ([internal_error e], st)
    | Returned _ =>
        let (deletedCount, c) := Session.deleteOne (sessions st) sessionId in
        if deletedCount =? 0 then ([Respond 404 (failure "Session not found")], st)
        else ([Respond 200 (session_deleted sessionId)], set_sessions st c)
    end.

(** [POST /api/qr/generate] *)
Definition post_qr_generate (cfg : config) (now : Z) (mongo : outcome unit)
    (uuid : string) (sessionId : field) (st : state) : list output * state :=
  if negb (truthy sessionId) then ([Respond 400 (failure "sessionId is required")], st)
  else
    let sid := or_str sessionId "" in
    match mongo with
    | Thrown e => ([internal_error e], st)
    | Returned _ =>
        match Session.findOne (sessions st) sid with
        | None => ([Respond 404 (failure "Session not found")], st)
        | Some session =>
            match QrService.generateQR (env cfg) uuid now sid (redis st) with
            | Thrown e => ([internal_error e], st)
            | Returned (qrData, db) =>
                let st := set_redis st db in
                let st :=
                  set_sessions st
                    (Session.save (sessions st)
                       (Session.with_qr session (QrService.qrId qrData)
                                        (QrService.expiresAt qrData))) in
                ([Respond 200 (qr_issued qrData)], st)
            end
        end
    end.

(** [POST /api/qr/validate] *)
Definition post_qr_validate (cfg : config) (now : Z) (mongo : outcome unit)
    (qrId signature : field) (st : state) : list output * state :=
  if negb (truthy qrId) || negb (truthy signature)
  then ([Respond 400 (failure "qrId and signature are required")], st)
  else
    let (sessionId, db) :=
      QrService.validateQR (env cfg) now (or_str qrId "") (or_str signature "")
                           (redis st) in
    let st := set_redis st db in
    if negb (truthy sessionId)
    then ([Respond 400 (failure "Invalid or expired QR code")], st)
    else
      match mongo with
      | Thrown e => ([internal_error e], st)
      | Returned _ =>
          match Session.findOne (sessions st) (or_str sessionId "") with
          | None => ([Respond 404 (failure "Session not found")], st)
          | Some session => ([Respond 200 (qr_validated session)], st)
          end
      end.

(** [DELETE /api/qr/:qrId] *)
Definition delete_qr (now : Z) (qrId : string) (st : state) : list output * state :=
  if Js.falsy qrId then ([Respond 400 (failure "qrId is required")], st)
  else
    let (deleted, db) := QrService.expireQR now qrId (redis st) in
    ([Respond 200 (qr_expired (if deleted then "QR code expired successfully"
                               else "QR code not found") qrId deleted)],
     set_redis st db).

(** Everything that can reach the server: socket events of the two
    namespaces, the periodic cleanup, and the REST requests. *)
Inductive request :=
| Connect (ch : channel) (socket : string)
| Disconnect (ch : channel) (socket : string)
| Identify (ch : channel) (socket : string) (identity : field)
| MobileMessage (socket : string) (sessionId userId msg : field)
| MobileGenerateQR (socket : string) (sessionId : field) (uuid : string)
| KioskScanQR (socket : string) (qrId signature kioskId : field)
| KioskRequestAssociate (socket : string) (sessionId productId kioskId : field)
| Cleanup
| PostChatMessage (sessionId userId msg : field)
| GetChatSession (sessionId : string)
| DeleteChatSession (sessionId : string)
| PostQrGenerate (sessionId : field) (uuid : string)
| PostQrValidate (qrId signature : field)
| DeleteQr (qrId : string).

(** One request handled at time [now]. *)
Definition handle (cfg : config) (now : Z) (mongo : outcome unit) (r : request)
    (st : state) : list output * state :=
  match r with
  | Connect ch socket => connect ch socket st
  | Disconnect ch socket => ([], disconnect cfg now ch socket st)
  | Identify ch socket identity => identify cfg ch socket identity st
  | MobileMessage socket sessionId userId msg =>
      mobile_message cfg now mongo socket sessionId userId msg st
  | MobileGenerateQR socket sessionId uuid =>
      mobile_generateQR cfg now mongo uuid socket sessionId st
  | KioskScanQR socket qrId signature kioskId =>
      kiosk_scanQR cfg now mongo socket qrId signature kioskId st
  | KioskRequestAssociate socket sessionId productId kioskId =>
      kiosk_requestAssociate mongo socket sessionId productId kioskId st
  | Cleanup => ([], cleanupExpiredQRs cfg now st)
  | PostChatMessage sessionId userId msg =>
      post_chat_message now mongo sessionId userId msg st
  | GetChatSession sessionId => get_chat_session mongo sessionId st
  | DeleteChatSession sessionId => delete_chat_session mongo sessionId st
  | PostQrGenerate sessionId uuid => post_qr_generate cfg now mongo uuid sessionId st
  | PostQrValidate qrId signature => post_qr_validate cfg now mongo qrId signature st
  | DeleteQr qrId => delete_qr now qrId st
  end.

(** A request together with the clock and the database's availability
    when it is handled. *)
Record arrival := Arrival {
  at_time : Z;
  mongo_of : outcome unit;
  request_of : request }.

Fixpoint run (cfg : config) (trace : list arrival) (st : state) : state :=
  match trace with
  | [] => st
  | a :: more =>
      run cfg more (snd (handle cfg (at_time a) (mongo_of a) (request_of a) st))
  end.

(** [initializeSocketManager(io)]: both namespaces exist and are empty. *)
Definition initial (products : list RE.product) : state :=
  State ∅ ∅ products (Some ∅) (Some ∅).

End SocketManager.

(* ===================================================================== *)
(** * Specification vocabulary *)
(* ===================================================================== *)

(** The predicates in which the properties below are stated. *)
Module Spec.

Import ContextEngine SocketManager.

Definition octet (b : Z) : Prop := 0 <= b < 256.

(** When the presented signature is taken for the expected one: same
    length as a string, same bytes once hex-decoded. *)
Definition accepts (presented expected : string) : Prop :=
  Js.length presented = Js.length expected
  /\ Hex.decode presented = Hex.decode expected.

(** The comparison of [validateQR], as one of three verdicts. *)
Inductive verdict := Match | Mismatch | Malformed.

Definition compare (presented expected : string) : verdict :=
  if negb (Nat.eqb (Js.length presented) (Js.length expected)) then Mismatch
  else match QrService.timingSafeEqual (Hex.decode presented) (Hex.decode expected) with
       | Thrown _ => Malformed
       | Returned true => Match
       | Returned false => Mismatch
       end.

(** The scored products a request selects, before explanations and
    confidence are attached. *)
Definition selection (i : intent) (limit : Z) (available : list RE.product)
    : list RE.scored :=
  let intentTags :=
    match intent_tags i with
    | Some ts => map RE.strip_hash ts
    | None => RE.generateTagsFromIntent i
    end in
  let filtered :=
    RE.sort (List.filter (fun p => 20 <=? RE.score p) (RE.score_all available i intentTags false)) in
  let filtered :=
    if (Z.of_nat (List.length filtered) <? 3) && RE.is_number (budget i)
    then RE.sort (List.filter (fun p => 20 <=? RE.score p)
                           (RE.score_all available i intentTags true))
    else filtered in
  RE.slice0 (RE.applyCategoryDiversity filtered limit) limit.

(** Documents are filed under their own [sessionId]. *)
Definition wf (st : state) : Prop :=
  forall k s, sessions st !! k = Some s -> Session.sessionId s = k.

Definition is_message (r : request) : Prop :=
  match r with
  | MobileMessage _ _ _ _ | PostChatMessage _ _ _ => True
  | _ => False
  end.

Definition is_scan (r : request) : Prop :=
  match r with KioskScanQR _ _ _ _ => True | _ => False end.

Definition is_transfer_request (r : request) : Prop :=
  match r with MobileGenerateQR _ _ _ | PostQrGenerate _ _ => True | _ => False end.

(** What one request does to the sessions collection. *)
Inductive effect (r : request) (c c' : Session.collection) : Prop :=
| untouched : c' = c -> effect r c c'
| on_message sid s history i newTags :
    is_message r -> c !! sid = Some s ->
    c' = <[sid := Session.with_message s history i
                    (merge_tags (Session.tags s) newTags)]> c ->
    effect r c c'
| on_first_message sid uid history i newTags :
    is_message r -> c !! sid = None ->
    c' = <[sid := Session.with_message (new_session sid uid) history i
                    (merge_tags [] newTags)]> c ->
    effect r c c'
| on_transfer_request sid s code expiry :
    is_transfer_request r -> c !! sid = Some s ->
    c' = <[sid := Session.with_qr s code expiry]> c ->
    effect r c c'
| on_scan sid s :
    is_scan r -> c !! sid = Some s ->
    c' = <[sid := Session.with_status s Session.transferred]> c ->
    effect r c c'
| on_delete sid :
    r = DeleteChatSession sid -> c' = delete sid c -> effect r c c'.

(** The scan handler's state once the kiosk has been registered. *)
Definition after_kiosk_registration (cfg : config) (socket : string)
    (kioskId : field) (st : state) : state :=
  if truthy kioskId then register cfg st kiosk (or_str kioskId "") socket else st.

(** Every session of a state has duplicate-free tags. *)
Definition tags_distinct (st : state) : Prop :=
  forall k s, sessions st !! k = Some s -> List.NoDup (Session.tags s).

(** Whether the cleanup job, run at [now], removes the entry [e] held
    under key [k]: a live key of the token namespace whose TTL command
    answers 0 or -1, that is, with less than half a second left or with
    no expiry at all. *)
Definition swept (now : Z) (k : string) (e : Redis.entry) : bool :=
  Redis.has_prefix "qr:" k && Redis.live now e
  && match Redis.expireAt e with
     | None => true
     | Some deadline => deadline <? now + 500
     end.

(** The two kinds of entries the server writes: a token, filed under
    [qr:<id>], for a non-empty session id, with an expiry; and a
    registration, filed under the channel's prefix, for a non-empty
    identity, without expiry. *)
Definition token_entry (k : string) (e : Redis.entry) : Prop :=
  exists id sessionId timestamp deadline,
    k = QrService.QR_KEY_PREFIX +:+ id /\ Js.falsy sessionId = false
    /\ e = Redis.Entry (Redis.QrRecord sessionId timestamp) (Some deadline).

Definition registration_entry (k : string) (e : Redis.entry) : Prop :=
  exists ch identity socket,
    k = prefix_of ch +:+ identity /\ Js.falsy identity = false
    /\ e = Redis.Entry (Redis.SocketId socket) None.

Definition well_keyed (db : Redis.t) : Prop :=
  forall k e, db !! k = Some e -> token_entry k e \/ registration_entry k e.

(** How one request may change a session document: not at all; by
    appending to its history (the user's message, or the user's message
    and the reply) while replacing intent and tags; by recording a token;
    or by marking it transferred. *)
Inductive update (s s' : Session.t) : Prop :=
| kept_as_is : s' = s -> update s s'
| extended added i ts :
    map sender added = ["user"] \/ map sender added = ["user"; "ai"] ->
    s' = Session.with_message s (Session.conversationHistory s ++ added) i ts ->
    update s s'
| coded code expiry : s' = Session.with_qr s code expiry -> update s s'
| handed_over : s' = Session.with_status s Session.transferred -> update s s'.

Definition known_sender (m : message) : Prop := sender m = "user" \/ sender m = "ai".

(** What holds of every stored session. *)
Definition sound_session (s : Session.t) : Prop :=
  Session.status s <> Session.expired
  /\ (Session.qrCode s = None <-> Session.qrExpiry s = None)
  /\ Forall known_sender (Session.conversationHistory s).

(** A request that lacks one of the fields its handler requires. *)
Definition incomplete (r : request) : bool :=
  match r with
  | Identify _ _ identity => negb (truthy identity)
  | MobileMessage _ sessionId userId msg =>
      negb (truthy sessionId) || negb (truthy userId) || negb (truthy msg)
  | MobileGenerateQR _ sessionId _ => negb (truthy sessionId)
  | KioskScanQR _ qrId signature _ => negb (truthy qrId) || negb (truthy signature)
  | KioskRequestAssociate _ sessionId productId _ =>
      negb (truthy sessionId) || negb (truthy productId)
  | PostChatMessage sessionId userId msg =>
      negb (truthy sessionId) || negb (truthy userId) || negb (truthy msg)
      || blank (or_str msg "")
  | GetChatSession sessionId | DeleteChatSession sessionId => Js.falsy sessionId
  | PostQrGenerate sessionId _ => negb (truthy sessionId)
  | PostQrValidate qrId signature => negb (truthy qrId) || negb (truthy signature)
  | DeleteQr qrId => Js.falsy qrId
  | Connect _ _ | Disconnect _ _ | Cleanup => false
  end.

(** The answer to such a request: an error event without a cause, or a
    400 response. *)
Definition refusal (o : output) : Prop :=
  match o with
  | Emit _ (mobile_error _ None) | Emit _ (kiosk_error _ None)
  | Emit _ (kiosk_invalidQR _) => True
  | Respond code (failure _) => code = 400
  | _ => False
  end.

(** The order of a result: a higher score first and, at equal scores,
    the higher stock first. *)
Definition ranks_before (a b : RE.scored) : Prop :=
  RE.score b < RE.score a
  \/ (RE.score a = RE.score b
      /\ RE.stockCount (RE.item b) <= RE.stockCount (RE.item a)).

Fixpoint ranked (l : list RE.scored) : Prop :=
  match l with
  | [] => True
  | a :: r => Forall (ranks_before a) r /\ ranked r
  end.

(** The products of a collection of which more than five are in stock. *)
Definition well_stocked (collection : list RE.product) : list RE.product :=
  List.filter (fun p => RE.inStock p && (5 <? RE.stockCount p)) collection.

(** The values of the fields of a parsed intent, each list in the order
    in which the extractor tries its patterns, the default last. *)
Definition occasions : list string :=
  ["wedding"; "work"; "party"; "date"; "casual"; "other"].
Definition styles : list string :=
  ["formal"; "business"; "trendy"; "classic"; "sporty"; "casual"].
Definition seasons : list string := ["summer"; "winter"; "spring"; "fall"; "all-season"].
Definition urgencies : list string := ["today"; "this-week"; "flexible"].

(** The place of a value in such a list: the smaller, the earlier its
    pattern is tried. *)
Fixpoint position (v : string) (l : list string) : nat :=
  match l with
  | [] => O
  | x :: r => if String.eqb v x then O else S (position v r)
  end.

Definition one_of (domain : list string) (v : option string) : Prop :=
  exists x, v = Some x /\ In x domain.

(** A budget as the parser gives it: a positive amount, or 'flexible'. *)
Definition budget_given (b : option amount) : Prop :=
  b = Some (BStr "flexible") \/ exists n, b = Some (BNum n) /\ 0 < n.

Definition well_formed (i : intent) : Prop :=
  one_of occasions (occasion i) /\ one_of styles (style i)
  /\ one_of seasons (season i) /\ one_of urgencies (urgency i)
  /\ budget_given (budget i) /\ List.NoDup (preferences i).

Definition hashtag (t : string) : Prop := exists name, t = "#" +:+ name.

(** A continuation of the matcher that, where it succeeds on a text,
    succeeds on the text followed by [t]. *)
Definition carries {R} (t : string) (k k' : Regex.cont R) : Prop :=
  forall prev s c c', is_Some (k prev s c) -> is_Some (k' prev (s +:+ t) c').



(** A lowercase hex digit, and a text made of such digits. *)
Definition lower_hex (c : ascii) : bool :=
  Js.is_digit c || ((97 <=? Js.code c) && (Js.code c <=? 102)).

Definition hex_text (s : string) : Prop :=
  Forall (fun c => lower_hex c = true) (list_ascii_of_string s).

(** A reply to a message, carrying the intent [i] and the tags [ts]. *)
Definition replies_with (o : output) (i : intent) (ts : list string) : Prop :=
  match o with
  | Emit _ (mobile_aiResponse _ i' ts' _ _) => i' = i /\ ts' = ts
  | Respond _ (chat_reply _ _ i' ts' _) => i' = i /\ ts' = ts
  | _ => False
  end.

(** A message request for the session [sid]. *)
Definition message_for (r : request) (sid : string) : Prop :=
  match r with
  | MobileMessage _ (Some s) _ _ | PostChatMessage (Some s) _ _ => s = sid
  | _ => False
  end.

(** What passes the schema of [Session.js] unchanged. A printable ASCII
    character other than the space; a text made of such characters only,
    and a text that begins and ends with one: the [trim] setter leaves
    both as they are, and the second is not empty. A text of ASCII
    characters only. A budget that the [Number] path with [min: 0] takes
    as it is: a number from zero up to the largest integer a double holds
    exactly. *)
Definition visible (c : ascii) : bool := (33 <=? Js.code c) && (Js.code c <=? 126).

Fixpoint all_visible (s : string) : bool :=
  match s with
  | EmptyString => true
  | String c r => visible c && all_visible r
  end.

Fixpoint last_char (c : ascii) (r : string) : ascii :=
  match r with
  | EmptyString => c
  | String d r' => last_char d r'
  end.

Definition visible_ends (s : string) : bool :=
  match s with
  | EmptyString => false
  | String c r => visible c && visible (last_char c r)
  end.

Fixpoint ascii_only (s : string) : bool :=
  match s with
  | EmptyString => true
  | String c r => (Js.code c <? 128) && ascii_only r
  end.

Definition stored_budget (b : option amount) : bool :=
  match b with
  | Some (BNum n) => (0 <=? n) && (n <=? 9007199254740991)
  | _ => false
  end.

(** Reading back the first character of the inside of a JSON string
    literal: an escape sequence, or a character that stands for itself;
    the closing quote reads as nothing. *)
Definition unescape_head (s : string) : option (ascii * string) :=
  match s with
  | String c r =>
      if Js.code c =? 92 then
        match r with
        | String e r' =>
            let n := Js.code e in
            if (n =? 34) || (n =? 92) then Some (e, r')
            else if n =? 98 then Some (ascii_of_N 8, r')
            else if n =? 102 then Some (ascii_of_N 12, r')
            else if n =? 110 then Some (ascii_of_N 10, r')
            else if n =? 114 then Some (ascii_of_N 13, r')
            else if n =? 116 then Some (ascii_of_N 9, r')
            else if n =? 117 then
              match r' with
              | String _ (String _ (String h (String l r''))) =>
                  match Hex.unhex h, Hex.unhex l with
                  | Some a, Some b => Some (ascii_of_N (Z.to_N (a * 16 + b)), r'')
                  | _, _ => None
                  end
              | _ => None
              end
            else None
        | EmptyString => None
        end
      else if Js.code c =? 34 then None
      else Some (c, r)
  | EmptyString => None
  end.

End Spec.

(** The data of the worked examples. *)
Module Demo.

Import SocketManager QrService.

(** One token, issued for session S1. *)
Definition demo_env : env := Env (Some "nexus-secret").
Definition demo_id : string := "0b0e7a6c-3d1f-4c55-9a57-2f4c1d9e8b10".
Definition demo_now : Z := 1700000000000.
Definition demo_sig : string := sign "nexus-secret" demo_id "S1" demo_now.
Definition demo_qr : qr :=
  Qr demo_id (toDataURL (Json.stringify (qrData demo_id demo_sig)))
     (demo_now + 300000) demo_sig.
Definition demo_db : Redis.t :=
  Redis.setex demo_now ∅ (QR_KEY_PREFIX +:+ demo_id) QR_TTL (Redis.QrRecord "S1" demo_now).

(** The issued signature with its first digit, 5, replaced by U+0135,
    whose UTF-8 bytes are C4 B5. *)
Definition lookalike : string :=
  String (ascii_of_N 196) (String (ascii_of_N 181)
    "81c476601b96651e29e3d6de54c74a85707970ee9809b208b5c30f2aa57be43").

(** Sixty-four characters, none of them a hex digit. *)
Definition forged : string :=
  "zzzzzzzzzzzzzzzzzzzzzzzzzzzzzzzzzzzzzzzzzzzzzzzzzzzzzzzzzzzzzzzz".

(** A small catalogue for the examples. *)
Definition demo_catalog : list RE.product :=
  [ RE.Product "P001" "Linen Blend Formal Blazer" "Jackets" (8999 # 100)
      ["Wedding"; "Formal"; "SummerWear"] true 10;
    RE.Product "P002" "Classic Dress Shirt" "Shirts" (4999 # 100) ["Casual"] true 2;
    RE.Product "P003" "Beach Tee" "Shirts" (250 # 1) ["SummerWear"] true 7;
    RE.Product "P004" "Rain Boots" "" (100 # 1) [] true 0;
    RE.Product "P005" "Wedding Coat" "Jackets" (210 # 1) ["Wedding"] true 4 ].

Definition demo_intent : intent :=
  Intent (Some "wedding") (Some "casual") (Some "summer") (Some (BNum 200))
         (Some "flexible") [] None.

(** A session that has been handed over, alone in the collection. *)
Definition demo_session : Session.t :=
  Session.Doc "S1" "u1" [] empty_intent [] None None Session.transferred.

Definition demo_state : state :=
  State ∅ {["S1" := demo_session]} [] (Some ∅) (Some ∅).

Definition demo_config : config := Config demo_env true.


End Demo.

(* ===================================================================== *)
(** * Properties *)
(* ===================================================================== *)

(** ** Test vectors *)

Module TestVectors.

Import Demo.

(** FIPS 180-4, the one-block message. *)
Example sha256_abc :
  Hex.encode (Sha256.digest (Js.bytes_of "abc"))
  = "ba7816bf8f01cfea414140de5dae2223b00361a396177a9cb410ff61f20015ad".
Proof. vm_compute. reflexivity. Qed.

(** RFC 4231, test case 2. *)
Example hmac_rfc4231_2 :
  hmac_sha256_hex "Jefe" "what do ya want for nothing?"
  = "5bdcc146bf60754e6a042426089575c75a003f089d2739839dec58b964ec3843".
Proof. vm_compute. reflexivity. Qed.

(** The signature of the token of the worked examples. *)
Example demo_sig_value :
  demo_sig = "581c476601b96651e29e3d6de54c74a85707970ee9809b208b5c30f2aa57be43".
Proof. vm_compute. reflexivity. Qed.

End TestVectors.

(** ** Hex strings and digests *)

Module HexFacts.

Import Spec.

(** A property of the sixteen digit values is checked value by value. *)
Lemma nibble_cases (P : Z -> Prop) :
  (forall k : nat, (k < 16)%nat -> P (Z.of_nat k)) -> forall n, 0 <= n < 16 -> P n.
Proof.
  intros H n Hn. rewrite <- (Z2Nat.id n) by lia. apply H. lia.
Qed.

Ltac nibble :=
  apply nibble_cases; intros k Hk;
  do 16 (destruct k as [| k]; [reflexivity |]); lia.

Lemma unhex_hex_digit n :
  0 <= n < 16 -> Hex.unhex_code (Js.code (Json.hex_digit n) mod 256) = Some n.
Proof. revert n. nibble. Qed.

Lemma unhex_upper_hex_digit n :
  0 <= n < 16 ->
  Hex.unhex_code (Js.code (Js.upper_char (Json.hex_digit n)) mod 256) = Some n.
Proof. revert n. nibble. Qed.

Lemma units_hex_digit n : 0 <= n < 16 -> Js.utf16_units (Json.hex_digit n) = 1%nat.
Proof. revert n. nibble. Qed.

Lemma units_upper_hex_digit n :
  0 <= n < 16 -> Js.utf16_units (Js.upper_char (Json.hex_digit n)) = 1%nat.
Proof. revert n. nibble. Qed.

(** A hex digit is one code unit, its own character code. *)
Lemma units_cons_hex_digit n r :
  0 <= n < 16 ->
  Js.units (String (Json.hex_digit n) r) = Js.code (Json.hex_digit n) :: Js.units r.
Proof. revert n. nibble. Qed.

Lemma units_cons_upper_hex_digit n r :
  0 <= n < 16 ->
  Js.units (String (Js.upper_char (Json.hex_digit n)) r)
  = Js.code (Js.upper_char (Json.hex_digit n)) :: Js.units r.
Proof. revert n. nibble. Qed.

(** [s.length] is the number of code units. *)
Lemma length_units s : List.length (Js.units s) = Js.length s.
Proof.
  induction s as [| c r IH]; [reflexivity |].
  cbn [Js.units Js.length]. unfold Js.utf16_units, Js.is_continuation.
  destruct ((128 <=? Js.code c) && (Js.code c <? 192)) eqn:E1; [exact IH |].
  destruct (Z.ltb_spec (Js.code c) 128), (Z.ltb_spec (Js.code c) 224),
    (Z.ltb_spec (Js.code c) 240), (Z.leb_spec 240 (Js.code c));
    cbn [List.length]; rewrite IH; lia.
Qed.

Lemma hi_nibble b : 0 <= b / 16 mod 16 < 16.
Proof. apply Z.mod_pos_bound. lia. Qed.

Lemma lo_nibble b : 0 <= b mod 16 < 16.
Proof. apply Z.mod_pos_bound. lia. Qed.

Lemma byte_of_nibbles b : 0 <= b < 256 -> b / 16 mod 16 * 16 + b mod 16 = b.
Proof.
  intros Hb. rewrite (Z.mod_small (b / 16)).
  - pose proof (Z.div_mod b 16). lia.
  - split; [apply Z.div_pos; lia | apply Z.div_lt_upper_bound; lia].
Qed.

Lemma encode_cons b r :
  Hex.encode (b :: r) =
  String (Json.hex_digit (b / 16 mod 16))
    (String (Json.hex_digit (b mod 16)) (Hex.encode r)).
Proof. reflexivity. Qed.

Lemma length_encode bs : Js.length (Hex.encode bs) = (2 * List.length bs)%nat.
Proof.
  induction bs as [| b r IH]; [reflexivity |].
  rewrite encode_cons. cbn [Js.length List.length].
  rewrite (units_hex_digit _ (hi_nibble b)), (units_hex_digit _ (lo_nibble b)), IH.
  lia.
Qed.

Lemma decode_encode bs : Forall octet bs -> Hex.decode (Hex.encode bs) = bs.
Proof.
  induction 1 as [| b r Hb _ IH]; [reflexivity |].
  rewrite encode_cons. unfold Hex.decode in *.
  rewrite (units_cons_hex_digit _ _ (hi_nibble b)),
          (units_cons_hex_digit _ _ (lo_nibble b)).
  cbn [Hex.decode_units].
  rewrite (unhex_hex_digit _ (hi_nibble b)), (unhex_hex_digit _ (lo_nibble b)), IH.
  by rewrite (byte_of_nibbles b Hb).
Qed.

Lemma upper_encode bs :
  Js.toUpperCase (Hex.encode bs) =
  fold_right (fun b acc =>
      String (Js.upper_char (Json.hex_digit (b / 16 mod 16)))
        (String (Js.upper_char (Json.hex_digit (b mod 16))) acc)) "" bs.
Proof.
  induction bs as [| b r IH]; [reflexivity |].
  rewrite encode_cons. cbn [Js.toUpperCase fold_right].
  by rewrite IH.
Qed.

Lemma decode_upper_encode bs :
  Forall octet bs -> Hex.decode (Js.toUpperCase (Hex.encode bs)) = bs.
Proof.
  intros H. rewrite upper_encode.
  induction H as [| b r Hb _ IH]; [reflexivity |].
  cbn [fold_right]. unfold Hex.decode in *.
  rewrite (units_cons_upper_hex_digit _ _ (hi_nibble b)),
          (units_cons_upper_hex_digit _ _ (lo_nibble b)).
  cbn [Hex.decode_units].
  rewrite (unhex_upper_hex_digit _ (hi_nibble b)),
          (unhex_upper_hex_digit _ (lo_nibble b)), IH.
  by rewrite (byte_of_nibbles b Hb).
Qed.

Lemma length_upper_encode bs :
  Js.length (Js.toUpperCase (Hex.encode bs)) = (2 * List.length bs)%nat.
Proof.
  rewrite upper_encode.
  induction bs as [| b r IH]; [reflexivity |].
  cbn [fold_right Js.length List.length].
  rewrite (units_upper_hex_digit _ (hi_nibble b)),
          (units_upper_hex_digit _ (lo_nibble b)), IH.
  lia.
Qed.

Lemma lower_hex_digit n : 0 <= n < 16 -> lower_hex (Json.hex_digit n) = true.
Proof. revert n. nibble. Qed.

Lemma encode_hex_text bs : hex_text (Hex.encode bs).
Proof.
  unfold hex_text. induction bs as [| b r IH]; [constructor |].
  rewrite encode_cons. cbn [list_ascii_of_string].
  constructor; [apply lower_hex_digit, hi_nibble |].
  constructor; [apply lower_hex_digit, lo_nibble | exact IH].
Qed.

(** A SHA-256 digest is thirty-two bytes, whatever the message. *)
Lemma digest_bytes msg :
  Forall octet (Sha256.digest msg) /\ List.length (Sha256.digest msg) = 32%nat.
Proof.
  unfold Sha256.digest.
  generalize (Sha256.blocks (List.length (Sha256.words (Sha256.pad msg)))
                            (Sha256.words (Sha256.pad msg)) Sha256.H0).
  intros s. unfold Sha256.state_words, Sha256.be32.
  cbn [map concat app List.length]. split; [| reflexivity].
  repeat (apply Forall_cons; split; [apply Z.mod_pos_bound; lia |]).
  apply Forall_nil_2.
Qed.

Lemma hmac_bytes key msg :
  Forall octet (Sha256.hmac key msg) /\ List.length (Sha256.hmac key msg) = 32%nat.
Proof. unfold Sha256.hmac. apply digest_bytes. Qed.

Lemma bytes_eqb_eq a b : QrService.bytes_eqb a b = true <-> a = b.
Proof.
  revert b. induction a as [| x a IH]; intros [| y b]; cbn; try (split; congruence).
  rewrite andb_true_iff, Z.eqb_eq, IH. split.
  - intros [-> ->]. reflexivity.
  - intros [= -> ->]. auto.
Qed.

End HexFacts.

(** ** The token service *)

Module QrFacts.

Import QrService Spec HexFacts.

Lemma sign_length key qrId sessionId timestamp :
  Js.length (sign key qrId sessionId timestamp) = 64%nat.
Proof.
  unfold sign, hmac_sha256_hex. rewrite length_encode.
  by rewrite (proj2 (hmac_bytes _ _)).
Qed.

Lemma sign_decode_length key qrId sessionId timestamp :
  List.length (Hex.decode (sign key qrId sessionId timestamp)) = 32%nat.
Proof.
  unfold sign, hmac_sha256_hex.
  rewrite decode_encode; apply hmac_bytes.
Qed.

Lemma sign_hex_text key qrId sessionId timestamp :
  hex_text (sign key qrId sessionId timestamp).
Proof. unfold sign, hmac_sha256_hex. apply encode_hex_text. Qed.

Lemma length_pos_truthy s : (0 < Js.length s)%nat -> Js.falsy s = false.
Proof. destruct s; cbn; [lia | reflexivity]. Qed.

Lemma sign_truthy key qrId sessionId timestamp :
  Js.falsy (sign key qrId sessionId timestamp) = false.
Proof. apply length_pos_truthy. rewrite sign_length. lia. Qed.

Lemma accepts_refl s : accepts s s.
Proof. split; reflexivity. Qed.

Lemma accepts_upper key qrId sessionId timestamp :
  accepts (Js.toUpperCase (sign key qrId sessionId timestamp))
          (sign key qrId sessionId timestamp).
Proof.
  unfold sign, hmac_sha256_hex. split.
  - by rewrite length_upper_encode, length_encode.
  - rewrite decode_upper_encode, decode_encode; auto; apply hmac_bytes.
Qed.

(** From here on the MAC is used through the lemmas above only. *)
Global Opaque hmac_sha256_hex.

Lemma compare_match presented expected :
  compare presented expected = Match <-> accepts presented expected.
Proof.
  unfold compare, accepts, timingSafeEqual.
  destruct (Nat.eqb_spec (Js.length presented) (Js.length expected)) as [Hl | Hl]; cbn.
  - destruct (Nat.eqb_spec (List.length (Hex.decode presented))
                           (List.length (Hex.decode expected))) as [Hd | Hd].
    + destruct (QrService.bytes_eqb _ _) eqn:E.
      * apply bytes_eqb_eq in E. tauto.
      * split; [discriminate |]. intros [_ Heq].
        apply bytes_eqb_eq in Heq. congruence.
    + split; [discriminate |]. intros [_ Heq]. rewrite Heq in Hd. done.
  - split; [discriminate | tauto].
Qed.

(** [validateQR] once the guards have passed and the entry is read. *)
Lemma validateQR_entry e now qrId sig db key sessionId timestamp :
  Js.falsy qrId = false -> Js.falsy sig = false -> secret e = Some key ->
  Redis.get now db (QR_KEY_PREFIX +:+ qrId) = Some (Redis.QrRecord sessionId timestamp) ->
  validateQR e now qrId sig db =
  match compare sig (sign key qrId sessionId timestamp) with
  | Match => (Some sessionId, delete (QR_KEY_PREFIX +:+ qrId) db)
  | Mismatch => (None, delete (QR_KEY_PREFIX +:+ qrId) db)
  | Malformed => (None, db)
  end.
Proof.
  intros Hq Hs Hk Hg. unfold validateQR, compare.
  rewrite Hq, Hs, Hk, Hg. cbn [orb value_falsy parse Redis.del snd].
  destruct (negb _); [reflexivity |].
  destruct (timingSafeEqual _ _) as [[|] |]; reflexivity.
Qed.

Lemma validateQR_absent e now qrId sig db :
  Redis.get now db (QR_KEY_PREFIX +:+ qrId) = None ->
  validateQR e now qrId sig db = (None, db).
Proof.
  intros Hg. unfold validateQR. rewrite Hg.
  destruct (_ || _); [reflexivity |]. destruct (secret e); reflexivity.
Qed.

Lemma get_delete now (db : Redis.t) k : Redis.get now (delete k db) k = None.
Proof. unfold Redis.get. by rewrite lookup_delete_eq. Qed.

Lemma get_setex now0 now (db : Redis.t) k seconds v :
  now <= now0 + seconds * 1000 ->
  Redis.get now (Redis.setex now0 db k seconds v) k = Some v.
Proof.
  intros H. unfold Redis.get, Redis.setex, Redis.live. rewrite lookup_insert_eq. cbn.
  destruct (Z.leb_spec now (now0 + seconds * 1000)); [reflexivity | lia].
Qed.

Lemma get_setex_expired now0 now (db : Redis.t) k seconds v :
  now0 + seconds * 1000 < now ->
  Redis.get now (Redis.setex now0 db k seconds v) k = None.
Proof.
  intros H. unfold Redis.get, Redis.setex, Redis.live. rewrite lookup_insert_eq. cbn.
  destruct (Z.leb_spec now (now0 + seconds * 1000)); [lia | reflexivity].
Qed.

(** What a successful [generateQR] returns and stores. *)
Lemma generateQR_returned e id now sessionId db q db' :
  generateQR e id now sessionId db = Returned (q, db') ->
  exists key,
    secret e = Some key /\ Js.falsy sessionId = false
    /\ q = Qr id (toDataURL (Json.stringify (qrData id (sign key id sessionId now))))
              (now + 300000) (sign key id sessionId now)
    /\ db' = Redis.setex now db (QR_KEY_PREFIX +:+ id) QR_TTL
               (Redis.QrRecord sessionId now).
Proof.
  unfold generateQR. destruct (Js.falsy sessionId); [discriminate |].
  destruct (secret e) as [key |]; [| discriminate].
  intros [= <- <-]. eauto.
Qed.

End QrFacts.

Module TokenService.

Import QrService Spec Demo HexFacts QrFacts.

Lemma demo_issued :
  generateQR demo_env demo_id demo_now "S1" ∅ = Returned (demo_qr, demo_db).
Proof. reflexivity. Qed.

Lemma validateQR_socket_id e now qrId sig db id :
  Redis.get now db (QR_KEY_PREFIX +:+ qrId) = Some (Redis.SocketId id) ->
  validateQR e now qrId sig db = (None, db).
Proof.
  intros Hg. unfold validateQR. rewrite Hg.
  destruct (_ || _); [reflexivity |]. destruct (secret e); [| reflexivity].
  cbn. destruct (Js.falsy id); reflexivity.
Qed.

(** A signature of the right length that is not made of hex digits sends
    [timingSafeEqual] into the [catch]: the answer is [null] and the
    entry stays. *)
Lemma malformed_keeps_entry e now qrId sig db key sessionId timestamp :
  Js.falsy qrId = false -> secret e = Some key ->
  Redis.get now db (QR_KEY_PREFIX +:+ qrId) = Some (Redis.QrRecord sessionId timestamp) ->
  Js.length sig = 64%nat -> List.length (Hex.decode sig) <> 32%nat ->
  validateQR e now qrId sig db = (None, db).
Proof.
  intros Hq Hk Hg Hl Hd.
  assert (Hs : Js.falsy sig = false) by (apply length_pos_truthy; lia).
  rewrite (validateQR_entry e now qrId sig db key sessionId timestamp Hq Hs Hk Hg).
  unfold compare, timingSafeEqual. rewrite Hl, sign_length, sign_decode_length. cbn.
  destruct (Nat.eqb_spec (List.length (Hex.decode sig)) 32); [done | reflexivity].
Qed.

(** A signature that differs in length, or in its decoded bytes, burns
    the token. *)
Lemma mismatch_burns e now qrId sig db key sessionId timestamp :
  Js.falsy qrId = false -> Js.falsy sig = false -> secret e = Some key ->
  Redis.get now db (QR_KEY_PREFIX +:+ qrId) = Some (Redis.QrRecord sessionId timestamp) ->
  Js.length sig <> 64%nat
  \/ (List.length (Hex.decode sig) = 32%nat
      /\ Hex.decode sig <> Hex.decode (sign key qrId sessionId timestamp)) ->
  validateQR e now qrId sig db = (None, delete (QR_KEY_PREFIX +:+ qrId) db).
Proof.
  intros Hq Hs Hk Hg Hc.
  rewrite (validateQR_entry e now qrId sig db key sessionId timestamp Hq Hs Hk Hg).
  unfold compare, timingSafeEqual. rewrite sign_length, sign_decode_length.
  destruct Hc as [Hl | [Hl Hd]].
  - destruct (Nat.eqb_spec (Js.length sig) 64); [done | reflexivity].
  - destruct (Nat.eqb_spec (Js.length sig) 64); [| reflexivity]. cbn.
    rewrite Hl. cbn.
    destruct (bytes_eqb _ _) eqn:E; [| reflexivity].
    apply bytes_eqb_eq in E. done.
Qed.

(** C1 (single use). For every issued token, the first [validateQR] with
    the issued signature, made before the token's time to live has run
    out, returns the session id the token was issued for and deletes the
    store entry; every later [validateQR] for the same [qrId], whatever
    the signature and whenever it is made, returns [null]. *)
Theorem C1_single_use e id now sessionId db q db1 later :
  Js.falsy id = false ->
  generateQR e id now sessionId db = Returned (q, db1) ->
  later < now + 300000 ->
  exists db2,
    validateQR e later id (signature q) db1 = (Some sessionId, db2)
    /\ db2 !! (QR_KEY_PREFIX +:+ id) = None
    /\ forall again sig, validateQR e again id sig db2 = (None, db2).
Proof.
  intros Hid Hgen Hlater.
  destruct (generateQR_returned _ _ _ _ _ _ _ Hgen) as (key & Hk & _ & -> & ->).
  exists (delete (QR_KEY_PREFIX +:+ id)
            (Redis.setex now db (QR_KEY_PREFIX +:+ id) QR_TTL
               (Redis.QrRecord sessionId now))).
  split; [| split].
  - cbn [signature].
    rewrite (validateQR_entry e later id _ _ key sessionId now Hid
               (sign_truthy _ _ _ _) Hk).
    + rewrite (proj2 (compare_match _ _) (accepts_refl _)). reflexivity.
    + apply get_setex. unfold QR_TTL. lia.
  - apply lookup_delete_eq.
  - intros again sig. apply validateQR_absent, get_delete.
Qed.

Lemma C1_single_use_witness :
  Js.falsy demo_id = false
  /\ generateQR demo_env demo_id demo_now "S1" ∅ = Returned (demo_qr, demo_db)
  /\ demo_now + 60000 < demo_now + 300000
  /\ exists db2,
       validateQR demo_env (demo_now + 60000) demo_id (signature demo_qr) demo_db
       = (Some "S1", db2)
       /\ db2 !! (QR_KEY_PREFIX +:+ demo_id) = None
       /\ forall again sig, validateQR demo_env again demo_id sig db2 = (None, db2).
Proof.
  split; [reflexivity |]. split; [reflexivity |]. split; [unfold demo_now; lia |].
  apply (C1_single_use demo_env demo_id demo_now "S1" ∅ demo_qr demo_db
                       (demo_now + 60000)).
  - reflexivity.
  - reflexivity.
  - unfold demo_now. lia.
Defined.

(** After a malformed attempt the issued signature still works. *)
Lemma malformed_then_issued e id now sessionId db q db1 t1 t2 sig :
  Js.falsy id = false ->
  generateQR e id now sessionId db = Returned (q, db1) ->
  t1 < now + 300000 -> t2 < now + 300000 ->
  Js.length sig = 64%nat -> List.length (Hex.decode sig) <> 32%nat ->
  sig <> signature q
  /\ validateQR e t1 id sig db1 = (None, db1)
  /\ Redis.get t2 db1 (QR_KEY_PREFIX +:+ id) = Some (Redis.QrRecord sessionId now)
  /\ fst (validateQR e t2 id (signature q) db1) = Some sessionId.
Proof.
  intros Hid Hgen H1 H2 Hl Hd.
  destruct (generateQR_returned _ _ _ _ _ _ _ Hgen) as (key & Hk & _ & -> & ->).
  cbn [signature].
  assert (Hget : forall t, t < now + 300000 ->
            Redis.get t (Redis.setex now db (QR_KEY_PREFIX +:+ id) QR_TTL
                           (Redis.QrRecord sessionId now)) (QR_KEY_PREFIX +:+ id)
            = Some (Redis.QrRecord sessionId now)).
  { intros t Ht. apply get_setex. unfold QR_TTL. lia. }
  split; [| split; [| split]].
  - intros ->. rewrite sign_decode_length in Hd. done.
  - apply (malformed_keeps_entry e t1 id sig _ key sessionId now); auto.
  - auto.
  - rewrite (validateQR_entry e t2 id _ _ key sessionId now Hid
               (sign_truthy _ _ _ _) Hk (Hget t2 H2)).
    by rewrite (proj2 (compare_match _ _) (accepts_refl _)).
Qed.

(** The issued signature in capital hex digits is accepted. *)
Lemma capitals_accepted e now id db key sessionId timestamp :
  Js.falsy id = false -> secret e = Some key ->
  Redis.get now db (QR_KEY_PREFIX +:+ id) = Some (Redis.QrRecord sessionId timestamp) ->
  fst (validateQR e now id (Js.toUpperCase (sign key id sessionId timestamp)) db)
  = Some sessionId.
Proof.
  intros Hid Hk Hg.
  assert (Hs : Js.falsy (Js.toUpperCase (sign key id sessionId timestamp)) = false).
  { apply length_pos_truthy.
    rewrite (proj1 (accepts_upper _ _ _ _)), sign_length. lia. }
  rewrite (validateQR_entry e now id _ db key sessionId timestamp Hid Hs Hk Hg).
  by rewrite (proj2 (compare_match _ _) (accepts_upper _ _ _ _)).
Qed.

Lemma demo_within : forall d, d < 300000 -> demo_now + d < demo_now + 300000.
Proof. intros d H. lia. Qed.

(** C2 (tamper rejection), evaluated where the code departs from it. The
    token of the running example is presented with a sixty-four character
    signature that is not the issued one: [validateQR] returns [null] but
    the store is left as it was, the entry is still there, and a following
    [validateQR] with the issued signature returns the session id. *)
Theorem C2_malformed_signature_not_burned :
  forged <> signature demo_qr
  /\ validateQR demo_env (demo_now + 1000) demo_id forged demo_db = (None, demo_db)
  /\ Redis.get (demo_now + 2000) demo_db (QR_KEY_PREFIX +:+ demo_id)
     = Some (Redis.QrRecord "S1" demo_now)
  /\ fst (validateQR demo_env (demo_now + 2000) demo_id (signature demo_qr) demo_db)
     = Some "S1".
Proof.
  refine (malformed_then_issued demo_env demo_id demo_now "S1" ∅ demo_qr demo_db
            (demo_now + 1000) (demo_now + 2000) forged eq_refl demo_issued
            (demo_within 1000 _) (demo_within 2000 _) eq_refl _).
  - lia.
  - lia.
  - vm_compute. discriminate.
Qed.

(** C3, as stated, fails: the issued signature written in capital hex
    digits is a different string, and [validateQR] accepts it. *)
Lemma C3_counterexample :
  Js.toUpperCase demo_sig <> demo_sig
  /\ Redis.get (demo_now + 1000) demo_db (QR_KEY_PREFIX +:+ demo_id)
     = Some (Redis.QrRecord "S1" demo_now)
  /\ fst (validateQR demo_env (demo_now + 1000) demo_id (Js.toUpperCase demo_sig) demo_db)
     = Some "S1".
Proof.
  assert (Hget : Redis.get (demo_now + 1000) demo_db (QR_KEY_PREFIX +:+ demo_id)
                 = Some (Redis.QrRecord "S1" demo_now)).
  { apply get_setex. unfold QR_TTL. lia. }
  split; [| split; [exact Hget |]].
  - vm_compute. discriminate.
  - exact (capitals_accepted demo_env (demo_now + 1000) demo_id demo_db
             "nexus-secret" "S1" demo_now eq_refl eq_refl Hget).
Qed.

(** A presented signature of the MAC's length that decodes to the MAC's
    bytes is accepted, whatever its characters are. *)
Lemma accepted_signature e now id sig db key sessionId timestamp :
  Js.falsy id = false -> secret e = Some key ->
  Redis.get now db (QR_KEY_PREFIX +:+ id) = Some (Redis.QrRecord sessionId timestamp) ->
  accepts sig (sign key id sessionId timestamp) ->
  fst (validateQR e now id sig db) = Some sessionId.
Proof.
  intros Hid Hk Hg Ha.
  assert (Hs : Js.falsy sig = false).
  { apply length_pos_truthy. rewrite (proj1 Ha), sign_length. lia. }
  rewrite (validateQR_entry e now id sig db key sessionId timestamp Hid Hs Hk Hg).
  by rewrite (proj2 (compare_match _ _) Ha).
Qed.

Lemma lookalike_differs : lookalike <> demo_sig.
Proof. vm_compute. discriminate. Qed.

Lemma lookalike_length : Js.length lookalike = 64%nat.
Proof. vm_compute. reflexivity. Qed.

Lemma lookalike_decode : Hex.decode lookalike = Hex.decode demo_sig.
Proof. vm_compute. reflexivity. Qed.

(** The decoder looks at the low byte of a code unit only: the issued
    signature with its first digit replaced by U+0135 has the MAC's length
    and decodes to the MAC's bytes, and [validateQR] accepts it too. *)
Lemma lookalike_accepted :
  lookalike <> demo_sig
  /\ Js.length lookalike = 64%nat
  /\ Hex.decode lookalike = Hex.decode demo_sig
  /\ fst (validateQR demo_env (demo_now + 1000) demo_id lookalike demo_db) = Some "S1".
Proof.
  refine (conj lookalike_differs (conj lookalike_length (conj lookalike_decode _))).
  refine (accepted_signature demo_env (demo_now + 1000) demo_id lookalike demo_db
            "nexus-secret" "S1" demo_now eq_refl eq_refl _
            (conj (eq_trans lookalike_length (eq_sym (sign_length _ _ _ _)))
                  lookalike_decode)).
  apply get_setex. unfold QR_TTL. lia.
Qed.

(** C3 (amended). With the secret configured, [validateQR(qrId,
    signature)] returns a session id exactly when the store holds a live
    entry for [qrId] with that session id and the presented signature has
    the length of the MAC recomputed over the stored data, counted in
    code units, and decodes to the MAC's bytes the way
    [Buffer.from(s, 'hex')] reads it: pair by pair, the low byte of each
    code unit as a hex digit of either case. In every other case the
    result is [null]: no entry, an entry whose deadline in the store has
    passed, or a signature that does not match; and where there is no
    entry or the deadline has passed, the store is left as it is. *)
Theorem C3_validate_characterised e now qrId sig db key :
  secret e = Some key -> Js.falsy qrId = false ->
  (forall sessionId,
      fst (validateQR e now qrId sig db) = Some sessionId <->
      exists timestamp,
        Redis.get now db (QR_KEY_PREFIX +:+ qrId)
        = Some (Redis.QrRecord sessionId timestamp)
        /\ accepts sig (sign key qrId sessionId timestamp))
  /\ (fst (validateQR e now qrId sig db) = None <->
      ~ exists sessionId timestamp,
          Redis.get now db (QR_KEY_PREFIX +:+ qrId)
          = Some (Redis.QrRecord sessionId timestamp)
          /\ accepts sig (sign key qrId sessionId timestamp))
  /\ (db !! (QR_KEY_PREFIX +:+ qrId) = None ->
      validateQR e now qrId sig db = (None, db))
  /\ (forall v deadline,
        db !! (QR_KEY_PREFIX +:+ qrId) = Some (Redis.Entry v (Some deadline)) ->
        deadline < now ->
        validateQR e now qrId sig db = (None, db)).
Proof.
  intros Hk Hq.
  assert (Hiff : forall sessionId,
      fst (validateQR e now qrId sig db) = Some sessionId <->
      exists timestamp,
        Redis.get now db (QR_KEY_PREFIX +:+ qrId)
        = Some (Redis.QrRecord sessionId timestamp)
        /\ accepts sig (sign key qrId sessionId timestamp)).
  { intros sessionId.
    destruct (Redis.get now db (QR_KEY_PREFIX +:+ qrId)) as [[id | sid ts] |] eqn:Hg.
    - rewrite (validateQR_socket_id _ _ _ _ _ id Hg). cbn.
      split; [discriminate | intros (? & [=] & _)].
    - destruct (Js.falsy sig) eqn:Hs.
      + assert (validateQR e now qrId sig db = (None, db)) as ->.
        { unfold validateQR. rewrite Hs, orb_true_r. reflexivity. }
        cbn. split; [discriminate |].
        intros (t & [= <- <-] & Hl & _). rewrite sign_length in Hl.
        destruct sig; [cbn in Hl; lia | discriminate].
      + rewrite (validateQR_entry e now qrId sig db key sid ts Hq Hs Hk Hg).
        destruct (compare sig (sign key qrId sid ts)) eqn:Hc; cbn.
        * apply compare_match in Hc. split.
          -- intros [= <-]. eauto.
          -- intros (t & [= <- <-] & _). reflexivity.
        * split; [discriminate |]. intros (t & [= <- <-] & Ha).
          apply compare_match in Ha. congruence.
        * split; [discriminate |]. intros (t & [= <- <-] & Ha).
          apply compare_match in Ha. congruence.
    - rewrite (validateQR_absent _ _ _ _ _ Hg). cbn.
      split; [discriminate | intros (? & [=] & _)]. }
  split; [exact Hiff | split; [| split]].
  - split.
    + intros Hn (sid & ts & H). assert (Hs := proj2 (Hiff sid) (ex_intro _ ts H)).
      congruence.
    + intros Hn. destruct (fst (validateQR e now qrId sig db)) as [sid |] eqn:E;
        [| reflexivity].
      destruct (proj1 (Hiff sid) eq_refl) as (ts & H). exfalso. apply Hn. eauto.
  - intros Hnone. apply validateQR_absent. unfold Redis.get. by rewrite Hnone.
  - intros v deadline He Hlate. apply validateQR_absent.
    unfold Redis.get, Redis.live. rewrite He. cbn [Redis.expireAt].
    destruct (Z.leb_spec now deadline); [lia | reflexivity].
Qed.

Lemma C3_validate_characterised_witness :
  secret demo_env = Some "nexus-secret" /\ Js.falsy demo_id = false
  /\ (fst (validateQR demo_env (demo_now + 1000) demo_id demo_sig demo_db) = Some "S1" <->
      exists timestamp,
        Redis.get (demo_now + 1000) demo_db (QR_KEY_PREFIX +:+ demo_id)
        = Some (Redis.QrRecord "S1" timestamp)
        /\ accepts demo_sig (sign "nexus-secret" demo_id "S1" timestamp)).
Proof.
  split; [reflexivity |]. split; [reflexivity |].
  exact (proj1 (C3_validate_characterised demo_env (demo_now + 1000) demo_id demo_sig
                  demo_db "nexus-secret" eq_refl eq_refl) "S1").
Defined.

(** C4 (no session id in the QR code). The text that [generateQR] draws
    into the image is the JSON text of an object with exactly the two
    properties [qrId] and [signature]; the object has no [sessionId],
    [timestamp] or [issuedAt] property, and the text is determined by the
    returned [qrId] and [signature] alone. The value of [qrId] is the
    fresh id, and the value of [signature] is not the session id but the
    MAC computed under the secret over the id, the session id and the
    time: sixty-four lowercase hex digits. So no property of the object
    holds a number, and none holds the session id, unless the session id
    is itself the fresh id or a text of sixty-four hex digits equal to its
    own MAC. *)
Theorem C4_payload_fields e id now sessionId db q db' :
  generateQR e id now sessionId db = Returned (q, db') ->
  let shown := qrData (qrId q) (signature q) in
  encoded (qrImage q) = Json.stringify shown
  /\ Json.keys shown = ["qrId"; "signature"]
  /\ Json.get "qrId" shown = Some (Json.JStr id)
  /\ Json.get "signature" shown = Some (Json.JStr (signature q))
  /\ Json.get "sessionId" shown = None
  /\ Json.get "timestamp" shown = None
  /\ Json.get "issuedAt" shown = None
  /\ (exists key,
        secret e = Some key
        /\ signature q
           = hmac_sha256_hex key (Json.stringify (payload id sessionId now)))
  /\ Js.length (signature q) = 64%nat
  /\ hex_text (signature q)
  /\ (forall k v, Json.get k shown = Some v ->
        v = Json.JStr id \/ v = Json.JStr (signature q))
  /\ (forall k n, Json.get k shown <> Some (Json.JNum n))
  /\ (Js.length sessionId <> 64%nat \/ ~ hex_text sessionId ->
      signature q <> sessionId
      /\ (sessionId <> id ->
          forall k, Json.get k shown <> Some (Json.JStr sessionId))).
Proof.
  intros Hgen.
  destruct (generateQR_returned _ _ _ _ _ _ _ Hgen) as (key & Hkey & _ & -> & _).
  cbn [qrId signature qrImage encoded toDataURL].
  assert (Hvalues : forall k v,
            Json.get k (qrData id (sign key id sessionId now)) = Some v ->
            v = Json.JStr id \/ v = Json.JStr (sign key id sessionId now)).
  { intros k v. unfold qrData. cbn [Json.get].
    destruct (String.eqb k "qrId"); [intros [= <-]; by left |].
    destruct (String.eqb k "signature"); [intros [= <-]; by right | discriminate]. }
  assert (Hsig : Js.length sessionId <> 64%nat \/ ~ hex_text sessionId ->
                 sign key id sessionId now <> sessionId).
  { intros [Hlen | Hhex] Heq.
    - apply Hlen. rewrite <- Heq. apply sign_length.
    - apply Hhex. rewrite <- Heq. apply sign_hex_text. }
  split; [reflexivity |]. split; [reflexivity |]. split; [reflexivity |].
  split; [reflexivity |]. split; [reflexivity |]. split; [reflexivity |].
  split; [reflexivity |].
  split; [exists key; split; [exact Hkey | reflexivity] |].
  split; [apply sign_length |]. split; [apply sign_hex_text |].
  split; [exact Hvalues |]. split.
  - intros k n Hget. by destruct (Hvalues k _ Hget).
  - intros Hother. split; [by apply Hsig |].
    intros Hid k Hget.
    destruct (Hvalues k _ Hget) as [[= Heq] | [= Heq]]; [by apply Hid |].
    by apply (Hsig Hother).
Qed.

Lemma C4_payload_fields_witness :
  generateQR demo_env demo_id demo_now "S1" ∅ = Returned (demo_qr, demo_db)
  /\ encoded (qrImage demo_qr) = Json.stringify (qrData demo_id demo_sig)
  /\ Json.get "sessionId" (qrData demo_id demo_sig) = None
  /\ Js.length "S1" <> 64%nat
  /\ signature demo_qr <> "S1"
  /\ hex_text (signature demo_qr)
  /\ forall k, Json.get k (qrData demo_id demo_sig) <> Some (Json.JStr "S1").
Proof.
  assert (Hlen : Js.length "S1" <> 64%nat) by (vm_compute; discriminate).
  assert (Hid : "S1" <> demo_id) by discriminate.
  split; [reflexivity |].
  pose proof (C4_payload_fields demo_env demo_id demo_now "S1" ∅ demo_qr demo_db
                eq_refl) as H.
  cbv zeta in H.
  destruct H as (H1 & _ & _ & _ & H5 & _ & _ & _ & _ & Hhex & _ & _ & Hno).
  destruct (Hno (or_introl Hlen)) as [Hne Hvals].
  split; [exact H1 |]. split; [exact H5 |]. split; [exact Hlen |].
  split; [exact Hne |]. split; [exact Hhex |]. exact (Hvals Hid).
Defined.

End TokenService.

(** ** The recommender *)

Module Recommender.

Import ContextEngine RecommendationEngine Spec Demo.

Lemma length_insert_sorted x l :
  List.length (insert_sorted x l) = S (List.length l).
Proof.
  induction l as [| y r IH]; [reflexivity |]. cbn.
  destruct (compare_products x y <=? 0); cbn; [reflexivity | by rewrite IH].
Qed.

Lemma length_sort l : List.length (sort l) = List.length l.
Proof.
  induction l as [| x r IH]; [reflexivity |]. cbn.
  by rewrite length_insert_sorted, IH.
Qed.

Section Kept.

Variable P : scored -> Prop.

Lemma Forall_insert_sorted x l : P x -> Forall P l -> Forall P (insert_sorted x l).
Proof.
  intros Hx. induction 1 as [| y r Hy Hr IH]; cbn.
  - by constructor.
  - destruct (compare_products x y <=? 0); repeat constructor; auto.
Qed.

Lemma Forall_sort l : Forall P l -> Forall P (sort l).
Proof.
  induction 1 as [| x r Hx Hr IH]; cbn; [constructor |].
  by apply Forall_insert_sorted.
Qed.

Lemma Forall_slice0 (l : list scored) e : Forall P l -> Forall P (slice0 l e).
Proof.
  intros H. unfold slice0. destruct (e <? 0); by apply Forall_take.
Qed.

End Kept.

Lemma length_slice0 {A} (l : list A) e :
  0 <= e -> Z.of_nat (List.length (slice0 l e)) <= e.
Proof.
  intros He. unfold slice0. destruct (Z.ltb_spec e 0); [lia |].
  rewrite length_take. lia.
Qed.

(** The loop of [applyCategoryDiversity] only ever raises a score. *)
Lemma Forall_diversity_loop m ps selected n limit :
  Forall (fun p => m <= score p) ps ->
  Forall (fun p => m <= score p) (diversity_loop ps selected n limit).
Proof.
  intros H. revert selected n.
  induction H as [| p r Hp Hr IH]; intros selected n; cbn; [constructor |].
  destruct (_ && _); constructor; cbn in *; try lia; apply IH.
Qed.

Lemma Forall_filter_score (l : list scored) :
  Forall (fun p => 20 <= score p) (List.filter (fun p => 20 <=? score p) l).
Proof.
  apply List.Forall_forall. intros p Hp.
  apply List.filter_In in Hp. lia.
Qed.

Lemma sum_scores_ge l a :
  Forall (fun p => 0 <= score p) l ->
  a <= fold_left (fun sum p => sum + score p) l a.
Proof.
  intros H. revert a. induction H as [| p r Hp Hr IH]; intros a; cbn; [lia |].
  etrans; [| apply IH]. lia.
Qed.

Lemma Qmin'_bounds x : (0 <= x)%Q -> (0 <= Qmin' 1 x)%Q /\ (Qmin' 1 x <= 1)%Q.
Proof.
  intros Hx. unfold Qmin'. destruct (Qle_bool 1 x) eqn:E.
  - split; [discriminate | apply Qle_refl].
  - split; [exact Hx |].
    apply Qlt_le_weak, Qnot_le_lt. intros H.
    apply Qle_bool_iff in H. congruence.
Qed.

Lemma average_nonneg (s n : Z) :
  0 <= s -> 0 <= n -> (0 <= inject_Z s / inject_Z n / 100)%Q.
Proof.
  intros Hs Hn. unfold Qdiv.
  apply Qmult_le_0_compat; [apply Qmult_le_0_compat |].
  - unfold Qle. cbn. lia.
  - apply Qinv_le_0_compat. unfold Qle. cbn. lia.
  - discriminate.
Qed.

Lemma selection_scores i limit available :
  Forall (fun p => 20 <= score p) (selection i limit available).
Proof.
  unfold selection, applyCategoryDiversity.
  apply Forall_slice0, Forall_slice0, Forall_sort, Forall_diversity_loop.
  destruct (_ && _); apply Forall_sort, Forall_filter_score.
Qed.

Lemma selection_confidence (top : list scored) :
  Forall (fun p => 20 <= score p) top ->
  let avgScore :=
    match top with
    | [] => 0%Q
    | _ => (inject_Z (fold_left (fun sum p => (sum + score p)%Z) top 0%Z)
            / inject_Z (Z.of_nat (List.length top)))%Q
    end in
  (0 <= Qmin' 1 (avgScore / 100))%Q /\ (Qmin' 1 (avgScore / 100) <= 1)%Q.
Proof.
  intros H avgScore. apply Qmin'_bounds. subst avgScore.
  destruct top as [| p r]; [discriminate |].
  apply average_nonneg; [| lia]. apply (sum_scores_ge (p :: r) 0).
  eapply Forall_impl; [exact H |]. cbn. intros. lia.
Qed.

(** The shape of every answer of [recommend] that is not the empty one. *)
Lemma recommend_returned parsedIntent limit catalog r :
  recommend parsedIntent limit catalog = Returned r ->
  r = nothing
  \/ exists i collection,
       parsedIntent = Some i /\ catalog = Returned collection
       /\ find_available collection <> []
       /\ products r = selection i limit (find_available collection)
       /\ explanations r = map (fun p => generateExplanation p i) (products r)
       /\ (0 <= rec_confidence r)%Q /\ (rec_confidence r <= 1)%Q.
Proof.
  unfold recommend. destruct parsedIntent as [i |]; [| intros [= <-]; by left].
  destruct catalog as [collection | e]; [| discriminate].
  destruct (find_available collection) as [| p0 rest] eqn:Hav;
    [intros [= <-]; by left |].
  intros [= <-]. right. exists i, collection. rewrite Hav.
  split; [reflexivity |]. split; [reflexivity |]. split; [discriminate |].
  split; [reflexivity |]. split; [reflexivity |].
  apply (selection_confidence (selection i limit (p0 :: rest))).
  apply selection_scores.
Qed.

Lemma nothing_bounds : (0 <= rec_confidence nothing)%Q /\ (rec_confidence nothing <= 1)%Q.
Proof. split; discriminate. Qed.

(** C8, as stated, fails for a negative limit: [slice(0, -1)] drops the
    last element instead of returning nothing, so two products come back
    for the limit -1. *)
Lemma C8_counterexample :
  exists r,
    getRecommendations (Some demo_intent) (-1) (Returned demo_catalog) = Returned r
    /\ map (fun p => productId (item p)) (products r) = ["P001"; "P005"]
    /\ ~ Z.of_nat (List.length (products r)) <= -1.
Proof.
  eexists. split; [vm_compute; reflexivity |]. split; [reflexivity |].
  cbn. lia.
Qed.

(** C8 (amended). For every intent, every limit and every state of the
    catalogue, [getRecommendations] returns a result and never throws;
    the result has one explanation per product and a confidence between 0
    and 1; when the limit is not negative it has at most [limit] products;
    and it is the empty result [{products: [], explanations: [],
    confidence: 0}] when the intent is not an object, when no product is
    available, or when the catalogue query fails. *)
Theorem C8_recommend_never_fails parsedIntent limit catalog :
  exists r,
    getRecommendations parsedIntent limit catalog = Returned r
    /\ List.length (explanations r) = List.length (products r)
    /\ (0 <= rec_confidence r)%Q /\ (rec_confidence r <= 1)%Q
    /\ (0 <= limit -> Z.of_nat (List.length (products r)) <= limit)
    /\ (parsedIntent = None
        \/ (exists e, catalog = Thrown e)
        \/ (exists collection, catalog = Returned collection
                               /\ find_available collection = []) ->
        r = nothing).
Proof.
  unfold getRecommendations.
  destruct (recommend parsedIntent limit catalog) as [r | e] eqn:Hr.
  - exists r. split; [reflexivity |].
    destruct (recommend_returned _ _ _ _ Hr)
      as [-> | (i & c & -> & -> & Hne & Hp & He & Hc0 & Hc1)].
    + split; [reflexivity |]. split; [discriminate |]. split; [discriminate |].
      split; [cbn; lia | auto].
    + split; [by rewrite He, length_map |]. split; [exact Hc0 |].
      split; [exact Hc1 |]. split.
      * intros Hl. rewrite Hp. unfold selection. by apply length_slice0.
      * intros [[=] | [(e & [=]) | (c' & [= <-] & Hnil)]]. done.
  - exists nothing. split; [reflexivity |]. split; [reflexivity |].
    split; [discriminate |]. split; [discriminate |]. split; [cbn; lia | auto].
Qed.

Lemma C8_recommend_never_fails_witness :
  0 <= 3
  /\ exists r,
       getRecommendations (Some demo_intent) 3 (Returned demo_catalog) = Returned r
       /\ Z.of_nat (List.length (products r)) <= 3.
Proof.
  split; [lia |].
  destruct (C8_recommend_never_fails (Some demo_intent) 3 (Returned demo_catalog))
    as (r & Hr & _ & _ & _ & Hl & _).
  exists r. split; [exact Hr | apply Hl; lia].
Defined.

End Recommender.

(** ** Tag sets *)

Module Tags.

Import SocketManager.

Lemma includes_In x l : includes x l = true <-> In x l.
Proof.
  induction l as [| y r IH]; cbn; [split; [discriminate | tauto] |].
  rewrite orb_true_iff, IH. unfold str_eqb. rewrite String.eqb_eq.
  split; intros [H | H]; auto.
Qed.

Lemma includes_not_In x l : includes x l = false <-> ~ In x l.
Proof.
  rewrite <- includes_In. destruct (includes x l); split; congruence.
Qed.

(** Adding to a set keeps what is there, in place, and appends. *)
Lemma set_add_all_extends items seen :
  exists extra, set_add_all items seen = seen ++ extra.
Proof.
  revert seen. induction items as [| x r IH]; intros seen; cbn.
  - exists []. by rewrite app_nil_r.
  - destruct (includes x seen); [apply IH |].
    destruct (IH (seen ++ [x])) as [extra ->].
    exists (x :: extra). by rewrite <- app_assoc.
Qed.

Lemma set_add_all_In items seen t :
  In t (set_add_all items seen) <-> In t seen \/ In t items.
Proof.
  revert seen. induction items as [| x r IH]; intros seen; cbn; [tauto |].
  destruct (includes x seen) eqn:E; rewrite IH.
  - apply includes_In in E. split; [tauto |].
    intros [H | [<- | H]]; auto.
  - rewrite in_app_iff. cbn. tauto.
Qed.

Lemma set_add_all_NoDup items seen :
  List.NoDup seen -> List.NoDup (set_add_all items seen).
Proof.
  revert seen. induction items as [| x r IH]; intros seen Hs; cbn; [exact Hs |].
  destruct (includes x seen) eqn:E; [by apply IH |].
  apply IH. apply includes_not_In in E.
  apply List.NoDup_rev in Hs. rewrite <- (rev_involutive (seen ++ [x])).
  apply List.NoDup_rev. rewrite rev_app_distr. cbn. constructor; [| exact Hs].
  by rewrite <- in_rev.
Qed.

(** A duplicate-free list put into a set comes out as it went in. *)
Lemma set_add_all_fresh l rest seen :
  List.NoDup (seen ++ l) ->
  set_add_all (l ++ rest) seen = set_add_all rest (seen ++ l).
Proof.
  revert seen. induction l as [| x r IH]; intros seen Hn; cbn.
  - by rewrite app_nil_r.
  - assert (Hx : includes x seen = false).
    { apply includes_not_In. intros Hin.
      apply List.NoDup_remove_2 in Hn. apply Hn, in_or_app. auto. }
    rewrite Hx, IH.
    + by rewrite <- app_assoc.
    + by rewrite <- app_assoc.
Qed.

Lemma merge_tags_In existingTags newTags t :
  In t (merge_tags existingTags newTags) <-> In t existingTags \/ In t newTags.
Proof.
  unfold merge_tags. rewrite set_add_all_In, in_app_iff. cbn. tauto.
Qed.

Lemma merge_tags_NoDup existingTags newTags :
  List.NoDup (merge_tags existingTags newTags).
Proof. apply set_add_all_NoDup. constructor. Qed.

Lemma merge_tags_appends existingTags newTags :
  List.NoDup existingTags ->
  exists extra, merge_tags existingTags newTags = existingTags ++ extra.
Proof.
  intros Hn. unfold merge_tags.
  rewrite (set_add_all_fresh existingTags newTags []) by exact Hn.
  apply set_add_all_extends.
Qed.

End Tags.

(** ** The handoff coordinator *)

Module Handoff.

Import ContextEngine SocketManager Spec.

Lemma sessions_register cfg st ch identity socket :
  sessions (register cfg st ch identity socket) = sessions st.
Proof. unfold register. by destruct (redis_client cfg). Qed.

Lemma sessions_set_namespace st ch ns : sessions (set_namespace st ch ns) = sessions st.
Proof. by destruct ch. Qed.

Lemma mobile_message_effect cfg now mongo socket sessionId userId msg st :
  wf st ->
  effect (MobileMessage socket sessionId userId msg) (sessions st)
    (sessions (snd (mobile_message cfg now mongo socket sessionId userId msg st))).
Proof.
  intros Hwf. unfold mobile_message.
  destruct sessionId as [sid |], userId as [uid |], msg as [m |];
    try (by apply untouched).
  destruct (_ || _); [by apply untouched |].
  destruct mongo as [[] | e]; [| apply untouched; cbn; apply sessions_register].
  cbn. rewrite sessions_register. unfold Session.findOne, Session.save.
  destruct (sessions st !! sid) as [s |] eqn:Hs; cbn.
  - rewrite (Hwf _ _ Hs). by eapply on_message.
  - by eapply on_first_message.
Qed.

Lemma post_chat_message_effect now mongo sessionId userId msg st :
  wf st ->
  effect (PostChatMessage sessionId userId msg) (sessions st)
    (sessions (snd (post_chat_message now mongo sessionId userId msg st))).
Proof.
  intros Hwf. unfold post_chat_message.
  destruct (_ || _); [by apply untouched |].
  destruct (blank _); [by apply untouched |].
  destruct mongo as [[] | e]; [| by apply untouched].
  cbn. unfold Session.findOne, Session.save.
  destruct (sessions st !! or_str sessionId "") as [s |] eqn:Hs; cbn.
  - rewrite (Hwf _ _ Hs).
    by eapply (on_message _ _ _ (or_str sessionId "") s).
  - by eapply (on_first_message _ _ _ (or_str sessionId "") (or_str userId "")).
Qed.

Lemma mobile_generateQR_effect cfg now mongo uuid socket sessionId st :
  wf st ->
  effect (MobileGenerateQR socket sessionId uuid) (sessions st)
    (sessions (snd (mobile_generateQR cfg now mongo uuid socket sessionId st))).
Proof.
  intros Hwf. unfold mobile_generateQR.
  destruct (negb _); [by apply untouched |].
  destruct (QrService.generateQR _ _ _ _ _) as [[q db] | e]; [| by apply untouched].
  destruct mongo as [[] | e]; [| by apply untouched].
  cbn. unfold Session.findOne, Session.save.
  destruct (sessions st !! or_str sessionId "") as [s |] eqn:Hs; cbn.
  - rewrite (Hwf _ _ Hs). by eapply on_transfer_request.
  - by apply untouched.
Qed.

Lemma post_qr_generate_effect cfg now mongo uuid sessionId st :
  wf st ->
  effect (PostQrGenerate sessionId uuid) (sessions st)
    (sessions (snd (post_qr_generate cfg now mongo uuid sessionId st))).
Proof.
  intros Hwf. unfold post_qr_generate.
  destruct (negb _); [by apply untouched |].
  destruct mongo as [[] | e]; [| by apply untouched].
  unfold Session.findOne, Session.save.
  destruct (sessions st !! or_str sessionId "") as [s |] eqn:Hs;
    [| by apply untouched].
  destruct (QrService.generateQR _ _ _ _ _) as [[q db] | e]; [| by apply untouched].
  cbn. rewrite (Hwf _ _ Hs). by eapply on_transfer_request.
Qed.

Lemma kiosk_scanQR_effect cfg now mongo socket qrId signature kioskId st :
  wf st ->
  effect (KioskScanQR socket qrId signature kioskId) (sessions st)
    (sessions (snd (kiosk_scanQR cfg now mongo socket qrId signature kioskId st))).
Proof.
  intros Hwf. unfold kiosk_scanQR.
  destruct (_ || _); [by apply untouched |].
  remember (if truthy kioskId then _ else st) as st1 eqn:E1.
  assert (H1 : sessions st1 = sessions st).
  { subst st1. destruct (truthy kioskId); [apply sessions_register | reflexivity]. }
  clear E1. destruct st1 as [r1 c1 p1 m1 k1]. cbn in H1. subst c1.
  destruct (QrService.validateQR _ _ _ _ _) as [sessionId db].
  destruct (negb _); [by apply untouched |].
  destruct mongo as [[] | e]; [| by apply untouched].
  cbn. unfold Session.findOne, Session.save.
  destruct (sessions st !! or_str sessionId "") as [s |] eqn:Hs;
    [| by apply untouched].
  cbn. rewrite (Hwf _ _ Hs). by eapply on_scan.
Qed.

Lemma delete_chat_session_effect mongo sessionId st :
  effect (DeleteChatSession sessionId) (sessions st)
    (sessions (snd (delete_chat_session mongo sessionId st))).
Proof.
  unfold delete_chat_session.
  destruct (Js.falsy sessionId); [by apply untouched |].
  destruct mongo as [[] | e]; [| by apply untouched].
  cbn. destruct (sessions st !! sessionId); cbn.
  - by eapply on_delete.
  - by apply untouched.
Qed.

(** Every request has one of the effects above. *)
Lemma handle_effect cfg now mongo r st :
  wf st -> effect r (sessions st) (sessions (snd (handle cfg now mongo r st))).
Proof.
  intros Hwf. destruct r; cbn [handle].
  - apply untouched. cbn. apply sessions_set_namespace.
  - apply untouched. unfold disconnect. cbn.
    destruct (redis_client cfg); cbn; apply sessions_set_namespace.
  - apply untouched. unfold identify.
    destruct (_ && _); [apply sessions_register | reflexivity].
  - by apply mobile_message_effect.
  - by apply mobile_generateQR_effect.
  - by apply kiosk_scanQR_effect.
  - apply untouched. unfold kiosk_requestAssociate. by repeat case_match.
  - apply untouched. unfold cleanupExpiredQRs. by destruct (redis_client cfg).
  - by apply post_chat_message_effect.
  - apply untouched. unfold get_chat_session. by repeat case_match.
  - apply delete_chat_session_effect.
  - by apply post_qr_generate_effect.
  - apply untouched. unfold post_qr_validate. by repeat case_match.
  - apply untouched. unfold delete_qr. by repeat case_match.
Qed.

(** Consequences of an effect for one session. *)
Lemma effect_found r c c' sid s s' :
  effect r c c' -> c !! sid = Some s -> c' !! sid = Some s' ->
  s' = s
  \/ (is_message r /\ exists history i newTags,
        s' = Session.with_message s history i (merge_tags (Session.tags s) newTags))
  \/ (is_transfer_request r /\ exists code expiry, s' = Session.with_qr s code expiry)
  \/ (is_scan r /\ s' = Session.with_status s Session.transferred).
Proof.
  intros He Hs Hs'.
  destruct He as [-> | k s0 h i t Hr Hk -> | k uid h i t Hr Hk -> | k s0 code ex Hr Hk ->
                  | k s0 Hr Hk -> | k -> ->].
  - left. congruence.
  - destruct (decide (k = sid)) as [-> | Hne].
    + rewrite lookup_insert_eq in Hs'. right; left. split; [done |].
      exists h, i, t. congruence.
    + rewrite lookup_insert_ne in Hs' by done. left. congruence.
  - destruct (decide (k = sid)) as [-> | Hne]; [congruence |].
    rewrite lookup_insert_ne in Hs' by done. left. congruence.
  - destruct (decide (k = sid)) as [-> | Hne].
    + rewrite lookup_insert_eq in Hs'. right; right; left. split; [done |].
      exists code, ex. congruence.
    + rewrite lookup_insert_ne in Hs' by done. left. congruence.
  - destruct (decide (k = sid)) as [-> | Hne].
    + rewrite lookup_insert_eq in Hs'. right; right; right. split; [done |].
      congruence.
    + rewrite lookup_insert_ne in Hs' by done. left. congruence.
  - destruct (decide (k = sid)) as [-> | Hne].
    + rewrite lookup_delete_eq in Hs'. discriminate.
    + rewrite lookup_delete_ne in Hs' by done. left. congruence.
Qed.

Lemma effect_new r c c' sid s' :
  effect r c c' -> c !! sid = None -> c' !! sid = Some s' ->
  is_message r /\ exists uid history i newTags,
    s' = Session.with_message (new_session sid uid) history i (merge_tags [] newTags).
Proof.
  intros He Hs Hs'.
  destruct He as [-> | k s0 h i t Hr Hk -> | k uid h i t Hr Hk -> | k s0 code ex Hr Hk ->
                  | k s0 Hr Hk -> | k -> ->].
  - congruence.
  - destruct (decide (k = sid)) as [-> | Hne]; [congruence |].
    rewrite lookup_insert_ne in Hs' by done. congruence.
  - destruct (decide (k = sid)) as [-> | Hne].
    + rewrite lookup_insert_eq in Hs'. split; [done |].
      exists uid, h, i, t. congruence.
    + rewrite lookup_insert_ne in Hs' by done. congruence.
  - destruct (decide (k = sid)) as [-> | Hne]; [congruence |].
    rewrite lookup_insert_ne in Hs' by done. congruence.
  - destruct (decide (k = sid)) as [-> | Hne]; [congruence |].
    rewrite lookup_insert_ne in Hs' by done. congruence.
  - destruct (decide (k = sid)) as [-> | Hne].
    + rewrite lookup_delete_eq in Hs'. discriminate.
    + rewrite lookup_delete_ne in Hs' by done. congruence.
Qed.

(** Only the deletion of a session makes it disappear. *)
Lemma effect_kept r c c' sid s :
  effect r c c' -> r <> DeleteChatSession sid -> c !! sid = Some s ->
  exists s', c' !! sid = Some s'.
Proof.
  intros He Hr Hs.
  destruct He as [-> | k s0 h i t _ Hk -> | k uid h i t _ Hk -> | k s0 code ex _ Hk ->
                  | k s0 _ Hk -> | k -> ->].
  - eauto.
  - destruct (decide (k = sid)) as [-> | Hne];
      [rewrite lookup_insert_eq | rewrite lookup_insert_ne by done]; eauto.
  - destruct (decide (k = sid)) as [-> | Hne];
      [rewrite lookup_insert_eq | rewrite lookup_insert_ne by done]; eauto.
  - destruct (decide (k = sid)) as [-> | Hne];
      [rewrite lookup_insert_eq | rewrite lookup_insert_ne by done]; eauto.
  - destruct (decide (k = sid)) as [-> | Hne];
      [rewrite lookup_insert_eq | rewrite lookup_insert_ne by done]; eauto.
  - destruct (decide (k = sid)) as [-> | Hne]; [done |].
    rewrite lookup_delete_ne by done. eauto.
Qed.

Lemma handle_wf cfg now mongo r st :
  wf st -> wf (snd (handle cfg now mongo r st)).
Proof.
  intros Hwf k s' Hs'.
  pose proof (handle_effect cfg now mongo r st Hwf) as He.
  destruct (sessions st !! k) as [s |] eqn:Hs.
  - destruct (effect_found _ _ _ _ _ _ He Hs Hs')
      as [-> | [(_ & h & i & t & ->) | [(_ & c & x & ->) | (_ & ->)]]];
      cbn; by apply Hwf.
  - by destruct (effect_new _ _ _ _ _ He Hs Hs') as (_ & uid & h & i & t & ->).
Qed.

Lemma run_wf cfg trace st : wf st -> wf (run cfg trace st).
Proof.
  revert st. induction trace as [| a more IH]; intros st Hwf; cbn; [done |].
  by apply IH, handle_wf.
Qed.

Lemma initial_wf products : wf (initial products).
Proof. intros k s. cbn. by rewrite lookup_empty. Qed.

End Handoff.

(** ** Session invariants *)

Module SessionInvariants.

Import ContextEngine SocketManager Spec Demo Handoff Tags.

(** A successful scan marks the session as transferred. *)
Lemma scan_transfers cfg now socket qrId signature kioskId st sid db s :
  wf st -> truthy qrId = true -> truthy signature = true ->
  QrService.validateQR (env cfg) now (or_str qrId "") (or_str signature "")
    (redis (after_kiosk_registration cfg socket kioskId st)) = (Some sid, db) ->
  Js.falsy sid = false ->
  sessions st !! sid = Some s ->
  sessions (snd (kiosk_scanQR cfg now (Returned tt) socket qrId signature kioskId st))
    !! sid = Some (Session.with_status s Session.transferred).
Proof.
  intros Hwf Hq Hs Hv Hsid Hfound. unfold kiosk_scanQR.
  rewrite Hq, Hs. cbn [negb orb].
  fold (after_kiosk_registration cfg socket kioskId st).
  assert (H1 : sessions (after_kiosk_registration cfg socket kioskId st) = sessions st).
  { unfold after_kiosk_registration.
    destruct (truthy kioskId); [apply sessions_register | reflexivity]. }
  destruct (after_kiosk_registration cfg socket kioskId st) as [r1 c1 p1 m1 k1].
  cbn in H1, Hv. subst c1. cbn [redis]. rewrite Hv.
  cbn. rewrite Hsid. cbn. unfold Session.findOne. rewrite Hfound. cbn.
  rewrite (Hwf _ _ Hfound). apply lookup_insert_eq.
Qed.

Lemma transferred_stays cfg trace st sid s :
  wf st -> sessions st !! sid = Some s ->
  Session.status s = Session.transferred ->
  (forall a, In a trace -> request_of a <> DeleteChatSession sid) ->
  exists s', sessions (run cfg trace st) !! sid = Some s'
             /\ Session.status s' = Session.transferred.
Proof.
  revert st s. induction trace as [| a more IH]; intros st s Hwf Hs Ht Hnd; cbn.
  - eauto.
  - pose proof (handle_effect cfg (at_time a) (mongo_of a) (request_of a) st Hwf) as He.
    destruct (effect_kept _ _ _ sid s He (Hnd a (or_introl eq_refl)) Hs) as [s1 Hs1].
    apply (IH _ s1).
    + by apply handle_wf.
    + exact Hs1.
    + destruct (effect_found _ _ _ _ _ _ He Hs Hs1)
        as [-> | [(_ & h & i & t & ->) | [(_ & c & x & ->) | (_ & ->)]]]; done.
    + intros b Hb. apply Hnd. by right.
Qed.

Lemma demo_state_wf : wf demo_state.
Proof.
  intros k s H. cbn in H. apply lookup_singleton_Some in H as [<- <-]. reflexivity.
Defined.

Lemma demo_state_S1 : sessions demo_state !! "S1" = Some demo_session.
Proof. cbn. apply lookup_singleton_eq. Defined.

(** C5 (status monotonicity). In one step, whatever the request, the
    status of a session that exists before and after is unchanged, unless
    the request is a kiosk scan, which sets it to [transferred]; a message
    request (socket or REST) leaves [status], [qrCode], [qrExpiry],
    [userId] and [sessionId] of an existing session as they were; a scan
    whose token validates sets the status to [transferred]; and over any
    sequence of requests that does not delete the session, a session that
    is [transferred] is still there and still [transferred] at the end. *)
Theorem C5_status_never_reverts cfg :
  (forall now mongo r st sid s s',
      wf st -> sessions st !! sid = Some s ->
      sessions (snd (handle cfg now mongo r st)) !! sid = Some s' ->
      (Session.status s' = Session.status s
       \/ (is_scan r /\ Session.status s' = Session.transferred))
      /\ (Session.status s = Session.transferred ->
          Session.status s' = Session.transferred)
      /\ (is_message r ->
          Session.status s' = Session.status s
          /\ Session.qrCode s' = Session.qrCode s
          /\ Session.qrExpiry s' = Session.qrExpiry s
          /\ Session.userId s' = Session.userId s
          /\ Session.sessionId s' = Session.sessionId s))
  /\ (forall now socket qrId signature kioskId st sid db s,
        wf st -> truthy qrId = true -> truthy signature = true ->
        QrService.validateQR (env cfg) now (or_str qrId "") (or_str signature "")
          (redis (after_kiosk_registration cfg socket kioskId st)) = (Some sid, db) ->
        Js.falsy sid = false ->
        sessions st !! sid = Some s ->
        exists s',
          sessions (snd (handle cfg now (Returned tt)
                           (KioskScanQR socket qrId signature kioskId) st)) !! sid
          = Some s'
          /\ Session.status s' = Session.transferred)
  /\ (forall trace st sid s,
        wf st -> sessions st !! sid = Some s ->
        Session.status s = Session.transferred ->
        (forall a, In a trace -> request_of a <> DeleteChatSession sid) ->
        exists s', sessions (run cfg trace st) !! sid = Some s'
                   /\ Session.status s' = Session.transferred).
Proof.
  split; [| split].
  - intros now mongo r st sid s s' Hwf Hs Hs'.
    pose proof (handle_effect cfg now mongo r st Hwf) as He.
    destruct (effect_found _ _ _ _ _ _ He Hs Hs')
      as [-> | [(Hm & h & i & t & ->) | [(Hq & c & x & ->) | (Hk & ->)]]]; cbn.
    + tauto.
    + tauto.
    + split; [tauto |]. split; [tauto |]. by destruct r.
    + split; [tauto |]. split; [tauto |]. by destruct r.
  - intros now socket qrId signature kioskId st sid db s Hwf Hq Hsg Hv Hsid Hs.
    eexists. split.
    + cbn [handle]. by eapply scan_transfers.
    + reflexivity.
  - apply transferred_stays.
Qed.

Lemma C5_status_never_reverts_witness :
  wf demo_state
  /\ sessions demo_state !! "S1" = Some demo_session
  /\ Session.status demo_session = Session.transferred
  /\ (forall a,
        In a [Arrival 1700000000000 (Returned tt)
                (MobileMessage "sock-1" (Some "S1") (Some "u1") (Some "hello"))] ->
        request_of a <> DeleteChatSession "S1")
  /\ exists s',
       sessions (run demo_config
                   [Arrival 1700000000000 (Returned tt)
                      (MobileMessage "sock-1" (Some "S1") (Some "u1") (Some "hello"))]
                   demo_state) !! "S1" = Some s'
       /\ Session.status s' = Session.transferred.
Proof.
  assert (Hnd : forall a,
            In a [Arrival 1700000000000 (Returned tt)
                    (MobileMessage "sock-1" (Some "S1") (Some "u1") (Some "hello"))] ->
            request_of a <> DeleteChatSession "S1").
  { intros a [<- | []]. discriminate. }
  split; [exact demo_state_wf |]. split; [exact demo_state_S1 |].
  split; [reflexivity |]. split; [exact Hnd |].
  exact (proj2 (proj2 (C5_status_never_reverts demo_config)) _ demo_state "S1"
           demo_session demo_state_wf demo_state_S1 eq_refl Hnd).
Defined.

Lemma handle_tags_distinct cfg now mongo r st :
  wf st -> tags_distinct st -> tags_distinct (snd (handle cfg now mongo r st)).
Proof.
  intros Hwf Hd k s' Hs'.
  pose proof (handle_effect cfg now mongo r st Hwf) as He.
  destruct (sessions st !! k) as [s |] eqn:Hs.
  - destruct (effect_found _ _ _ _ _ _ He Hs Hs')
      as [-> | [(_ & h & i & t & ->) | [(_ & c & x & ->) | (_ & ->)]]]; cbn;
      try (by eapply Hd); apply merge_tags_NoDup.
  - destruct (effect_new _ _ _ _ _ He Hs Hs') as (_ & uid & h & i & t & ->).
    apply (merge_tags_NoDup [] t).
Qed.

Lemma run_tags_distinct cfg trace st :
  wf st -> tags_distinct st -> tags_distinct (run cfg trace st).
Proof.
  revert st. induction trace as [| a more IH]; intros st Hwf Hd; cbn; [done |].
  apply IH; [by apply handle_wf | by apply handle_tags_distinct].
Qed.

(** Outputs that carry no reply to a message. *)
Ltac silent := repeat (constructor; [intros [] |]); constructor.

(** The new part of a merge: the new tags that were not there, each once. *)
Lemma merge_tags_extra existingTags newTags :
  List.NoDup existingTags ->
  exists extra,
    merge_tags existingTags newTags = existingTags ++ extra
    /\ List.NoDup extra
    /\ forall t, In t extra <-> In t newTags /\ ~ In t existingTags.
Proof.
  intros Hn. destruct (merge_tags_appends existingTags newTags Hn) as [extra Hm].
  exists extra. split; [exact Hm |].
  pose proof (merge_tags_NoDup existingTags newTags) as Hnd. rewrite Hm in Hnd.
  apply NoDup_ListNoDup, NoDup_app in Hnd as (_ & Hapart & Hextra).
  split; [by apply NoDup_ListNoDup |].
  intros t. split.
  - intros Ht.
    assert (Hin : In t (merge_tags existingTags newTags)).
    { rewrite Hm. apply in_or_app. by right. }
    apply merge_tags_In in Hin. split.
    + destruct Hin as [Hin | Hin]; [| exact Hin].
      exfalso. apply (Hapart t); by apply list_elem_of_In.
    + intros Hold. apply (Hapart t); by apply list_elem_of_In.
  - intros [Hnew Hold].
    assert (Hin : In t (merge_tags existingTags newTags)).
    { apply merge_tags_In. by right. }
    rewrite Hm in Hin. apply in_app_or in Hin as [Hin | Hin]; [done | exact Hin].
Qed.

(** The tags a reply carries are the session's tags merged with the tags
    of the intent it carries. *)
Lemma reply_tags cfg now mongo r st o i ts :
  In o (fst (handle cfg now mongo r st)) -> replies_with o i ts ->
  exists sid,
    message_for r sid
    /\ ts = merge_tags (match sessions st !! sid with
                        | Some s => Session.tags s
                        | None => []
                        end) (generateTags i).
Proof.
  intros Hin Hrel.
  assert (Hnone : forall outs : list output,
            Forall (fun o' => ~ replies_with o' i ts) outs -> In o outs -> False).
  { intros outs Hall Ho. rewrite List.Forall_forall in Hall. by apply (Hall o Ho). }
  destruct r; cbn [handle fst] in Hin.
  - exfalso. revert Hin. apply Hnone. unfold connect. cbn [fst]. silent.
  - destruct Hin.
  - exfalso. revert Hin. apply Hnone. unfold identify.
    destruct (_ && _), ch; cbn [fst]; silent.
  - unfold mobile_message in Hin.
    destruct sessionId as [sid |], userId as [uid |], msg as [m |];
      try (exfalso; revert Hin; apply Hnone; cbn [fst]; silent).
    destruct (_ || _); [exfalso; revert Hin; apply Hnone; cbn [fst]; silent |].
    destruct mongo as [u | e]; [| exfalso; revert Hin; apply Hnone; cbn [fst]; silent].
    rewrite sessions_register in Hin. unfold Session.findOne, absorb in Hin.
    cbn [fst] in Hin. destruct Hin as [<- | []].
    cbn [replies_with] in Hrel. destruct Hrel as [<- <-].
    exists sid. split; [reflexivity |].
    cbn [Session.tags Session.with_message parsed_tags parsed_intent parseUserMessage].
    by destruct (sessions st !! sid).
  - exfalso. revert Hin. apply Hnone. unfold mobile_generateQR.
    repeat case_match; cbn [fst]; silent.
  - exfalso. revert Hin. apply Hnone. unfold kiosk_scanQR.
    repeat case_match; cbn [fst]; silent.
  - exfalso. revert Hin. apply Hnone. unfold kiosk_requestAssociate.
    repeat case_match; cbn [fst]; silent.
  - destruct Hin.
  - unfold post_chat_message in Hin.
    destruct (_ || _) eqn:Hguard;
      [exfalso; revert Hin; apply Hnone; cbn [fst]; silent |].
    destruct (blank _); [exfalso; revert Hin; apply Hnone; cbn [fst]; silent |].
    destruct mongo as [u | e]; [| exfalso; revert Hin; apply Hnone; cbn [fst]; silent].
    destruct sessionId as [sid |]; [| discriminate].
    unfold truthy, truthy_str in Hguard.
    destruct (Js.falsy sid) eqn:Hsid; [cbn in Hguard; discriminate |].
    unfold or_str at 1 2 3 4 in Hin. rewrite Hsid in Hin.
    unfold Session.findOne, absorb in Hin. cbn [fst] in Hin. destruct Hin as [<- | []].
    cbn [replies_with] in Hrel. destruct Hrel as [<- <-].
    exists sid. split; [reflexivity |].
    cbn [Session.tags Session.with_message parsed_tags parsed_intent parseUserMessage].
    by destruct (sessions st !! sid).
  - exfalso. revert Hin. apply Hnone. unfold get_chat_session.
    repeat case_match; cbn [fst]; silent.
  - exfalso. revert Hin. apply Hnone. unfold delete_chat_session.
    repeat case_match; cbn [fst]; silent.
  - exfalso. revert Hin. apply Hnone. unfold post_qr_generate.
    repeat case_match; cbn [fst]; silent.
  - exfalso. revert Hin. apply Hnone. unfold post_qr_validate.
    repeat case_match; cbn [fst]; silent.
  - exfalso. revert Hin. apply Hnone. unfold delete_qr.
    repeat case_match; cbn [fst]; silent.
Qed.

(** C10 (tags grow, stay distinct, keep their order). The merge
    [Array.from(new Set([...existingTags, ...newTags]))] holds exactly the
    existing and the new tags, each once: it keeps every existing tag, has
    no duplicates, and leaves a duplicate-free existing list in place as a
    prefix, after which come the new tags that were not there, and nothing
    else. Hence in one step, whatever the request, a session's tags after
    the step contain its tags before, and if those were duplicate-free the
    new list is duplicate-free and extends the old one at the end; the tags
    a reply to a message carries are the session's tags merged with the
    tags of the intent it carries, so every tag of that intent is among
    them; and in every state reached from the initial one, every session's
    tags are duplicate-free. *)
Theorem C10_tags_monotone cfg :
  (forall existingTags newTags,
      (forall t, In t existingTags -> In t (merge_tags existingTags newTags))
      /\ List.NoDup (merge_tags existingTags newTags)
      /\ (List.NoDup existingTags ->
          exists extra, merge_tags existingTags newTags = existingTags ++ extra))
  /\ (forall now session msg,
        Session.tags (fst (absorb now session msg))
        = merge_tags (Session.tags session)
            (parsed_tags (parseUserMessage msg
               (Session.conversationHistory session ++ [Message msg "user" now]))))
  /\ (forall now mongo r st sid s s',
        wf st -> sessions st !! sid = Some s ->
        sessions (snd (handle cfg now mongo r st)) !! sid = Some s' ->
        (forall t, In t (Session.tags s) -> In t (Session.tags s'))
        /\ (List.NoDup (Session.tags s) ->
            List.NoDup (Session.tags s')
            /\ exists extra, Session.tags s' = Session.tags s ++ extra))
  /\ (forall products trace,
        tags_distinct (run cfg trace (initial products)))
  /\ (forall existingTags newTags t,
        In t (merge_tags existingTags newTags) <-> In t existingTags \/ In t newTags)
  /\ (forall existingTags newTags,
        List.NoDup existingTags ->
        exists extra,
          merge_tags existingTags newTags = existingTags ++ extra
          /\ List.NoDup extra
          /\ forall t, In t extra <-> In t newTags /\ ~ In t existingTags)
  /\ (forall now mongo r st o i ts,
        In o (fst (handle cfg now mongo r st)) -> replies_with o i ts ->
        exists sid,
          message_for r sid
          /\ ts = merge_tags (match sessions st !! sid with
                              | Some s => Session.tags s
                              | None => []
                              end) (generateTags i)
          /\ (forall t, In t (generateTags i) -> In t ts)
          /\ (forall s t, sessions st !! sid = Some s ->
                 In t (Session.tags s) -> In t ts)
          /\ List.NoDup ts).
Proof.
  split; [| split; [| split; [| split; [| split; [| split]]]]].
  - intros existingTags newTags. split; [| split].
    + intros t Ht. apply merge_tags_In. by left.
    + apply merge_tags_NoDup.
    + apply merge_tags_appends.
  - reflexivity.
  - intros now mongo r st sid s s' Hwf Hs Hs'.
    pose proof (handle_effect cfg now mongo r st Hwf) as He.
    destruct (effect_found _ _ _ _ _ _ He Hs Hs')
      as [-> | [(_ & h & i & t & ->) | [(_ & c & x & ->) | (_ & ->)]]]; cbn.
    + split; [done |]. intros Hn. split; [done |]. exists []. by rewrite app_nil_r.
    + split; [intros u Hu; apply merge_tags_In; by left |].
      intros Hn. split; [apply merge_tags_NoDup | by apply merge_tags_appends].
    + split; [done |]. intros Hn. split; [done |]. exists []. by rewrite app_nil_r.
    + split; [done |]. intros Hn. split; [done |]. exists []. by rewrite app_nil_r.
  - intros products trace. apply run_tags_distinct.
    + apply initial_wf.
    + intros k s. cbn. by rewrite lookup_empty.
  - intros existingTags newTags t. apply merge_tags_In.
  - apply merge_tags_extra.
  - intros now mongo r st o i ts Hin Hrel.
    destruct (reply_tags _ _ _ _ _ _ _ _ Hin Hrel) as (sid & Hfor & ->).
    exists sid. split; [exact Hfor |]. split; [reflexivity |].
    split; [| split].
    + intros t Ht. apply merge_tags_In. by right.
    + intros s t Hs Ht. apply merge_tags_In. left. by rewrite Hs.
    + apply merge_tags_NoDup.
Qed.

Lemma C10_tags_monotone_witness :
  List.NoDup ["#Casual"; "#Wedding"]
  /\ merge_tags ["#Casual"; "#Wedding"] ["#Wedding"; "#Wedding"; "#Casual"; "#SummerWear"]
     = ["#Casual"; "#Wedding"; "#SummerWear"]
  /\ exists extra,
       merge_tags ["#Casual"; "#Wedding"] ["#Wedding"; "#Wedding"; "#Casual"; "#SummerWear"]
       = ["#Casual"; "#Wedding"] ++ extra
       /\ List.NoDup extra
       /\ (In "#SummerWear" extra
           <-> In "#SummerWear" ["#Wedding"; "#Wedding"; "#Casual"; "#SummerWear"]
               /\ ~ In "#SummerWear" ["#Casual"; "#Wedding"]).
Proof.
  assert (Hn : List.NoDup ["#Casual"; "#Wedding"]).
  { constructor; [| constructor; [| constructor]]; cbn.
    - intros [H | []]. discriminate.
    - tauto. }
  split; [exact Hn |]. split; [reflexivity |].
  destruct (proj1 (proj2 (proj2 (proj2 (proj2 (proj2 (C10_tags_monotone demo_config))))))
              ["#Casual"; "#Wedding"] ["#Wedding"; "#Wedding"; "#Casual"; "#SummerWear"] Hn)
    as (extra & Hm & Hnd & Hin).
  exists extra. split; [exact Hm |]. split; [exact Hnd | exact (Hin "#SummerWear")].
Defined.

End SessionInvariants.

(** ** Transfer requests, the registry, and the message scenario *)

Module Coordinator.

Import ContextEngine SocketManager Spec Demo Handoff Tags.

(** C6 (requestTransfer). When the session exists (and the signing secret
    is configured), both the socket handler [mobile:generateQR] and the
    route [POST /api/qr/generate] issue a token through [generateQR],
    which stores it under [qr:<qrId>]; they write [qrCode] and [qrExpiry]
    onto the session and leave its status and every other field, every
    other session, the catalogue and the namespaces as they were; and they
    answer with the token material [qrId], [qrImage], [expiresAt],
    [signature]. *)
Theorem C6_request_transfer cfg now uuid socket sid st s key :
  wf st -> QrService.secret (env cfg) = Some key -> Js.falsy sid = false ->
  sessions st !! sid = Some s ->
  let sig := QrService.sign key uuid sid now in
  let token :=
    QrService.Qr uuid
      (QrService.toDataURL (Json.stringify (QrService.qrData uuid sig)))
      (now + 300000) sig in
  let st' :=
    State (Redis.setex now (redis st) (QrService.QR_KEY_PREFIX +:+ uuid) 300
             (Redis.QrRecord sid now))
          (<[sid := Session.Doc (Session.sessionId s) (Session.userId s)
                      (Session.conversationHistory s) (Session.parsedIntent s)
                      (Session.tags s) (Some uuid) (Some (now + 300000))
                      (Session.status s)]> (sessions st))
          (catalog st) (mobileNamespace st) (kioskNamespace st) in
  QrService.generateQR (env cfg) uuid now sid (redis st) = Returned (token, redis st')
  /\ mobile_generateQR cfg now (Returned tt) uuid socket (Some sid) st
     = ([Emit socket (mobile_qrGenerated token)], st')
  /\ post_qr_generate cfg now (Returned tt) uuid (Some sid) st
     = ([Respond 200 (qr_issued token)], st').
Proof.
  intros Hwf Hk Hsid Hs sig token st'.
  assert (Hgen : QrService.generateQR (env cfg) uuid now sid (redis st)
                 = Returned (token, redis st')).
  { unfold QrService.generateQR. by rewrite Hsid, Hk. }
  split; [exact Hgen |]. split.
  - unfold mobile_generateQR, truthy, truthy_str. rewrite Hsid. cbn [negb or_str].
    rewrite Hsid, Hgen. cbn. unfold Session.findOne. rewrite Hs.
    unfold Session.save, Session.with_qr. cbn [Session.sessionId QrService.qrId QrService.expiresAt].
    subst st'. rewrite (Hwf _ _ Hs). reflexivity.
  - unfold post_qr_generate, truthy, truthy_str. rewrite Hsid. cbn [negb or_str].
    rewrite Hsid. unfold Session.findOne. rewrite Hs, Hgen.
    unfold Session.save, Session.with_qr. cbn [Session.sessionId QrService.qrId QrService.expiresAt].
    subst st'. rewrite (Hwf _ _ Hs). reflexivity.
Qed.

Lemma C6_request_transfer_witness :
  wf demo_state
  /\ QrService.secret (env demo_config) = Some "nexus-secret"
  /\ Js.falsy "S1" = false
  /\ sessions demo_state !! "S1" = Some demo_session
  /\ post_qr_generate demo_config demo_now (Returned tt)
       demo_id (Some "S1") demo_state
     = ([Respond 200 (qr_issued demo_qr)],
        State demo_db
          (<["S1" := Session.Doc "S1" "u1" [] empty_intent [] (Some demo_id)
                       (Some (demo_now + 300000)) Session.transferred]>
             (sessions demo_state))
          [] (Some ∅) (Some ∅)).
Proof.
  split; [exact SessionInvariants.demo_state_wf |]. split; [reflexivity |].
  split; [reflexivity |]. split; [exact SessionInvariants.demo_state_S1 |].
  exact (proj2 (proj2 (C6_request_transfer demo_config
                         demo_now demo_id "sock-1" "S1"
                         demo_state demo_session
                         "nexus-secret" SessionInvariants.demo_state_wf eq_refl eq_refl
                         SessionInvariants.demo_state_S1))).
Defined.

Lemma get_set later (db : Redis.t) k v : Redis.get later (Redis.set db k v) k = Some v.
Proof. unfold Redis.get, Redis.set. by rewrite lookup_insert_eq. Qed.

(** C7 (registry overwrite). With a registry client, after
    [mobile:identify] for an identity from socket A and then from socket B,
    the registry key of the identity holds B's id alone, at any later
    time; [getSocketByUserId] for the identity returns B (when B is a
    connected socket of the mobile namespace, and nothing otherwise) and
    never A. *)
Theorem C7_registry_overwrite cfg now st identity handleA handleB :
  redis_client cfg = true -> Js.falsy identity = false -> Js.falsy handleB = false ->
  let st1 := snd (handle cfg now (Returned tt)
                    (Identify mobile handleA (Some identity)) st) in
  let st2 := snd (handle cfg now (Returned tt)
                    (Identify mobile handleB (Some identity)) st1) in
  redis st2 !! (MOBILE_PREFIX +:+ identity)
  = Some (Redis.Entry (Redis.SocketId handleB) None)
  /\ (forall later,
        Redis.get later (redis st2) (MOBILE_PREFIX +:+ identity)
        = Some (Redis.SocketId handleB))
  /\ (forall later sockets others,
        mobileNamespace st2 = Some sockets -> kioskNamespace st2 = Some others ->
        getSocketByUserId cfg later st2 (Some identity) mobile
        = if decide (handleB ∈ sockets) then Some handleB else None)
  /\ (forall later,
        handleA <> handleB ->
        getSocketByUserId cfg later st2 (Some identity) mobile <> Some handleA).
Proof.
  intros Hc Hid Hb st1 st2.
  assert (H2 : redis st2 = Redis.set (redis st1) (MOBILE_PREFIX +:+ identity)
                             (Redis.SocketId handleB)).
  { subst st2. cbn [handle]. unfold identify, truthy, truthy_str, register.
    rewrite Hid, Hc. cbn [negb andb snd redis set_redis or_str prefix_of].
    by rewrite Hid. }
  assert (Hget : forall later,
            Redis.get later (redis st2) (MOBILE_PREFIX +:+ identity)
            = Some (Redis.SocketId handleB)).
  { intros later. rewrite H2. apply get_set. }
  assert (Hlookup : forall later,
            getSocketByUserId cfg later st2 (Some identity) mobile
            = match mobileNamespace st2, kioskNamespace st2 with
              | Some sockets, Some _ =>
                  if decide (handleB ∈ sockets) then Some handleB else None
              | _, _ => None
              end).
  { intros later. unfold getSocketByUserId. rewrite Hc.
    destruct (mobileNamespace st2) as [sockets |] eqn:Hm; [| reflexivity].
    destruct (kioskNamespace st2) as [others |]; [| reflexivity].
    rewrite Hid. cbn [namespace_of prefix_of]. rewrite Hm, Hget.
    cbn [socket_id_of]. by rewrite Hb. }
  split; [| split; [exact Hget | split]].
  - rewrite H2. unfold Redis.set. apply lookup_insert_eq.
  - intros later sockets others Hm Hk. by rewrite Hlookup, Hm, Hk.
  - intros later Hne. rewrite Hlookup.
    destruct (mobileNamespace st2); [| done]. destruct (kioskNamespace st2); [| done].
    destruct (decide _); [| done]. congruence.
Qed.

Lemma C7_registry_overwrite_witness :
  redis_client demo_config = true
  /\ Js.falsy "u1" = false /\ Js.falsy "handleB" = false
  /\ forall later,
       Redis.get later
         (redis (snd (handle demo_config 0 (Returned tt)
                        (Identify mobile "handleB" (Some "u1"))
                        (snd (handle demo_config 0 (Returned tt)
                                (Identify mobile "handleA" (Some "u1"))
                                (initial [])))))) (MOBILE_PREFIX +:+ "u1")
       = Some (Redis.SocketId "handleB").
Proof.
  split; [reflexivity |]. split; [reflexivity |]. split; [reflexivity |].
  exact (proj1 (proj2 (C7_registry_overwrite demo_config 0
                         (initial []) "u1" "handleA" "handleB"
                         eq_refl eq_refl eq_refl))).
Defined.




End Coordinator.

(** ** More on the token service *)

Module TokenFacts.

Import QrService Spec Demo HexFacts QrFacts.

Lemma str_app_cons x (a b : string) : String x a +:+ b = String x (a +:+ b).
Proof. reflexivity. Qed.

Lemma str_app_nil (b : string) : "" +:+ b = b.
Proof. reflexivity. Qed.

Lemma str_app_assoc (a b c : string) : (a +:+ b) +:+ c = a +:+ (b +:+ c).
Proof.
  induction a as [| x a IH]; [reflexivity |].
  by rewrite !str_app_cons, IH.
Qed.

Lemma str_app_inv_head (p x y : string) : p +:+ x = p +:+ y -> x = y.
Proof.
  induction p as [| c p IH]; [done |].
  rewrite !str_app_cons. intros [= H]. auto.
Qed.

Lemma qr_key_inj a b : QR_KEY_PREFIX +:+ a = QR_KEY_PREFIX +:+ b -> a = b.
Proof. apply str_app_inv_head. Qed.

Lemma list_of_append (a b : string) :
  list_ascii_of_string (a +:+ b) = list_ascii_of_string a ++ list_ascii_of_string b.
Proof.
  induction a as [| x a IH]; [reflexivity |].
  rewrite str_app_cons. cbn [list_ascii_of_string]. by rewrite IH.
Qed.

Lemma str_app_inv_tail (x y s : string) : x +:+ s = y +:+ s -> x = y.
Proof.
  intros H. apply (f_equal list_ascii_of_string) in H.
  rewrite !list_of_append in H. apply app_inv_tail in H.
  rewrite <- (string_of_list_ascii_of_string x), H.
  apply string_of_list_ascii_of_string.
Qed.

(** One escaped character reads back as the character. *)
Lemma unescape_escape_char c x :
  unescape_head (Json.escape_char c +:+ x) = Some (c, x).
Proof.
  destruct c as [b0 b1 b2 b3 b4 b5 b6 b7].
  destruct b0, b1, b2, b3, b4, b5, b6, b7; reflexivity.
Qed.

(** An escaped string is cut off unambiguously by the closing quote. *)
Lemma escape_terminated_inj a b r r' :
  Json.escape a +:+ Json.dquote +:+ r = Json.escape b +:+ Json.dquote +:+ r' ->
  a = b /\ r = r'.
Proof.
  revert b. induction a as [| c a IH]; intros [| c' b] H.
  - change (String (ascii_of_N 34) r = String (ascii_of_N 34) r') in H.
    injection H as ->. done.
  - exfalso. apply (f_equal unescape_head) in H. cbn [Json.escape] in H.
    rewrite str_app_assoc, unescape_escape_char in H. discriminate.
  - exfalso. apply (f_equal unescape_head) in H. cbn [Json.escape] in H.
    rewrite str_app_assoc, unescape_escape_char in H. discriminate.
  - apply (f_equal unescape_head) in H. cbn [Json.escape] in H.
    rewrite !str_app_assoc, !unescape_escape_char in H.
    injection H as -> H. destruct (IH _ H) as [-> ->]. done.
Qed.

Lemma of_Z_read z :
  option_map Z.of_int (NilZero.int_of_string (Js.of_Z z)) = Some z.
Proof.
  unfold Js.of_Z. rewrite <- (DecimalZ.of_to z) at 2.
  assert (Hgen : forall d, d <> Decimal.Pos Decimal.Nil -> d <> Decimal.Neg Decimal.Nil ->
            option_map Z.of_int (NilZero.int_of_string (NilZero.string_of_int d))
            = Some (Z.of_int d)).
  { intros d H1 H2. by rewrite NilZero.isi. }
  destruct (Z.to_int z) as [[] | []]; try (apply Hgen; discriminate); reflexivity.
Qed.

Lemma of_Z_inj a b : Js.of_Z a = Js.of_Z b -> a = b.
Proof.
  intros H. pose proof (of_Z_read a) as Ha. rewrite H, of_Z_read in Ha. congruence.
Qed.

(** The text that is signed, laid out. *)
Lemma payload_text qrId sessionId timestamp :
  Json.stringify (payload qrId sessionId timestamp)
  = ("{" +:+ Json.dquote +:+ "qrId" +:+ Json.dquote +:+ ":" +:+ Json.dquote)
    +:+ Json.escape qrId +:+ Json.dquote
    +:+ ("," +:+ Json.dquote +:+ "sessionId" +:+ Json.dquote +:+ ":" +:+ Json.dquote)
    +:+ Json.escape sessionId +:+ Json.dquote
    +:+ ("," +:+ Json.dquote +:+ "timestamp" +:+ Json.dquote +:+ ":")
    +:+ Js.of_Z timestamp +:+ "}".
Proof.
  unfold Json.stringify, payload, Json.stringify_member, Json.stringify_atom, Json.quote.
  cbn [map fst snd Js.join]. rewrite !str_app_assoc. reflexivity.
Qed.

(** X1 (the signed text is unambiguous). The text over which the MAC is
    computed determines the token's data: two signing payloads are equal
    only if [qrId], [sessionId] and [timestamp] are all equal. *)
Theorem X1_signed_text_injective qrId sessionId timestamp qrId' sessionId' timestamp' :
  Json.stringify (payload qrId sessionId timestamp)
  = Json.stringify (payload qrId' sessionId' timestamp') ->
  qrId = qrId' /\ sessionId = sessionId' /\ timestamp = timestamp'.
Proof.
  rewrite !payload_text. intros H.
  apply str_app_inv_head in H. apply escape_terminated_inj in H as [-> H].
  apply str_app_inv_head in H. apply escape_terminated_inj in H as [-> H].
  apply str_app_inv_head in H. apply str_app_inv_tail in H. apply of_Z_inj in H.
  done.
Qed.

Lemma X1_signed_text_injective_witness :
  Json.stringify (payload "a,b" "c" 12) = Json.stringify (payload "a,b" "c" 12)
  /\ "a,b" = "a,b" /\ "c" = "c" /\ 12 = 12.
Proof.
  split; [reflexivity |].
  exact (X1_signed_text_injective "a,b" "c" 12 "a,b" "c" 12 eq_refl).
Defined.

(** [validateQR] leaves the store as it is or deletes the token's key. *)
Lemma validateQR_store e now qrId sig db :
  snd (validateQR e now qrId sig db) = db
  \/ snd (validateQR e now qrId sig db) = delete (QR_KEY_PREFIX +:+ qrId) db.
Proof.
  unfold validateQR. cbn [Redis.del snd].
  repeat case_match; cbn; auto.
Qed.

(** A session id comes back only together with the deletion. *)
Lemma validateQR_success_deletes e now qrId sig db sessionId db' :
  validateQR e now qrId sig db = (Some sessionId, db') ->
  db' = delete (QR_KEY_PREFIX +:+ qrId) db.
Proof.
  unfold validateQR. cbn [Redis.del snd].
  repeat case_match; intros [= <- <-]; try done; simplify_eq.
Qed.

Lemma get_ext now (db1 db2 : Redis.t) k :
  db1 !! k = db2 !! k -> Redis.get now db1 k = Redis.get now db2 k.
Proof. unfold Redis.get. by intros ->. Qed.

(** The answer of [validateQR] depends on the store through the token's
    key only. *)
Lemma validateQR_answer_ext e now qrId sig (db1 db2 : Redis.t) :
  db1 !! (QR_KEY_PREFIX +:+ qrId) = db2 !! (QR_KEY_PREFIX +:+ qrId) ->
  fst (validateQR e now qrId sig db1) = fst (validateQR e now qrId sig db2).
Proof.
  intros H. unfold validateQR. rewrite (get_ext now db1 db2 _ H).
  repeat case_match; reflexivity.
Qed.

Lemma expireQR_answer_ext now qrId (db1 db2 : Redis.t) :
  db1 !! (QR_KEY_PREFIX +:+ qrId) = db2 !! (QR_KEY_PREFIX +:+ qrId) ->
  fst (expireQR now qrId db1) = fst (expireQR now qrId db2).
Proof.
  intros H. unfold expireQR, Redis.del. rewrite (get_ext now db1 db2 _ H).
  repeat case_match; reflexivity.
Qed.

(** X2 (manual expiry). [expireQR] on a non-empty id answers [true]
    exactly when the store held a live entry for the token; it removes
    that key and nothing else; afterwards every [validateQR] for the id
    returns [null], whatever the signature, and a second [expireQR]
    answers [false]. *)
Theorem X2_expire_invalidates now qrId db :
  Js.falsy qrId = false ->
  let r := expireQR now qrId db in
  (fst r = true <-> is_Some (Redis.get now db (QR_KEY_PREFIX +:+ qrId)))
  /\ snd r = delete (QR_KEY_PREFIX +:+ qrId) db
  /\ (forall e later sig, validateQR e later qrId sig (snd r) = (None, snd r))
  /\ (forall later, expireQR later qrId (snd r) = (false, snd r)).
Proof.
  intros Hq r. subst r. unfold expireQR. rewrite Hq. unfold Redis.del.
  cbn [fst snd]. split; [| split; [reflexivity | split]].
  - destruct (Redis.get now db _); cbn; split; try done; intros []; done.
  - intros e later sig. apply validateQR_absent, get_delete.
  - intros later. rewrite get_delete. cbn. by rewrite delete_delete_eq.
Qed.

Lemma X2_expire_invalidates_witness :
  Js.falsy demo_id = false
  /\ (fst (expireQR (demo_now + 1000) demo_id demo_db) = true <->
      is_Some (Redis.get (demo_now + 1000) demo_db (QR_KEY_PREFIX +:+ demo_id)))
  /\ forall e later sig,
       validateQR e later demo_id sig (snd (expireQR (demo_now + 1000) demo_id demo_db))
       = (None, snd (expireQR (demo_now + 1000) demo_id demo_db)).
Proof.
  split; [reflexivity |].
  pose proof (X2_expire_invalidates (demo_now + 1000) demo_id demo_db eq_refl) as H.
  cbv zeta in H. split; [apply H | apply H].
Defined.

(** X3 (tokens do not interfere). [validateQR] and [expireQR] never add
    or change an entry: they leave the store as it is or delete the key of
    their own token, and [generateQR] writes that key only. Hence whatever
    is done to one token, the answers of [validateQR] and [expireQR] for a
    token with another id are what they would have been. *)
Theorem X3_tokens_independent a b :
  a <> b ->
  (forall e now sig db,
      snd (validateQR e now a sig db) = db
      \/ snd (validateQR e now a sig db) = delete (QR_KEY_PREFIX +:+ a) db)
  /\ (forall e now sig db e' now' sig',
        fst (validateQR e now b sig (snd (validateQR e' now' a sig' db)))
        = fst (validateQR e now b sig db)
        /\ fst (expireQR now b (snd (validateQR e' now' a sig' db)))
           = fst (expireQR now b db))
  /\ (forall e now sig db now',
        fst (validateQR e now b sig (snd (expireQR now' a db)))
        = fst (validateQR e now b sig db))
  /\ (forall e now sig db e' now' sessionId q db',
        generateQR e' a now' sessionId db = Returned (q, db') ->
        fst (validateQR e now b sig db') = fst (validateQR e now b sig db)
        /\ forall k, k <> QR_KEY_PREFIX +:+ a -> db' !! k = db !! k).
Proof.
  intros Hab.
  assert (Hk : QR_KEY_PREFIX +:+ a <> QR_KEY_PREFIX +:+ b).
  { intros H. by apply qr_key_inj in H. }
  split; [intros; apply validateQR_store |]. split; [| split].
  - intros e now sig db e' now' sig'.
    destruct (validateQR_store e' now' a sig' db) as [-> | ->]; [done |].
    split; [apply validateQR_answer_ext | apply expireQR_answer_ext];
      by apply lookup_delete_ne.
  - intros e now sig db now'. apply validateQR_answer_ext.
    unfold expireQR, Redis.del. destruct (Js.falsy a); cbn; [done |].
    by apply lookup_delete_ne.
  - intros e now sig db e' now' sessionId q db' Hgen.
    destruct (generateQR_returned _ _ _ _ _ _ _ Hgen) as (_ & _ & _ & _ & ->).
    split.
    + apply validateQR_answer_ext. unfold Redis.setex. by apply lookup_insert_ne.
    + intros k Hne. unfold Redis.setex. by apply lookup_insert_ne.
Qed.

Lemma X3_tokens_independent_witness :
  demo_id <> "other-token"
  /\ forall e now sig db e' now' sig',
       fst (validateQR e now "other-token" sig (snd (validateQR e' now' demo_id sig' db)))
       = fst (validateQR e now "other-token" sig db).
Proof.
  assert (H : demo_id <> "other-token") by discriminate.
  split; [exact H |].
  intros e now sig db e' now' sig'.
  exact (proj1 (proj1 (proj2 (X3_tokens_independent demo_id "other-token" H))
                  e now sig db e' now' sig')).
Defined.

End TokenFacts.

(** ** The cleanup job and the registry *)

Module RegistryFacts.

Import ContextEngine SocketManager Spec Demo QrFacts TokenFacts.

Lemma has_prefix_app p s : Redis.has_prefix p (p +:+ s) = true.
Proof.
  induction p as [| c p IH]; [reflexivity |].
  rewrite str_app_cons. cbn. by rewrite Ascii.eqb_refl.
Qed.

Lemma mobile_key_is_socket_key s : Redis.has_prefix "qr:" (MOBILE_PREFIX +:+ s) = false.
Proof. reflexivity. Qed.

Lemma kiosk_key_is_socket_key s : Redis.has_prefix "qr:" (KIOSK_PREFIX +:+ s) = false.
Proof. reflexivity. Qed.

Lemma registry_key_not_token ch identity :
  Redis.has_prefix "qr:" (prefix_of ch +:+ identity) = false.
Proof. by destruct ch. Qed.

Lemma registry_key_ne_token ch identity id :
  prefix_of ch +:+ identity <> QrService.QR_KEY_PREFIX +:+ id.
Proof.
  intros H. pose proof (registry_key_not_token ch identity) as Hp.
  rewrite H in Hp. unfold QrService.QR_KEY_PREFIX in Hp.
  by rewrite has_prefix_app in Hp.
Qed.

Lemma channels_apart a b : MOBILE_PREFIX +:+ a <> KIOSK_PREFIX +:+ b.
Proof.
  intros H.
  assert (Hp : Redis.has_prefix "socket:m" (KIOSK_PREFIX +:+ b) = false) by reflexivity.
  rewrite <- H in Hp. discriminate.
Qed.

Lemma registry_key_inj ch ch' a b :
  prefix_of ch +:+ a = prefix_of ch' +:+ b -> ch = ch' /\ a = b.
Proof.
  destruct ch, ch'; cbn [prefix_of]; intros H.
  - split; [reflexivity | by apply str_app_inv_head in H].
  - by apply channels_apart in H.
  - symmetry in H. by apply channels_apart in H.
  - split; [reflexivity | by apply str_app_inv_head in H].
Qed.

Lemma keys_In now (db : Redis.t) p k :
  In k (Redis.keys now db p) <->
  Redis.has_prefix p k = true
  /\ exists e, db !! k = Some e /\ Redis.live now e = true.
Proof.
  unfold Redis.keys. rewrite in_map_iff. split.
  - intros ([k' e] & <- & Hin). apply filter_In in Hin as [Hin Hb].
    apply andb_true_iff in Hb as [Hp Hl]. cbn in *. split; [done |].
    exists e. split; [| done].
    by apply elem_of_map_to_list, list_elem_of_In.
  - intros (Hp & e & He & Hl). exists (k, e). split; [reflexivity |].
    apply filter_In. split.
    + by apply list_elem_of_In, elem_of_map_to_list.
    + cbn. by rewrite Hp, Hl.
Qed.

Lemma get_set_eq later (db : Redis.t) k v :
  Redis.get later (Redis.set db k v) k = Some v.
Proof. unfold Redis.get, Redis.set. by rewrite lookup_insert_eq. Qed.

Lemma ttl_ext now (db1 db2 : Redis.t) k :
  db1 !! k = db2 !! k -> Redis.ttl now db1 k = Redis.ttl now db2 k.
Proof. unfold Redis.ttl. by intros ->. Qed.

(** The loop of the cleanup job, key by key. *)
Lemma sweep_lookup now keys (db : Redis.t) k :
  sweep now keys db !! k
  = if decide (k ∈ keys /\ Redis.ttl now db k <= 0) then None else db !! k.
Proof.
  revert db. induction keys as [| key more IH]; intros db; cbn [sweep].
  - destruct (decide _) as [[Hin _] |]; [by apply elem_of_nil in Hin | reflexivity].
  - destruct (Z.leb_spec (Redis.ttl now db key) 0) as [Hle | Hgt].
    + rewrite IH. cbn [Redis.del snd].
      destruct (decide (key = k)) as [-> | Hne].
      * rewrite lookup_delete_eq.
        destruct (decide _), (decide _) as [| Hn]; try reflexivity;
          exfalso; apply Hn; (split; [apply list_elem_of_here | done]).
      * rewrite lookup_delete_ne by done.
        rewrite (ttl_ext now (delete key db) db k) by (by apply lookup_delete_ne).
        destruct (decide _) as [[Hin Ht] | Hn1], (decide _) as [[Hin' Ht'] | Hn2];
          try reflexivity.
        -- exfalso. apply Hn2. split; [by apply list_elem_of_further | done].
        -- exfalso. apply Hn1. apply elem_of_cons in Hin' as [-> | Hin']; done.
    + rewrite IH.
      destruct (decide _) as [[Hin Ht] | Hn1], (decide _) as [[Hin' Ht'] | Hn2];
        try reflexivity.
      * exfalso. apply Hn2. split; [by apply list_elem_of_further | done].
      * exfalso. apply Hn1. apply elem_of_cons in Hin' as [-> | Hin']; [lia | done].
Qed.

Lemma half_second x : 0 <= x -> ((x + 500) / 1000 <=? 0) = (x <? 500).
Proof.
  intros Hx. destruct (Z.ltb_spec x 500) as [Hlt | Hge].
  - rewrite Z.div_small by lia. reflexivity.
  - apply Z.leb_gt.
    apply Z.lt_le_trans with 1; [lia |].
    apply Z.div_le_lower_bound; lia.
Qed.

(** X4 (what the cleanup job removes). With a registry client,
    [cleanupExpiredQRs] run at [now] removes exactly the live keys under
    [qr:] whose TTL answer is not positive, that is, tokens with less than
    half a second left (or with no expiry); every other entry, and in
    particular every registry entry and every token with at least half a
    second to live, is kept as it is, so such a token still validates as
    before. Sessions, catalogue and namespaces are not touched, and without
    a client the job does nothing. *)
Theorem X4_cleanup_removes cfg now st :
  (redis_client cfg = false -> cleanupExpiredQRs cfg now st = st)
  /\ (redis_client cfg = true ->
      let st' := cleanupExpiredQRs cfg now st in
      sessions st' = sessions st /\ catalog st' = catalog st
      /\ mobileNamespace st' = mobileNamespace st
      /\ kioskNamespace st' = kioskNamespace st
      /\ (forall k,
            redis st' !! k
            = match redis st !! k with
              | Some e => if swept now k e then None else Some e
              | None => None
              end)
      /\ (forall ch identity,
            redis st' !! (prefix_of ch +:+ identity)
            = redis st !! (prefix_of ch +:+ identity))
      /\ (forall id e deadline,
            redis st !! (QrService.QR_KEY_PREFIX +:+ id) = Some e ->
            Redis.expireAt e = Some deadline -> now + 500 <= deadline ->
            forall env later sig,
              fst (QrService.validateQR env later id sig (redis st'))
              = fst (QrService.validateQR env later id sig (redis st)))).
Proof.
  split; [intros Hc; unfold cleanupExpiredQRs; by rewrite Hc |].
  intros Hc st'. subst st'. unfold cleanupExpiredQRs. rewrite Hc.
  cbn [sessions catalog mobileNamespace kioskNamespace redis set_redis].
  assert (Hlookup : forall k,
    sweep now (Redis.keys now (redis st) "qr:") (redis st) !! k
    = match redis st !! k with
      | Some e => if swept now k e then None else Some e
      | None => None
      end).
  { intros k. rewrite sweep_lookup.
    destruct (redis st !! k) as [e |] eqn:He.
    - unfold swept, Redis.ttl. rewrite He.
      destruct (decide _) as [[Hin Ht] | Hn].
      + apply list_elem_of_In, keys_In in Hin as (Hp & e' & He' & Hl).
        rewrite He in He'. injection He' as <-. rewrite Hl in Ht. rewrite Hp, Hl. cbn.
        destruct (Redis.expireAt e) as [d |] eqn:Hd; [| reflexivity].
        unfold Redis.live in Hl. rewrite Hd in Hl. apply Z.leb_le in Hl.
        replace (d - now + 500) with ((d - now) + 500) in Ht by lia.
        apply Z.leb_le in Ht. rewrite half_second in Ht by lia.
        apply Z.ltb_lt in Ht.
        destruct (Z.ltb_spec d (now + 500)); [reflexivity | lia].
      + destruct (Redis.has_prefix "qr:" k) eqn:Hp; [| reflexivity].
        destruct (Redis.live now e) eqn:Hl; [| reflexivity]. cbn.
        assert (Hin : k ∈ Redis.keys now (redis st) "qr:").
        { apply list_elem_of_In, keys_In. split; [done |]. eauto. }
        assert (Ht : ~ match Redis.expireAt e with
                       | Some deadline => (deadline - now + 500) / 1000
                       | None => -1
                       end <= 0).
        { intros Ht. apply Hn. by split. }
        destruct (Redis.expireAt e) as [d |] eqn:Hd; [| lia].
        unfold Redis.live in Hl. rewrite Hd in Hl. apply Z.leb_le in Hl.
        destruct (Z.ltb_spec d (now + 500)) as [Hlt | Hge]; [| reflexivity].
        exfalso. apply Ht. apply Z.leb_le.
        replace (d - now + 500) with ((d - now) + 500) by lia.
        rewrite half_second by lia. apply Z.ltb_lt. lia.
    - destruct (decide _); reflexivity. }
  repeat (split; [reflexivity |]). split; [exact Hlookup | split].
  - intros ch identity. rewrite Hlookup.
    destruct (redis st !! _) as [e |]; [| reflexivity].
    unfold swept. by rewrite registry_key_not_token.
  - intros id e deadline He Hd Hleft env later sig.
    apply validateQR_answer_ext. rewrite Hlookup, He.
    unfold swept. rewrite Hd.
    destruct (Z.ltb_spec deadline (now + 500)); [lia |].
    by rewrite andb_false_r.
Qed.

Lemma X4_cleanup_removes_witness :
  redis_client demo_config = true
  /\ redis (State demo_db ∅ [] (Some ∅) (Some ∅)) !! (QrService.QR_KEY_PREFIX +:+ demo_id)
     = Some (Redis.Entry (Redis.QrRecord "S1" demo_now) (Some (demo_now + 300000)))
  /\ demo_now + 299000 + 500 <= demo_now + 300000
  /\ forall env later sig,
       fst (QrService.validateQR env later demo_id sig
              (redis (cleanupExpiredQRs demo_config (demo_now + 299000)
                        (State demo_db ∅ [] (Some ∅) (Some ∅)))))
       = fst (QrService.validateQR env later demo_id sig demo_db).
Proof.
  assert (He : redis (State demo_db ∅ [] (Some ∅) (Some ∅))
               !! (QrService.QR_KEY_PREFIX +:+ demo_id)
               = Some (Redis.Entry (Redis.QrRecord "S1" demo_now)
                                   (Some (demo_now + 300000)))).
  { cbn [redis]. unfold demo_db, Redis.setex. apply lookup_insert_eq. }
  assert (Hd : demo_now + 299000 + 500 <= demo_now + 300000) by (unfold demo_now; lia).
  split; [reflexivity |]. split; [exact He |]. split; [exact Hd |].
  destruct (X4_cleanup_removes demo_config (demo_now + 299000)
              (State demo_db ∅ [] (Some ∅) (Some ∅))) as [_ H].
  pose proof (H eq_refl) as H'. cbv zeta in H'.
  destruct H' as (_ & _ & _ & _ & _ & _ & Hv).
  exact (Hv demo_id _ _ He eq_refl Hd).
Defined.

(** The registry is read through the identity's key and the two
    namespaces only. *)
Lemma lookup_ext cfg now st1 st2 userId ns :
  mobileNamespace st1 = mobileNamespace st2 ->
  kioskNamespace st1 = kioskNamespace st2 ->
  (forall u, userId = Some u ->
     redis st1 !! (prefix_of ns +:+ u) = redis st2 !! (prefix_of ns +:+ u)) ->
  getSocketByUserId cfg now st1 userId ns = getSocketByUserId cfg now st2 userId ns.
Proof.
  intros Hm Hk Hr. unfold getSocketByUserId, namespace_of. rewrite Hm, Hk.
  destruct (redis_client cfg), (mobileNamespace st2), (kioskNamespace st2),
    userId as [u |]; try reflexivity.
  rewrite (get_ext now (redis st1) (redis st2) _ (Hr u eq_refl)). reflexivity.
Qed.

Lemma redis_set_namespace st ch ns : redis (set_namespace st ch ns) = redis st.
Proof. by destruct ch. Qed.

Lemma namespace_set_namespace st ch ns : namespace_of (set_namespace st ch ns) ch = ns.
Proof. by destruct ch. Qed.

Lemma namespace_set_redis st r ch : namespace_of (set_redis st r) ch = namespace_of st ch.
Proof. by destruct ch. Qed.

Lemma lookup_connected cfg now st userId ns socket :
  getSocketByUserId cfg now st userId ns = Some socket ->
  exists sockets, namespace_of st ns = Some sockets /\ socket ∈ sockets.
Proof.
  unfold getSocketByUserId. intros H.
  destruct (namespace_of st ns) as [sockets |] eqn:Hns.
  - exists sockets. split; [reflexivity |].
    repeat case_match; try discriminate. by injection H as <-.
  - repeat case_match; discriminate.
Qed.

(** The loop of the [disconnect] handlers either finds nothing to forget,
    or deletes one key that held the socket's id. *)
Lemma forget_cases now socket keys (db : Redis.t) :
  (forget now socket keys db = db
   /\ forall k, k ∈ keys -> Redis.get now db k <> Some (Redis.SocketId socket))
  \/ (exists k, k ∈ keys /\ Redis.get now db k = Some (Redis.SocketId socket)
                /\ forget now socket keys db = delete k db).
Proof.
  induction keys as [| key more IH]; cbn [forget].
  - left. split; [reflexivity |]. intros k Hk. by apply elem_of_nil in Hk.
  - assert (Hskip : Redis.get now db key <> Some (Redis.SocketId socket) ->
      (forget now socket more db = db
       /\ forall k, k ∈ key :: more ->
            Redis.get now db k <> Some (Redis.SocketId socket))
      \/ (exists k, k ∈ key :: more
            /\ Redis.get now db k = Some (Redis.SocketId socket)
            /\ forget now socket more db = delete k db)).
    { intros Hne. destruct IH as [[Heq Hall] | (k & Hk & Hg & Heq)].
      - left. split; [done |]. intros k Hk.
        apply elem_of_cons in Hk as [-> | Hk]; [done | by apply Hall].
      - right. exists k. split; [by apply list_elem_of_further | done]. }
    destruct (Redis.get now db key) as [[id | sid ts] |] eqn:Hg;
      try (apply Hskip; discriminate).
    unfold str_eqb. destruct (String.eqb_spec id socket) as [-> | Hne].
    + right. exists key. split; [apply list_elem_of_here | done].
    + apply Hskip. intros [= ->]. done.
Qed.

(** X5 (disconnect). A disconnect takes the socket out of its namespace,
    so that no later registry lookup on that channel returns it, and
    leaves sessions and catalogue alone. With a registry client it deletes
    one live key of the channel that holds the socket's id when there is
    one (and only one, even when the socket was registered under several
    identities), and nothing otherwise; without a client the store is
    not touched. *)
Theorem X5_disconnect_forgets cfg now ch socket st :
  let st' := disconnect cfg now ch socket st in
  sessions st' = sessions st /\ catalog st' = catalog st
  /\ namespace_of st' ch = option_map (fun s => s ∖ {[socket]}) (namespace_of st ch)
  /\ (forall later userId, getSocketByUserId cfg later st' userId ch <> Some socket)
  /\ (redis_client cfg = false -> redis st' = redis st)
  /\ (redis_client cfg = true ->
      (forall k, Redis.has_prefix (prefix_of ch) k = true ->
                 Redis.get now (redis st) k <> Some (Redis.SocketId socket)) ->
      redis st' = redis st)
  /\ (redis_client cfg = true ->
      forall k, Redis.has_prefix (prefix_of ch) k = true ->
                Redis.get now (redis st) k = Some (Redis.SocketId socket) ->
      exists k', Redis.has_prefix (prefix_of ch) k' = true
                 /\ Redis.get now (redis st) k' = Some (Redis.SocketId socket)
                 /\ redis st' = delete k' (redis st)).
Proof.
  intros st'. subst st'. unfold disconnect.
  set (ns := option_map _ _).
  assert (Hns : namespace_of
                  (if redis_client cfg
                   then set_redis (set_namespace st ch ns)
                          (forget now socket
                             (Redis.keys now (redis (set_namespace st ch ns)) (prefix_of ch))
                             (redis (set_namespace st ch ns)))
                   else set_namespace st ch ns) ch = ns).
  { destruct (redis_client cfg);
      [rewrite namespace_set_redis |]; apply namespace_set_namespace. }
  split; [destruct (redis_client cfg), ch; reflexivity |].
  split; [destruct (redis_client cfg), ch; reflexivity |].
  split; [exact Hns |].
  split.
  { intros later userId Hfound.
    apply lookup_connected in Hfound as (sockets & Hs & Hin).
    rewrite Hns in Hs. subst ns.
    destruct (namespace_of st ch) as [old |]; [| discriminate].
    injection Hs as <-. apply elem_of_difference in Hin as [_ Hout].
    apply Hout. by apply elem_of_singleton. }
  split; [intros ->; apply redis_set_namespace |].
  split.
  - intros -> Hnone. cbn [redis set_redis]. rewrite redis_set_namespace.
    destruct (forget_cases now socket (Redis.keys now (redis st) (prefix_of ch))
                (redis st)) as [[Heq _] | (k & Hk & Hg & _)]; [done |].
    apply list_elem_of_In, keys_In in Hk as [Hp _]. by destruct (Hnone k Hp).
  - intros -> k Hp Hg. cbn [redis set_redis]. rewrite redis_set_namespace.
    destruct (forget_cases now socket (Redis.keys now (redis st) (prefix_of ch))
                (redis st)) as [[_ Hall] | (k' & Hk' & Hg' & Heq)].
    + exfalso. apply (Hall k); [| done].
      apply list_elem_of_In, keys_In. split; [done |].
      unfold Redis.get in Hg. destruct (redis st !! k) as [e |]; [| discriminate].
      exists e. split; [reflexivity |]. by destruct (Redis.live now e).
    + exists k'. apply list_elem_of_In, keys_In in Hk' as [Hp' _]. done.
Qed.

Lemma X5_disconnect_forgets_witness :
  redis_client demo_config = true
  /\ exists k', Redis.has_prefix (prefix_of mobile) k' = true
       /\ Redis.get 5 (Redis.set ∅ (MOBILE_PREFIX +:+ "U1") (Redis.SocketId "m1")) k'
          = Some (Redis.SocketId "m1")
       /\ redis (disconnect demo_config 5 mobile "m1"
                   (State (Redis.set ∅ (MOBILE_PREFIX +:+ "U1") (Redis.SocketId "m1"))
                          ∅ [] (Some {[ "m1" ]}) (Some ∅)))
          = delete k' (Redis.set ∅ (MOBILE_PREFIX +:+ "U1") (Redis.SocketId "m1")).
Proof.
  split; [reflexivity |].
  destruct (X5_disconnect_forgets demo_config 5 mobile "m1"
              (State (Redis.set ∅ (MOBILE_PREFIX +:+ "U1") (Redis.SocketId "m1"))
                     ∅ [] (Some {[ "m1" ]}) (Some ∅)))
    as (_ & _ & _ & _ & _ & _ & H).
  apply (H eq_refl (MOBILE_PREFIX +:+ "U1")); [reflexivity |].
  apply get_set_eq.
Defined.

(** X6 (registrations are isolated). An [identify] event writes at most
    the key of its own channel and identity: sessions and namespaces stay,
    every other key of the store stays, later lookups on the other channel
    or for another identity answer as before, and every token validates or
    expires as before. *)
Theorem X6_identify_isolated cfg ch socket identity st :
  let st' := snd (identify cfg ch socket identity st) in
  sessions st' = sessions st /\ catalog st' = catalog st
  /\ mobileNamespace st' = mobileNamespace st
  /\ kioskNamespace st' = kioskNamespace st
  /\ (forall k, k <> prefix_of ch +:+ or_str identity "" ->
        redis st' !! k = redis st !! k)
  /\ (forall now userId ch', ch' <> ch \/ userId <> identity ->
        getSocketByUserId cfg now st' userId ch'
        = getSocketByUserId cfg now st userId ch')
  /\ (forall env now id sig,
        fst (QrService.validateQR env now id sig (redis st'))
        = fst (QrService.validateQR env now id sig (redis st)))
  /\ (forall now id,
        fst (QrService.expireQR now id (redis st'))
        = fst (QrService.expireQR now id (redis st))).
Proof.
  intros st'. subst st'. unfold identify, register.
  destruct (truthy identity && redis_client cfg) eqn:Hguard; cbn [snd];
    [| repeat split; reflexivity].
  apply andb_true_iff in Hguard as [Hid ->].
  destruct identity as [i |]; [| discriminate].
  assert (Hi : or_str (Some i) "" = i).
  { unfold truthy, truthy_str in Hid. unfold or_str.
    by destruct (Js.falsy i). }
  rewrite Hi.
  cbn [sessions catalog mobileNamespace kioskNamespace redis set_redis].
  assert (Hkeys : forall k, k <> prefix_of ch +:+ i ->
            Redis.set (redis st) (prefix_of ch +:+ i) (Redis.SocketId socket) !! k
            = redis st !! k).
  { intros k Hk. unfold Redis.set. by rewrite lookup_insert_ne. }
  repeat (split; [reflexivity |]).
  split; [exact Hkeys |]. split; [| split].
  - intros now userId ch' Hother. apply lookup_ext; try reflexivity.
    intros u ->. cbn [redis]. apply Hkeys. intros Heq.
    apply registry_key_inj in Heq as [-> ->]. by destruct Hother.
  - intros env now id sig. apply validateQR_answer_ext, Hkeys.
    intros Heq. symmetry in Heq. by apply registry_key_ne_token in Heq.
  - intros now id. apply expireQR_answer_ext, Hkeys.
    intros Heq. symmetry in Heq. by apply registry_key_ne_token in Heq.
Qed.

(** X7 (tokens never disturb the registry). Issuing, validating or
    expiring a token, and the cleanup job, leave every registry key as it
    is, so every registry lookup answers as it did before. *)
Theorem X7_registry_undisturbed cfg st ch identity :
  let key := prefix_of ch +:+ identity in
  (forall env uuid now sessionId q db',
     QrService.generateQR env uuid now sessionId (redis st) = Returned (q, db') ->
     db' !! key = redis st !! key
     /\ forall later userId ns,
          getSocketByUserId cfg later (set_redis st db') userId ns
          = getSocketByUserId cfg later st userId ns)
  /\ (forall env now id sig,
        let db' := snd (QrService.validateQR env now id sig (redis st)) in
        db' !! key = redis st !! key
        /\ forall later userId ns,
             getSocketByUserId cfg later (set_redis st db') userId ns
             = getSocketByUserId cfg later st userId ns)
  /\ (forall now id,
        let db' := snd (QrService.expireQR now id (redis st)) in
        db' !! key = redis st !! key
        /\ forall later userId ns,
             getSocketByUserId cfg later (set_redis st db') userId ns
             = getSocketByUserId cfg later st userId ns)
  /\ (forall now later userId ns,
        getSocketByUserId cfg later (cleanupExpiredQRs cfg now st) userId ns
        = getSocketByUserId cfg later st userId ns).
Proof.
  intros key. subst key.
  assert (Hdel : forall id c i,
            delete (QrService.QR_KEY_PREFIX +:+ id) (redis st) !! (prefix_of c +:+ i)
            = redis st !! (prefix_of c +:+ i)).
  { intros id c i. apply lookup_delete_ne. intros Heq. symmetry in Heq.
    by apply registry_key_ne_token in Heq. }
  assert (Hlift : forall db' : Redis.t,
            (forall c i, db' !! (prefix_of c +:+ i) = redis st !! (prefix_of c +:+ i)) ->
            db' !! (prefix_of ch +:+ identity) = redis st !! (prefix_of ch +:+ identity)
            /\ forall later userId ns,
                 getSocketByUserId cfg later (set_redis st db') userId ns
                 = getSocketByUserId cfg later st userId ns).
  { intros db' H. split; [apply H |]. intros later userId ns.
    apply lookup_ext; try reflexivity. intros u _. apply H. }
  split; [| split; [| split]].
  - intros env uuid now sessionId q db' Hgen. apply Hlift. intros c i.
    unfold QrService.generateQR in Hgen.
    repeat case_match; simplify_eq.
    unfold Redis.setex. apply lookup_insert_ne.
    intros Heq. symmetry in Heq. by apply registry_key_ne_token in Heq.
  - intros env now id sig db'. subst db'. apply Hlift. intros c i.
    destruct (validateQR_store env now id sig (redis st)) as [-> | ->];
      [reflexivity | apply Hdel].
  - intros now id db'. subst db'. apply Hlift. intros c i.
    unfold QrService.expireQR, Redis.del.
    destruct (Js.falsy id); cbn [snd]; [reflexivity | apply Hdel].
  - intros now later userId ns. apply lookup_ext.
    + unfold cleanupExpiredQRs. by destruct (redis_client cfg).
    + unfold cleanupExpiredQRs. by destruct (redis_client cfg).
    + intros u _. unfold cleanupExpiredQRs.
      destruct (redis_client cfg); [| reflexivity]. cbn [redis set_redis].
      rewrite sweep_lookup.
      destruct (decide _) as [[Hin _] |]; [| reflexivity].
      apply list_elem_of_In, keys_In in Hin as [Hp _].
      by rewrite registry_key_not_token in Hp.
Qed.

Lemma X7_registry_undisturbed_witness :
  QrService.generateQR demo_env demo_id demo_now "S1" (redis demo_state)
  = Returned (demo_qr, demo_db)
  /\ demo_db !! (prefix_of mobile +:+ "U1") = redis demo_state !! (prefix_of mobile +:+ "U1").
Proof.
  assert (H : QrService.generateQR demo_env demo_id demo_now "S1" (redis demo_state)
              = Returned (demo_qr, demo_db)) by exact TokenService.demo_issued.
  split; [exact H |].
  exact (proj1 (proj1 (X7_registry_undisturbed demo_config demo_state mobile "U1")
                  demo_env demo_id demo_now "S1" demo_qr demo_db H)).
Defined.

(** *** What the store holds *)

Lemma well_keyed_empty : well_keyed ∅.
Proof. intros k e H. by rewrite lookup_empty in H. Qed.

Lemma well_keyed_delete db k : well_keyed db -> well_keyed (delete k db).
Proof.
  intros Hwk k' e H. apply (Hwk k' e).
  destruct (decide (k = k')) as [-> | Hne].
  - by rewrite lookup_delete_eq in H.
  - by rewrite lookup_delete_ne in H.
Qed.

Lemma well_keyed_set db ch identity socket :
  Js.falsy identity = false -> well_keyed db ->
  well_keyed (Redis.set db (prefix_of ch +:+ identity) (Redis.SocketId socket)).
Proof.
  intros Hid Hwk k e H. unfold Redis.set in H.
  destruct (decide (prefix_of ch +:+ identity = k)) as [<- | Hne].
  - rewrite lookup_insert_eq in H. injection H as <-.
    right. by exists ch, identity, socket.
  - rewrite lookup_insert_ne in H by done. by apply Hwk.
Qed.

Lemma well_keyed_register cfg st ch identity socket :
  Js.falsy identity = false -> well_keyed (redis st) ->
  well_keyed (redis (register cfg st ch identity socket)).
Proof.
  intros Hid Hwk. unfold register.
  destruct (redis_client cfg); [| done]. by apply well_keyed_set.
Qed.

Lemma well_keyed_generate env uuid now sessionId db q db' :
  QrService.generateQR env uuid now sessionId db = Returned (q, db') ->
  well_keyed db -> well_keyed db'.
Proof.
  intros Hgen Hwk.
  destruct (generateQR_returned _ _ _ _ _ _ _ Hgen) as (key & _ & Hsid & _ & ->).
  intros k e H. unfold Redis.setex in H.
  destruct (decide (QrService.QR_KEY_PREFIX +:+ uuid = k)) as [<- | Hne].
  - rewrite lookup_insert_eq in H. injection H as <-.
    left. exists uuid, sessionId, now. eexists.
    split; [reflexivity | split; [exact Hsid | reflexivity]].
  - rewrite lookup_insert_ne in H by done. by apply Hwk.
Qed.

Lemma well_keyed_validate env now id sig db :
  well_keyed db -> well_keyed (snd (QrService.validateQR env now id sig db)).
Proof.
  intros Hwk. destruct (validateQR_store env now id sig db) as [-> | ->];
    [done | by apply well_keyed_delete].
Qed.

Lemma well_keyed_expire now id db :
  well_keyed db -> well_keyed (snd (QrService.expireQR now id db)).
Proof.
  intros Hwk. unfold QrService.expireQR, Redis.del.
  destruct (Js.falsy id); cbn [snd]; [done | by apply well_keyed_delete].
Qed.

Lemma well_keyed_sweep now keys db : well_keyed db -> well_keyed (sweep now keys db).
Proof.
  intros Hwk k e H. rewrite sweep_lookup in H.
  destruct (decide _); [discriminate | by apply Hwk].
Qed.

Lemma well_keyed_forget now socket keys db :
  well_keyed db -> well_keyed (forget now socket keys db).
Proof.
  intros Hwk. destruct (forget_cases now socket keys db) as [[-> _] | (k & _ & _ & ->)];
    [done | by apply well_keyed_delete].
Qed.

Lemma truthy_or_str f : truthy f = true -> Js.falsy (or_str f "") = false.
Proof.
  destruct f as [s |]; [| discriminate]. unfold truthy, truthy_str, or_str.
  destruct (Js.falsy s) eqn:Hs; [discriminate | done].
Qed.

Lemma redis_set_sessions st c : redis (set_sessions st c) = redis st.
Proof. reflexivity. Qed.

Lemma handle_well_keyed cfg now mongo r st :
  well_keyed (redis st) -> well_keyed (redis (snd (handle cfg now mongo r st))).
Proof.
  intros Hwk. destruct r; cbn [handle snd].
  - unfold connect. cbn [snd]. by rewrite redis_set_namespace.
  - unfold disconnect. destruct (redis_client cfg); cbn [redis set_redis];
      rewrite ?redis_set_namespace; [by apply well_keyed_forget | done].
  - unfold identify. destruct (truthy identity && redis_client cfg) eqn:Hg; [| done].
    apply andb_true_iff in Hg as [Hid _]. cbn [snd].
    by apply well_keyed_register; [apply truthy_or_str |].
  - unfold mobile_message.
    destruct sessionId as [sid |], userId as [uid |], msg as [m |]; try done.
    destruct (Js.falsy sid || Js.falsy uid || Js.falsy m) eqn:Hg; [done |].
    apply orb_false_iff in Hg as [Hg _]. apply orb_false_iff in Hg as [_ Huid].
    pose proof (well_keyed_register cfg st mobile uid socket Huid Hwk) as Hreg.
    destruct mongo as [[] | e]; [| done].
    destruct (absorb _ _ _) as [session parsed]. done.
  - unfold mobile_generateQR. destruct (negb _); [done |].
    destruct (QrService.generateQR _ _ _ _ _) as [[q db] | e] eqn:Hgen; [| done].
    pose proof (well_keyed_generate _ _ _ _ _ _ _ Hgen Hwk) as Hdb.
    destruct mongo as [[] | e]; [| done].
    cbn [snd sessions set_redis]. by destruct (Session.findOne _ _).
  - unfold kiosk_scanQR. destruct (_ || _); [done |].
    set (st1 := if truthy kioskId then _ else st).
    assert (H1 : well_keyed (redis st1)).
    { subst st1. destruct (truthy kioskId) eqn:Hk; [| done].
      by apply well_keyed_register; [apply truthy_or_str |]. }
    pose proof (well_keyed_validate (env cfg) now (or_str qrId "")
                  (or_str signature "") (redis st1) H1) as Hv.
    destruct (QrService.validateQR _ _ _ _ _) as [sessionId db]. cbn [snd] in Hv.
    destruct (negb _); [done |].
    destruct mongo as [[] | e]; [| done].
    cbn [sessions set_redis]. by destruct (Session.findOne _ _).
  - unfold kiosk_requestAssociate. by repeat case_match.
  - unfold cleanupExpiredQRs. destruct (redis_client cfg); [| done].
    by apply well_keyed_sweep.
  - unfold post_chat_message. destruct (_ || _); [done |].
    destruct (blank _); [done |]. destruct mongo as [[] | e]; [| done].
    by destruct (absorb _ _ _).
  - unfold get_chat_session. by repeat case_match.
  - unfold delete_chat_session. by repeat case_match.
  - unfold post_qr_generate. destruct (negb _); [done |].
    destruct mongo as [[] | e]; [| done].
    destruct (Session.findOne _ _); [| done].
    destruct (QrService.generateQR _ _ _ _ _) as [[q db] | e] eqn:Hgen; [| done].
    exact (well_keyed_generate _ _ _ _ _ _ _ Hgen Hwk).
  - unfold post_qr_validate. destruct (_ || _); [done |].
    pose proof (well_keyed_validate (env cfg) now (or_str qrId "")
                  (or_str signature "") (redis st) Hwk) as Hv.
    destruct (QrService.validateQR _ _ _ _ _) as [sessionId db]. cbn [snd] in Hv.
    by repeat case_match.
  - unfold delete_qr. destruct (Js.falsy qrId); [done |].
    pose proof (well_keyed_expire now qrId (redis st) Hwk) as Hx.
    by destruct (QrService.expireQR _ _ _).
Qed.

Lemma run_well_keyed cfg trace st :
  well_keyed (redis st) -> well_keyed (redis (run cfg trace st)).
Proof.
  revert st. induction trace as [| a more IH]; intros st Hwk; [done |].
  cbn [run]. by apply IH, handle_well_keyed.
Qed.

(** What a successful validation has read. *)
Lemma validateQR_some env now id sig db sessionId :
  fst (QrService.validateQR env now id sig db) = Some sessionId ->
  exists timestamp,
    Redis.get now db (QrService.QR_KEY_PREFIX +:+ id)
    = Some (Redis.QrRecord sessionId timestamp).
Proof.
  unfold QrService.validateQR.
  destruct (Js.falsy id || Js.falsy sig); [discriminate |].
  destruct (QrService.secret env) as [key |]; [| discriminate].
  destruct (Redis.get now db _) as [[s | sid ts] |];
    cbn [QrService.value_falsy QrService.parse]; intros H;
    repeat case_match; try discriminate.
  cbn [fst] in H. injection H as <-. by exists ts.
Qed.

Lemma issued_signature_accepted env now id db key sessionId timestamp :
  Js.falsy id = false -> QrService.secret env = Some key ->
  Redis.get now db (QrService.QR_KEY_PREFIX +:+ id)
  = Some (Redis.QrRecord sessionId timestamp) ->
  fst (QrService.validateQR env now id (QrService.sign key id sessionId timestamp) db)
  = Some sessionId.
Proof.
  intros Hid Hk Hg.
  rewrite (validateQR_entry env now id _ db key sessionId timestamp Hid
             (sign_truthy _ _ _ _) Hk Hg).
  by rewrite (proj2 (compare_match _ _) (accepts_refl _)).
Qed.

(** X8 (what the store holds). In every state the server reaches from
    start-up, whatever the requests and their order, each key of the store
    is either a token key [qr:<id>] holding a record for a non-empty
    session id under a deadline kept by the store, or a registry key
    holding a socket id for a non-empty identity with no deadline. Hence a
    validation that succeeds returns a non-empty session id, read from a
    token entry whose deadline in the store had not passed at the read, and
    registry entries never expire. *)
Theorem X8_store_well_keyed cfg products trace :
  let db := redis (run cfg trace (initial products)) in
  well_keyed db
  /\ (forall env now id sig sessionId,
        fst (QrService.validateQR env now id sig db) = Some sessionId ->
        Js.falsy sessionId = false
        /\ exists timestamp deadline,
             db !! (QrService.QR_KEY_PREFIX +:+ id)
             = Some (Redis.Entry (Redis.QrRecord sessionId timestamp) (Some deadline))
             /\ now <= deadline)
  /\ (forall ch identity e,
        db !! (prefix_of ch +:+ identity) = Some e ->
        Redis.expireAt e = None /\ exists socket, Redis.value_of e = Redis.SocketId socket).
Proof.
  intros db.
  assert (Hwk : well_keyed db).
  { subst db. apply run_well_keyed. cbn [initial redis]. apply well_keyed_empty. }
  split; [exact Hwk |]. split.
  - intros env now id sig sessionId Hv.
    apply validateQR_some in Hv as (ts & Hg). unfold Redis.get in Hg.
    destruct (db !! (QrService.QR_KEY_PREFIX +:+ id)) as [e |] eqn:He; [| discriminate].
    destruct (Redis.live now e) eqn:Hl; [| discriminate]. injection Hg as Hval.
    destruct (Hwk _ _ He) as [(id' & sid' & ts' & deadline & _ & Hsid & ->)
                             | (c & i & s & _ & _ & ->)]; [| discriminate].
    cbn in Hval. injection Hval as -> ->.
    split; [done |]. exists ts, deadline. split; [reflexivity |].
    unfold Redis.live in Hl. cbn in Hl. by apply Z.leb_le in Hl.
  - intros ch identity e He.
    destruct (Hwk _ _ He) as [(id' & sid' & ts' & deadline & Hk & _ & _)
                             | (c & i & s & _ & _ & ->)].
    + by apply registry_key_ne_token in Hk.
    + split; [reflexivity | by exists s].
Qed.

Lemma X8_store_well_keyed_witness :
  fst (QrService.validateQR demo_env (demo_now + 1000) demo_id demo_sig
         (redis (run demo_config
                   [Arrival demo_now (Returned tt)
                            (MobileGenerateQR "m1" (Some "S1") demo_id)]
                   (initial []))))
  = Some "S1"
  /\ exists timestamp deadline,
       redis (run demo_config
                [Arrival demo_now (Returned tt)
                         (MobileGenerateQR "m1" (Some "S1") demo_id)]
                (initial []))
       !! (QrService.QR_KEY_PREFIX +:+ demo_id)
       = Some (Redis.Entry (Redis.QrRecord "S1" timestamp) (Some deadline))
       /\ demo_now + 1000 <= deadline.
Proof.
  assert (Hv : fst (QrService.validateQR demo_env (demo_now + 1000) demo_id demo_sig
                      (redis (run demo_config
                                [Arrival demo_now (Returned tt)
                                         (MobileGenerateQR "m1" (Some "S1") demo_id)]
                                (initial []))))
               = Some "S1").
  { refine (issued_signature_accepted demo_env (demo_now + 1000) demo_id _
              "nexus-secret" "S1" demo_now eq_refl eq_refl _).
    reflexivity. }
  split; [exact Hv |].
  exact (proj2 (proj1 (proj2 (X8_store_well_keyed demo_config []
                                [Arrival demo_now (Returned tt)
                                         (MobileGenerateQR "m1" (Some "S1") demo_id)]))
                  demo_env (demo_now + 1000) demo_id demo_sig "S1" Hv)).
Defined.

End RegistryFacts.

(** ** Requests, one at a time and in sequence *)

Module HandlerFacts.

Import ContextEngine SocketManager Spec Demo QrFacts TokenFacts RegistryFacts Handoff.
Import SessionInvariants.

Lemma demo_state_lookup : sessions demo_state !! "S1" = Some demo_session.
Proof. cbn [sessions demo_state]. apply lookup_singleton_eq. Qed.

Lemma truthy_some s : truthy (Some s) = negb (Js.falsy s).
Proof. reflexivity. Qed.

Lemma or_str_some s d : Js.falsy s = false -> or_str (Some s) d = s.
Proof. intros H. unfold or_str. by rewrite H. Qed.

Lemma sessions_after_registration cfg socket kioskId st :
  sessions (after_kiosk_registration cfg socket kioskId st) = sessions st.
Proof.
  unfold after_kiosk_registration.
  destruct (truthy kioskId); [apply sessions_register | reflexivity].
Qed.

Lemma redis_register_token cfg st ch identity socket id :
  redis (register cfg st ch identity socket) !! (QrService.QR_KEY_PREFIX +:+ id)
  = redis st !! (QrService.QR_KEY_PREFIX +:+ id).
Proof.
  unfold register. destruct (redis_client cfg); [| reflexivity].
  cbn [redis set_redis]. unfold Redis.set. apply lookup_insert_ne.
  apply registry_key_ne_token.
Qed.

Lemma redis_after_registration_token cfg socket kioskId st id :
  redis (after_kiosk_registration cfg socket kioskId st) !! (QrService.QR_KEY_PREFIX +:+ id)
  = redis st !! (QrService.QR_KEY_PREFIX +:+ id).
Proof.
  unfold after_kiosk_registration.
  destruct (truthy kioskId); [apply redis_register_token | reflexivity].
Qed.

(** A scan, once its two fields are there. *)
Lemma scan_body cfg now mongo socket qrId sig kioskId st :
  Js.falsy qrId = false -> Js.falsy sig = false ->
  kiosk_scanQR cfg now mongo socket (Some qrId) (Some sig) kioskId st
  = let st1 := after_kiosk_registration cfg socket kioskId st in
    let v := QrService.validateQR (env cfg) now qrId sig (redis st1) in
    let st2 := set_redis st1 (snd v) in
    match fst v with
    | None => ([Emit socket (kiosk_invalidQR "Invalid or expired QR code")], st2)
    | Some sessionId =>
        if Js.falsy sessionId
        then ([Emit socket (kiosk_invalidQR "Invalid or expired QR code")], st2)
        else
          match mongo with
          | Thrown e =>
              ([Emit socket (kiosk_error "Error processing QR code" (Some e))], st2)
          | Returned _ =>
              match sessions st !! sessionId with
              | None => ([Emit socket (kiosk_invalidQR "Session not found")], st2)
              | Some session =>
                  let session := Session.with_status session Session.transferred in
                  let st3 := set_sessions st2 (Session.save (sessions st2) session) in
                  let recommendations :=
                    recommendations_of
                      (RE.getRecommendations (Some (Session.parsedIntent session)) 5
                                             (Returned (catalog st3))) in
                  (Emit socket (kiosk_sessionData session recommendations)
                   :: (if negb (Js.falsy (Session.userId session)) then
                         match mobileNamespace st3 with
                         | Some _ =>
                             match getSocketByUserId cfg now st3
                                     (Some (Session.userId session)) mobile with
                             | Some mobileSocket =>
                                 [Emit mobileSocket
                                    (mobile_sessionTransferred (Session.sessionId session)
                                       "Your session has been transferred to the kiosk"
                                       (or_str kioskId "unknown"))]
                             | None => []
                             end
                         | None => []
                         end
                       else []), st3)
              end
          end
    end.
Proof.
  intros Hq Hs. cbv zeta. unfold kiosk_scanQR at 1.
  rewrite !truthy_some, Hq, Hs. cbn [negb orb].
  rewrite !or_str_some by done.
  fold (after_kiosk_registration cfg socket kioskId st).
  destruct (QrService.validateQR _ _ _ _ _) as [[sid |] db]; cbn [fst snd];
    [| reflexivity].
  rewrite truthy_some. destruct (Js.falsy sid) eqn:Hsid; cbn [negb]; [reflexivity |].
  destruct mongo as [u | e]; [| reflexivity].
  rewrite or_str_some by done. unfold Session.findOne.
  cbn [sessions set_redis]. rewrite sessions_after_registration.
  by destruct (sessions st !! sid).
Qed.

(** X9 (database outage). When the MongoDB calls of a request fail, no
    session changes, whatever the request. The store can still change: a
    scan that presents a valid token reports an error to the kiosk but has
    already spent the token, and [mobile:generateQR] reports an error to
    the phone but has already stored the token it does not deliver. *)
Theorem X9_database_outage cfg now e r st :
  let out := handle cfg now (Thrown e) r st in
  sessions (snd out) = sessions st
  /\ (forall socket qrId signature kioskId sessionId,
        r = KioskScanQR socket (Some qrId) (Some signature) kioskId ->
        fst (QrService.validateQR (env cfg) now qrId signature (redis st))
        = Some sessionId ->
        Js.falsy sessionId = false ->
        fst out = [Emit socket (kiosk_error "Error processing QR code" (Some e))]
        /\ forall env later sig,
             fst (QrService.validateQR env later qrId sig (redis (snd out))) = None)
  /\ (forall socket sessionId uuid q db',
        r = MobileGenerateQR socket (Some sessionId) uuid ->
        QrService.generateQR (env cfg) uuid now sessionId (redis st) = Returned (q, db') ->
        fst out = [Emit socket (mobile_error "Error generating QR code" (Some e))]
        /\ redis (snd out) = db').
Proof.
  intros out. subst out. split; [| split].
  - destruct r; cbn [handle snd].
    + apply sessions_set_namespace.
    + unfold disconnect. destruct (redis_client cfg); cbn; apply sessions_set_namespace.
    + unfold identify. destruct (_ && _); [apply sessions_register | reflexivity].
    + unfold mobile_message. repeat case_match; cbn [snd]; try reflexivity.
      apply sessions_register.
    + unfold mobile_generateQR. by repeat case_match.
    + unfold kiosk_scanQR. destruct (_ || _); [reflexivity |].
      fold (after_kiosk_registration cfg socket kioskId st).
      destruct (QrService.validateQR _ _ _ _ _) as [sid db].
      destruct (negb _); cbn [snd sessions set_redis];
        apply sessions_after_registration.
    + unfold kiosk_requestAssociate. by repeat case_match.
    + unfold cleanupExpiredQRs. by destruct (redis_client cfg).
    + unfold post_chat_message. by repeat case_match.
    + unfold get_chat_session. by repeat case_match.
    + unfold delete_chat_session. by repeat case_match.
    + unfold post_qr_generate. by repeat case_match.
    + unfold post_qr_validate. by repeat case_match.
    + unfold delete_qr. by repeat case_match.
  - intros socket qrId signature kioskId sessionId -> Hv Hsid. cbn [handle].
    assert (Hq : Js.falsy qrId = false /\ Js.falsy signature = false).
    { unfold QrService.validateQR in Hv.
      destruct (Js.falsy qrId), (Js.falsy signature); try discriminate. done. }
    destruct Hq as [Hq Hs]. rewrite (scan_body _ _ _ _ _ _ _ _ Hq Hs). cbv zeta.
    assert (Hsame : fst (QrService.validateQR (env cfg) now qrId signature
                           (redis (after_kiosk_registration cfg socket kioskId st)))
                    = Some sessionId).
    { rewrite <- Hv. apply validateQR_answer_ext, redis_after_registration_token. }
    destruct (QrService.validateQR (env cfg) now qrId signature
                (redis (after_kiosk_registration cfg socket kioskId st)))
      as [o db] eqn:Hval.
    cbn [fst] in Hsame. subst o. cbn [fst snd]. rewrite Hsid.
    split; [reflexivity |]. intros env later sig. cbn [snd redis set_redis].
    rewrite (validateQR_success_deletes _ _ _ _ _ _ _ Hval).
    by rewrite (validateQR_absent env later qrId sig _ (get_delete later _ _)).
  - intros socket sessionId uuid q db' -> Hgen. cbn [handle].
    destruct (generateQR_returned _ _ _ _ _ _ _ Hgen) as (_ & _ & Hsid & _ & _).
    unfold mobile_generateQR. rewrite truthy_some, Hsid. cbn [negb].
    rewrite or_str_some by done. by rewrite Hgen.
Qed.

Lemma X9_database_outage_witness :
  fst (QrService.validateQR (env demo_config) (demo_now + 1000) demo_id demo_sig
         (redis (State demo_db {["S1" := demo_session]} [] (Some ∅) (Some ∅))))
  = Some "S1"
  /\ fst (handle demo_config (demo_now + 1000) (Thrown "down")
            (KioskScanQR "k1" (Some demo_id) (Some demo_sig) None)
            (State demo_db {["S1" := demo_session]} [] (Some ∅) (Some ∅)))
     = [Emit "k1" (kiosk_error "Error processing QR code" (Some "down"))].
Proof.
  assert (Hv : fst (QrService.validateQR (env demo_config) (demo_now + 1000) demo_id
                      demo_sig
                      (redis (State demo_db {["S1" := demo_session]} [] (Some ∅) (Some ∅))))
               = Some "S1").
  { refine (issued_signature_accepted demo_env (demo_now + 1000) demo_id _
              "nexus-secret" "S1" demo_now eq_refl eq_refl _).
    reflexivity. }
  split; [exact Hv |].
  exact (proj1 (proj1 (proj2 (X9_database_outage demo_config (demo_now + 1000) "down"
                                (KioskScanQR "k1" (Some demo_id) (Some demo_sig) None)
                                (State demo_db {["S1" := demo_session]} []
                                       (Some ∅) (Some ∅))))
                  "k1" demo_id demo_sig None "S1" eq_refl Hv eq_refl)).
Defined.

(** A scan of a token that the store does not hold. *)
Lemma scan_refused cfg now mongo socket qrId sig kioskId st :
  Js.falsy qrId = false -> Js.falsy sig = false ->
  Redis.get now (redis st) (QrService.QR_KEY_PREFIX +:+ qrId) = None ->
  kiosk_scanQR cfg now mongo socket (Some qrId) (Some sig) kioskId st
  = ([Emit socket (kiosk_invalidQR "Invalid or expired QR code")],
     after_kiosk_registration cfg socket kioskId st).
Proof.
  intros Hq Hs Hg. rewrite (scan_body _ _ _ _ _ _ _ _ Hq Hs). cbv zeta.
  rewrite validateQR_absent.
  - cbn [fst snd]. by destruct (after_kiosk_registration cfg socket kioskId st).
  - rewrite <- Hg. apply get_ext, redis_after_registration_token.
Qed.

(** X10 (the REST validation spends the token). When
    [POST /api/qr/validate] presents a valid token, the token is deleted
    and the session is returned as it is: no session changes, so its status
    is not set to transferred. Every later scan of the same code at a
    kiosk, with whatever signature, is refused and changes no session
    either. *)
Theorem X10_rest_validate_spends cfg now mongo qrId signature st sessionId :
  fst (QrService.validateQR (env cfg) now qrId signature (redis st)) = Some sessionId ->
  let out := post_qr_validate cfg now mongo (Some qrId) (Some signature) st in
  sessions (snd out) = sessions st
  /\ redis (snd out) = delete (QrService.QR_KEY_PREFIX +:+ qrId) (redis st)
  /\ (forall u s, mongo = Returned u -> Js.falsy sessionId = false ->
        sessions st !! sessionId = Some s ->
        fst out = [Respond 200 (qr_validated s)])
  /\ (forall later mongo' socket sig' kioskId,
        let out' := kiosk_scanQR cfg later mongo' socket (Some qrId) sig' kioskId
                      (snd out) in
        sessions (snd out') = sessions st
        /\ exists reason, fst out' = [Emit socket (kiosk_invalidQR reason)]).
Proof.
  intros Hv out.
  assert (Hq : Js.falsy qrId = false /\ Js.falsy signature = false).
  { unfold QrService.validateQR in Hv.
    destruct (Js.falsy qrId), (Js.falsy signature); try discriminate. done. }
  destruct Hq as [Hq Hs].
  assert (Hout : snd out = set_redis st (delete (QrService.QR_KEY_PREFIX +:+ qrId) (redis st))
                 /\ forall u s, mongo = Returned u -> Js.falsy sessionId = false ->
                      sessions st !! sessionId = Some s ->
                      fst out = [Respond 200 (qr_validated s)]).
  { subst out. unfold post_qr_validate. rewrite !truthy_some, Hq, Hs. cbn [negb orb].
    rewrite !or_str_some by done.
    destruct (QrService.validateQR (env cfg) now qrId signature (redis st))
      as [o db] eqn:Hval.
    cbn [fst] in Hv. subst o.
    rewrite (validateQR_success_deletes _ _ _ _ _ _ _ Hval).
    split.
    - by repeat case_match.
    - intros u s -> Hsid Hfound. rewrite truthy_some, Hsid. cbn [negb].
      rewrite or_str_some by done. unfold Session.findOne.
      cbn [sessions set_redis]. by rewrite Hfound. }
  destruct Hout as [Hst Hans]. rewrite Hst. cbn [sessions redis set_redis].
  split; [reflexivity |]. split; [reflexivity |]. split; [exact Hans |].
  intros later mongo' socket sig' kioskId. cbv zeta.
  destruct sig' as [sig' |]; [destruct (Js.falsy sig') eqn:Hs' |].
  - unfold kiosk_scanQR. rewrite !truthy_some, Hs'. cbn [negb orb snd fst].
    rewrite orb_true_r. cbn [snd fst sessions set_redis]. eauto.
  - rewrite scan_refused; [| done | done | cbn [redis set_redis]; apply get_delete].
    cbn [snd fst]. rewrite sessions_after_registration. cbn [sessions set_redis]. eauto.
  - unfold kiosk_scanQR. cbn [truthy truthy_str negb orb].
    rewrite orb_true_r. cbn [snd fst sessions set_redis]. eauto.
Qed.

Lemma X10_rest_validate_spends_witness :
  fst (QrService.validateQR (env demo_config) (demo_now + 1000) demo_id demo_sig
         (redis (State demo_db {["S1" := demo_session]} [] (Some ∅) (Some ∅))))
  = Some "S1"
  /\ redis (snd (post_qr_validate demo_config (demo_now + 1000) (Returned tt)
                   (Some demo_id) (Some demo_sig)
                   (State demo_db {["S1" := demo_session]} [] (Some ∅) (Some ∅))))
     = delete (QrService.QR_KEY_PREFIX +:+ demo_id) demo_db.
Proof.
  assert (Hv : fst (QrService.validateQR (env demo_config) (demo_now + 1000) demo_id
                      demo_sig
                      (redis (State demo_db {["S1" := demo_session]} [] (Some ∅) (Some ∅))))
               = Some "S1").
  { refine (issued_signature_accepted demo_env (demo_now + 1000) demo_id _
              "nexus-secret" "S1" demo_now eq_refl eq_refl _).
    reflexivity. }
  split; [exact Hv |].
  exact (proj1 (proj2 (X10_rest_validate_spends demo_config (demo_now + 1000) (Returned tt)
                         demo_id demo_sig
                         (State demo_db {["S1" := demo_session]} [] (Some ∅) (Some ∅))
                         "S1" Hv))).
Defined.

(** X11 (a token for a session that does not exist). For a session id
    that is not in the collection, [POST /api/qr/generate] answers 404 and
    stores nothing, whereas [mobile:generateQR] issues and stores a token
    all the same and creates no session. A kiosk that scans that token
    within its five minutes is told "Session not found", and the token is
    spent. *)
Theorem X11_token_without_session cfg now uuid sessionId st key :
  QrService.secret (env cfg) = Some key ->
  Js.falsy sessionId = false -> Js.falsy uuid = false ->
  sessions st !! sessionId = None ->
  post_qr_generate cfg now (Returned tt) uuid (Some sessionId) st
  = ([Respond 404 (failure "Session not found")], st)
  /\ forall socket,
       let out := mobile_generateQR cfg now (Returned tt) uuid socket (Some sessionId) st in
       exists q,
         fst out = [Emit socket (mobile_qrGenerated q)]
         /\ QrService.qrId q = uuid
         /\ sessions (snd out) = sessions st
         /\ redis (snd out)
            = Redis.setex now (redis st) (QrService.QR_KEY_PREFIX +:+ uuid) QrService.QR_TTL
                (Redis.QrRecord sessionId now)
         /\ forall later kioskSocket kioskId,
              later < now + 300000 ->
              let out' := kiosk_scanQR cfg later (Returned tt) kioskSocket (Some uuid)
                            (Some (QrService.signature q)) kioskId (snd out) in
              fst out' = [Emit kioskSocket (kiosk_invalidQR "Session not found")]
              /\ sessions (snd out') = sessions st
              /\ redis (snd out') !! (QrService.QR_KEY_PREFIX +:+ uuid) = None.
Proof.
  intros Hkey Hsid Hid Hnone. split.
  - unfold post_qr_generate. rewrite truthy_some, Hsid. cbn [negb].
    rewrite or_str_some by done. unfold Session.findOne. by rewrite Hnone.
  - intros socket out. subst out. unfold mobile_generateQR.
    rewrite truthy_some, Hsid. cbn [negb]. rewrite or_str_some by done.
    unfold QrService.generateQR. rewrite Hsid, Hkey.
    unfold Session.findOne. cbn [sessions set_redis]. rewrite Hnone.
    eexists. cbn [fst snd sessions redis set_redis QrService.qrId QrService.signature].
    split; [reflexivity |]. split; [reflexivity |]. split; [reflexivity |].
    split; [reflexivity |].
    intros later kioskSocket kioskId Hlater. cbv zeta. cbn [QrService.signature].
    set (db := Redis.setex now (redis st) (QrService.QR_KEY_PREFIX +:+ uuid)
                 QrService.QR_TTL (Redis.QrRecord sessionId now)).
    set (st1 := set_redis st db).
    rewrite (scan_body _ _ _ _ _ _ _ _ Hid (sign_truthy _ _ _ _)). cbv zeta.
    assert (Hg : Redis.get later (redis (after_kiosk_registration cfg kioskSocket kioskId st1))
                   (QrService.QR_KEY_PREFIX +:+ uuid)
                 = Some (Redis.QrRecord sessionId now)).
    { rewrite (get_ext later _ (redis st1) _
                 (redis_after_registration_token cfg kioskSocket kioskId st1 uuid)).
      subst st1 db. cbn [redis set_redis]. apply get_setex.
      unfold QrService.QR_TTL. lia. }
    rewrite (validateQR_entry (env cfg) later uuid _ _ key sessionId now Hid
               (sign_truthy _ _ _ _) Hkey Hg).
    rewrite (proj2 (compare_match _ _) (accepts_refl _)).
    cbn [fst snd]. rewrite Hsid.
    subst st1. cbn [sessions set_redis]. rewrite Hnone.
    cbn [fst snd sessions redis set_redis].
    split; [reflexivity |]. split; [by rewrite sessions_after_registration |].
    apply lookup_delete_eq.
Qed.

Lemma X11_token_without_session_witness :
  QrService.secret (env demo_config) = Some "nexus-secret"
  /\ post_qr_generate demo_config demo_now (Returned tt) demo_id (Some "S2") demo_state
     = ([Respond 404 (failure "Session not found")], demo_state).
Proof.
  split; [reflexivity |].
  exact (proj1 (X11_token_without_session demo_config demo_now demo_id "S2" demo_state
                  "nexus-secret" eq_refl eq_refl eq_refl eq_refl)).
Defined.

(** X12 (deleting a session). [DELETE /api/chat/session/:id] of a
    stored session answers 200 and removes that document only; a following
    GET or DELETE of the same id answers 404. The store is not touched, so
    a token issued for the session stays valid: a scan of it is told
    "Session not found", and only then is the token gone. *)
Theorem X12_delete_session cfg sessionId st s :
  Js.falsy sessionId = false -> sessions st !! sessionId = Some s ->
  let out := delete_chat_session (Returned tt) sessionId st in
  fst out = [Respond 200 (session_deleted sessionId)]
  /\ sessions (snd out) = delete sessionId (sessions st)
  /\ redis (snd out) = redis st
  /\ get_chat_session (Returned tt) sessionId (snd out)
     = ([Respond 404 (failure "Session not found")], snd out)
  /\ delete_chat_session (Returned tt) sessionId (snd out)
     = ([Respond 404 (failure "Session not found")], snd out)
  /\ (forall now socket qrId signature kioskId,
        fst (QrService.validateQR (env cfg) now qrId signature (redis st))
        = Some sessionId ->
        let out' := kiosk_scanQR cfg now (Returned tt) socket (Some qrId) (Some signature)
                      kioskId (snd out) in
        fst out' = [Emit socket (kiosk_invalidQR "Session not found")]
        /\ sessions (snd out') = delete sessionId (sessions st)
        /\ redis (snd out') !! (QrService.QR_KEY_PREFIX +:+ qrId) = None).
Proof.
  intros Hsid Hs out.
  assert (Hout : out = ([Respond 200 (session_deleted sessionId)],
                        set_sessions st (delete sessionId (sessions st)))).
  { subst out. unfold delete_chat_session, Session.deleteOne. by rewrite Hsid, Hs. }
  rewrite Hout. cbn [fst snd sessions redis set_sessions].
  split; [reflexivity |]. split; [reflexivity |]. split; [reflexivity |].
  split; [| split].
  - unfold get_chat_session, Session.findOne. rewrite Hsid.
    cbn [sessions set_sessions]. by rewrite lookup_delete_eq.
  - unfold delete_chat_session, Session.deleteOne. rewrite Hsid.
    cbn [sessions set_sessions]. by rewrite lookup_delete_eq.
  - intros now socket qrId signature kioskId Hv. cbv zeta.
    assert (Hq : Js.falsy qrId = false /\ Js.falsy signature = false).
    { unfold QrService.validateQR in Hv.
      destruct (Js.falsy qrId), (Js.falsy signature); try discriminate. done. }
    destruct Hq as [Hq Hsig].
    set (st1 := set_sessions st (delete sessionId (sessions st))).
    rewrite (scan_body _ _ _ _ _ _ _ _ Hq Hsig). cbv zeta.
    assert (Hsame : fst (QrService.validateQR (env cfg) now qrId signature
                           (redis (after_kiosk_registration cfg socket kioskId st1)))
                    = Some sessionId).
    { rewrite <- Hv. apply validateQR_answer_ext.
      apply (redis_after_registration_token cfg socket kioskId st1 qrId). }
    destruct (QrService.validateQR (env cfg) now qrId signature
                (redis (after_kiosk_registration cfg socket kioskId st1)))
      as [o db] eqn:Hval.
    cbn [fst] in Hsame. subst o. cbn [fst snd]. rewrite Hsid.
    subst st1. cbn [sessions set_sessions]. rewrite lookup_delete_eq.
    cbn [fst snd sessions redis set_redis].
    split; [reflexivity |]. split; [by rewrite sessions_after_registration |].
    rewrite (validateQR_success_deletes _ _ _ _ _ _ _ Hval). apply lookup_delete_eq.
Qed.

Lemma X12_delete_session_witness :
  Js.falsy "S1" = false
  /\ sessions demo_state !! "S1" = Some demo_session
  /\ get_chat_session (Returned tt) "S1"
       (snd (delete_chat_session (Returned tt) "S1" demo_state))
     = ([Respond 404 (failure "Session not found")],
        snd (delete_chat_session (Returned tt) "S1" demo_state)).
Proof.
  split; [reflexivity |]. split; [exact demo_state_lookup |].
  exact (proj1 (proj2 (proj2 (proj2
           (X12_delete_session demo_config "S1" demo_state demo_session
              eq_refl demo_state_lookup))))).
Defined.

(** X13 (incomplete requests have no effect). A request that lacks a
    field its handler requires (or, for [POST /api/chat/message], whose
    message is blank) changes nothing at all: no session, no token, no
    registration. It is answered by one error event without a cause or by
    one 400 response; an [identify] without an identity is not answered. *)
Theorem X13_incomplete_refused cfg now mongo r st :
  incomplete r = true ->
  let out := handle cfg now mongo r st in
  snd out = st
  /\ match r with
     | Identify _ _ _ => fst out = []
     | _ => exists o, fst out = [o] /\ refusal o
     end.
Proof.
  intros Hr out. subst out.
  destruct r; cbn [incomplete] in Hr; try discriminate; cbn [handle].
  - unfold identify. apply negb_true_iff in Hr. by rewrite Hr.
  - unfold mobile_message.
    destruct sessionId as [sid |], userId as [uid |], msg as [m |];
      try (split; [reflexivity | by eexists]).
    rewrite !truthy_some, !negb_involutive in Hr. rewrite Hr.
    split; [reflexivity | by eexists].
  - unfold mobile_generateQR. rewrite Hr. split; [reflexivity | by eexists].
  - unfold kiosk_scanQR. rewrite Hr. split; [reflexivity | by eexists].
  - unfold kiosk_requestAssociate. rewrite Hr. split; [reflexivity | by eexists].
  - unfold post_chat_message.
    destruct (negb (truthy sessionId) || negb (truthy userId) || negb (truthy msg));
      [split; [reflexivity | by eexists] |].
    cbn [orb] in Hr. rewrite Hr. split; [reflexivity | by eexists].
  - unfold get_chat_session. rewrite Hr. split; [reflexivity | by eexists].
  - unfold delete_chat_session. rewrite Hr. split; [reflexivity | by eexists].
  - unfold post_qr_generate. rewrite Hr. split; [reflexivity | by eexists].
  - unfold post_qr_validate. rewrite Hr. split; [reflexivity | by eexists].
  - unfold delete_qr. rewrite Hr. split; [reflexivity | by eexists].
Qed.

Lemma X13_incomplete_refused_witness :
  incomplete (KioskScanQR "k1" (Some demo_id) None (Some "K7")) = true
  /\ snd (handle demo_config demo_now (Returned tt)
            (KioskScanQR "k1" (Some demo_id) None (Some "K7")) demo_state)
     = demo_state.
Proof.
  split; [reflexivity |].
  exact (proj1 (X13_incomplete_refused demo_config demo_now (Returned tt)
                  (KioskScanQR "k1" (Some demo_id) None (Some "K7")) demo_state eq_refl)).
Defined.

(** *** What happens to a session *)

Lemma update_saved (c : Session.collection) s0 s1 k s' :
  Session.sessionId s1 = Session.sessionId s0 ->
  update s0 s1 ->
  Session.save c s1 !! k = Some s' ->
  (k = Session.sessionId s0 /\ s' = s1) \/ (k <> Session.sessionId s0 /\ c !! k = Some s').
Proof.
  intros Hid Hup. unfold Session.save. rewrite Hid.
  destruct (decide (Session.sessionId s0 = k)) as [<- | Hne].
  - rewrite lookup_insert_eq. intros [= <-]. by left.
  - rewrite lookup_insert_ne by done. intros H. right. by split.
Qed.

Lemma absorb_update now s0 m :
  update s0 (fst (absorb now s0 m))
  /\ Session.sessionId (fst (absorb now s0 m)) = Session.sessionId s0.
Proof.
  unfold absorb. cbn [fst]. split; [| reflexivity].
  eapply (extended _ _ [Message m "user" now]); [by left | reflexivity].
Qed.

(** Every request leaves a stored session as it was, or updates it in one
    of the ways of [update]; a session that appears was created by a
    message. *)
Lemma handle_update cfg now mongo r st k s' :
  wf st ->
  sessions (snd (handle cfg now mongo r st)) !! k = Some s' ->
  (exists s, sessions st !! k = Some s /\ update s s')
  \/ (sessions st !! k = None /\ exists uid, update (new_session k uid) s').
Proof.
  intros Hwf.
  assert (Hsame : sessions st !! k = Some s' ->
            (exists s, sessions st !! k = Some s /\ update s s')
            \/ (sessions st !! k = None /\ exists uid, update (new_session k uid) s')).
  { intros H. left. exists s'. split; [done | by apply kept_as_is]. }
  assert (Hsave : forall s0 s1,
            Session.sessionId s1 = Session.sessionId s0 -> update s0 s1 ->
            (sessions st !! Session.sessionId s0 = Some s0
             \/ (sessions st !! Session.sessionId s0 = None
                 /\ exists uid, s0 = new_session (Session.sessionId s0) uid)) ->
            Session.save (sessions st) s1 !! k = Some s' ->
            (exists s, sessions st !! k = Some s /\ update s s')
            \/ (sessions st !! k = None /\ exists uid, update (new_session k uid) s')).
  { intros s0 s1 Hid Hup Hwhere Hl.
    destruct (update_saved _ _ _ _ _ Hid Hup Hl) as [[-> ->] | [_ Hold]];
      [| by apply Hsame].
    destruct Hwhere as [Hfound | [Hnone (uid & Hnew)]].
    - left. by exists s0.
    - right. split; [done |]. exists uid. by rewrite <- Hnew. }
  assert (Hfind : forall sid uid,
            let s0 := match Session.findOne (sessions st) sid with
                      | Some s => s
                      | None => new_session sid uid
                      end in
            sessions st !! Session.sessionId s0 = Some s0
            \/ (sessions st !! Session.sessionId s0 = None
                /\ exists uid, s0 = new_session (Session.sessionId s0) uid)).
  { intros sid uid. cbv zeta. unfold Session.findOne.
    destruct (sessions st !! sid) as [s |] eqn:Hs.
    - left. by rewrite (Hwf _ _ Hs).
    - right. cbn [new_session Session.sessionId]. split; [done | by exists uid]. }
  destruct r; cbn [handle snd].
  - unfold connect. cbn [snd]. rewrite sessions_set_namespace. apply Hsame.
  - unfold disconnect. destruct (redis_client cfg); cbn [sessions set_redis];
      rewrite sessions_set_namespace; apply Hsame.
  - unfold identify. destruct (_ && _); cbn [snd];
      rewrite ?sessions_register; apply Hsame.
  - unfold mobile_message.
    destruct sessionId as [sid |], userId as [uid |], msg as [m |]; try apply Hsame.
    destruct (_ || _); [apply Hsame |].
    destruct mongo as [u | e]; cbn [snd]; [| rewrite sessions_register; apply Hsame].
    pose proof (Hfind sid uid) as Hwhere. cbv zeta in Hwhere.
    rewrite sessions_register.
    set (s0 := match Session.findOne (sessions st) sid with
               | Some s => s
               | None => new_session sid uid
               end) in *.
    destruct (absorb_update now s0 m) as [Hup Hid].
    destruct (absorb now s0 m) as [s1 parsed]. cbn [fst] in Hup, Hid.
    cbn [snd sessions set_sessions]. rewrite ?sessions_register.
    by apply (Hsave s0 s1).
  - unfold mobile_generateQR. destruct (negb _); [apply Hsame |].
    destruct (QrService.generateQR _ _ _ _ _) as [[q db] | e]; [| apply Hsame].
    destruct mongo as [u | e]; [| apply Hsame].
    cbn [snd sessions set_redis]. unfold Session.findOne.
    destruct (sessions st !! or_str sessionId "") as [s |] eqn:Hs;
      cbn [sessions set_sessions set_redis]; [| apply Hsame].
    apply (Hsave s (Session.with_qr s (QrService.qrId q) (QrService.expiresAt q)));
      [reflexivity | by eapply coded |].
    left. by rewrite (Hwf _ _ Hs).
  - unfold kiosk_scanQR. destruct (_ || _); [apply Hsame |].
    fold (after_kiosk_registration cfg socket kioskId st).
    destruct (QrService.validateQR _ _ _ _ _) as [sid db].
    destruct (negb _); cbn [snd sessions set_redis];
      [rewrite sessions_after_registration; apply Hsame |].
    destruct mongo as [u | e]; cbn [snd sessions set_redis];
      [| rewrite sessions_after_registration; apply Hsame].
    unfold Session.findOne. rewrite sessions_after_registration.
    destruct (sessions st !! or_str sid "") as [s |] eqn:Hs;
      cbn [snd sessions set_sessions set_redis];
      rewrite ?sessions_after_registration; [| apply Hsame].
    apply (Hsave s (Session.with_status s Session.transferred));
      [reflexivity | by apply handed_over |].
    left. by rewrite (Hwf _ _ Hs).
  - unfold kiosk_requestAssociate.
    intros H. apply Hsame. revert H. by repeat case_match.
  - unfold cleanupExpiredQRs. destruct (redis_client cfg); apply Hsame.
  - unfold post_chat_message. destruct (_ || _); [apply Hsame |].
    destruct (blank _); [apply Hsame |].
    destruct mongo as [u | e]; [| apply Hsame].
    pose proof (Hfind (or_str sessionId "") (or_str userId "")) as Hwhere.
    cbv zeta in Hwhere.
    set (s0 := match Session.findOne (sessions st) (or_str sessionId "") with
               | Some s => s
               | None => new_session (or_str sessionId "") (or_str userId "")
               end) in *.
    unfold absorb. cbn [snd sessions set_sessions Session.conversationHistory
                          Session.with_message Session.parsedIntent Session.tags].
    apply (Hsave s0); [reflexivity | | exact Hwhere].
    eapply (extended _ _ [Message (or_str msg "") "user" now; Message _ "ai" now]);
      [by right |].
    unfold Session.with_message.
    cbn [Session.sessionId Session.userId Session.qrCode Session.qrExpiry Session.status].
    by rewrite <- app_assoc.
  - unfold get_chat_session. intros H. apply Hsame. revert H. by repeat case_match.
  - unfold delete_chat_session. destruct (Js.falsy sessionId); [apply Hsame |].
    destruct mongo as [u | e]; [| apply Hsame].
    unfold Session.deleteOne. destruct (_ =? 0); [apply Hsame |].
    cbn [snd sessions set_sessions]. intros H.
    destruct (decide (sessionId = k)) as [-> | Hne].
    + by rewrite lookup_delete_eq in H.
    + rewrite lookup_delete_ne in H by done. by apply Hsame.
  - unfold post_qr_generate. destruct (negb _); [apply Hsame |].
    destruct mongo as [u | e]; [| apply Hsame].
    unfold Session.findOne.
    destruct (sessions st !! or_str sessionId "") as [s |] eqn:Hs; [| apply Hsame].
    destruct (QrService.generateQR _ _ _ _ _) as [[q db] | e]; [| apply Hsame].
    cbn [snd sessions set_sessions set_redis].
    apply (Hsave s (Session.with_qr s (QrService.qrId q) (QrService.expiresAt q)));
      [reflexivity | by eapply coded |].
    left. by rewrite (Hwf _ _ Hs).
  - unfold post_qr_validate. intros H. apply Hsame. revert H. by repeat case_match.
  - unfold delete_qr. intros H. apply Hsame. revert H. by repeat case_match.
Qed.

Lemma update_history s s' :
  update s s' ->
  Session.sessionId s' = Session.sessionId s
  /\ Session.userId s' = Session.userId s
  /\ exists added,
       Session.conversationHistory s' = Session.conversationHistory s ++ added
       /\ Forall known_sender added
       /\ (length added <= 2)%nat.
Proof.
  intros [-> | added i ts Hsenders -> | code expiry -> | ->];
    (split; [reflexivity |]); (split; [reflexivity |]).
  - exists []. rewrite app_nil_r. split; [done |]. split; [constructor | cbn; lia].
  - exists added. split; [reflexivity |].
    destruct Hsenders as [H | H].
    + destruct added as [| a [| b more]]; try discriminate.
      injection H as Ha. split; [| cbn; lia].
      constructor; [by left | constructor].
    + destruct added as [| a [| b [| c more]]]; try discriminate.
      injection H as Ha Hb. split; [| cbn; lia].
      constructor; [by left |]. constructor; [by right | constructor].
  - exists []. cbn. rewrite app_nil_r. split; [done |]. split; [constructor | cbn; lia].
  - exists []. cbn. rewrite app_nil_r. split; [done |]. split; [constructor | cbn; lia].
Qed.

Lemma update_sound s s' : update s s' -> sound_session s -> sound_session s'.
Proof.
  intros Hup (Hstatus & Hqr & Hsenders).
  destruct (update_history s s' Hup) as (_ & _ & added & Hh & Hadded & _).
  split; [| split].
  - destruct Hup as [-> | ? ? ? _ -> | ? ? -> | ->]; cbn; done.
  - destruct Hup as [-> | ? ? ? _ -> | ? ? -> | ->]; cbn; done.
  - rewrite Hh. by apply Forall_app.
Qed.

Lemma new_session_sound k uid : sound_session (new_session k uid).
Proof. split; [done |]. split; [done | constructor]. Qed.

Lemma handle_sound cfg now mongo r st :
  wf st ->
  (forall k s, sessions st !! k = Some s -> sound_session s) ->
  forall k s, sessions (snd (handle cfg now mongo r st)) !! k = Some s -> sound_session s.
Proof.
  intros Hwf Hsound k s' Hs'.
  destruct (handle_update _ _ _ _ _ _ _ Hwf Hs') as [(s & Hs & Hup) | (_ & uid & Hup)].
  - eapply update_sound; [exact Hup | by eapply Hsound].
  - eapply update_sound; [exact Hup | apply new_session_sound].
Qed.

(** X14 (what is stored of a session). In every state the server reaches
    from start-up, each session is filed under its own id, its status is
    active or transferred (no request ever marks a session expired), a
    token id is recorded exactly when an expiry is, and every entry of the
    conversation history is from the user or from the assistant. *)
Theorem X14_sessions_sound cfg products trace k s :
  sessions (run cfg trace (initial products)) !! k = Some s ->
  Session.sessionId s = k /\ sound_session s.
Proof.
  assert (Hgen : forall st,
            wf st -> (forall k s, sessions st !! k = Some s -> sound_session s) ->
            forall k s, sessions (run cfg trace st) !! k = Some s -> sound_session s).
  { induction trace as [| a more IH]; intros st Hwf Hsound; [exact Hsound |].
    cbn [run]. apply IH; [by apply handle_wf | by apply handle_sound]. }
  intros Hs. split.
  - exact (run_wf cfg trace _ (initial_wf products) _ _ Hs).
  - apply (Hgen (initial products) (initial_wf products)) with k; [| exact Hs].
    intros k' s' H. cbn in H. by rewrite lookup_empty in H.
Qed.

Lemma X14_sessions_sound_witness :
  sessions (run demo_config
              [Arrival demo_now (Returned tt)
                 (MobileMessage "m1" (Some "S1") (Some "u1") (Some "hello"))]
              (initial []))
  !! "S1"
  = Some (fst (absorb demo_now (new_session "S1" "u1") "hello"))
  /\ sound_session (fst (absorb demo_now (new_session "S1" "u1") "hello")).
Proof.
  assert (H : sessions (run demo_config
                          [Arrival demo_now (Returned tt)
                             (MobileMessage "m1" (Some "S1") (Some "u1") (Some "hello"))]
                          (initial []))
              !! "S1"
              = Some (fst (absorb demo_now (new_session "S1" "u1") "hello"))).
  { vm_compute. reflexivity. }
  split; [exact H |].
  exact (proj2 (X14_sessions_sound demo_config [] _ "S1" _ H)).
Defined.

(** X15 (the history only grows). As long as a session is not deleted,
    whatever requests arrive, it stays in the collection under the same id
    and for the same user, and its conversation history keeps every entry
    it had, in order, with new entries (each from the user or the
    assistant) added at the end. *)
Theorem X15_history_grows cfg trace st k s :
  wf st -> sessions st !! k = Some s ->
  Forall (fun a => request_of a <> DeleteChatSession k) trace ->
  exists s' added,
    sessions (run cfg trace st) !! k = Some s'
    /\ Session.conversationHistory s' = Session.conversationHistory s ++ added
    /\ Forall known_sender added
    /\ Session.userId s' = Session.userId s
    /\ Session.sessionId s' = k.
Proof.
  revert st s. induction trace as [| a more IH]; intros st s Hwf Hs Hnodel.
  - exists s, []. cbn [run]. rewrite app_nil_r.
    repeat split; [done | constructor | by apply Hwf].
  - apply Forall_cons in Hnodel as [Ha Hmore]. cbn [run].
    pose proof (handle_effect cfg (at_time a) (mongo_of a) (request_of a) st Hwf) as He.
    destruct (effect_kept _ _ _ _ _ He Ha Hs) as [s1 Hs1].
    destruct (handle_update _ _ _ _ _ _ _ Hwf Hs1) as [(s0 & Hs0 & Hup) | [Hnone _]];
      [| congruence].
    assert (s0 = s) by congruence. subst s0.
    destruct (update_history _ _ Hup) as (_ & Huid & added1 & Hh1 & Hk1 & _).
    destruct (IH _ s1 (handle_wf _ _ _ _ _ Hwf) Hs1 Hmore)
      as (s' & added & Hs' & Hh & Hk & Hu & Hid).
    exists s', (added1 ++ added). split; [exact Hs' |].
    split; [by rewrite Hh, Hh1, app_assoc |].
    split; [by apply Forall_app |].
    split; [congruence | exact Hid].
Qed.

Lemma X15_history_grows_witness :
  wf demo_state /\ sessions demo_state !! "S1" = Some demo_session
  /\ exists s' added,
       sessions (run demo_config
                   [Arrival demo_now (Returned tt)
                      (PostChatMessage (Some "S1") (Some "u1") (Some "hello"))]
                   demo_state) !! "S1" = Some s'
       /\ Session.conversationHistory s' = Session.conversationHistory demo_session ++ added
       /\ Forall known_sender added
       /\ Session.userId s' = Session.userId demo_session
       /\ Session.sessionId s' = "S1".
Proof.
  split; [exact demo_state_wf |]. split; [exact demo_state_lookup |].
  apply (X15_history_grows demo_config _ demo_state "S1" demo_session
           demo_state_wf demo_state_lookup).
  constructor; [discriminate | constructor].
Defined.

End HandlerFacts.

(** ** What the recommender returns *)

Module RecommenderFacts.

Import ContextEngine RecommendationEngine Spec Demo Recommender.

Lemma compare_ranks a b : compare_products a b <= 0 <-> ranks_before a b.
Proof.
  unfold compare_products, ranks_before.
  destruct (Z.eqb_spec (score b) (score a)); cbn [negb]; lia.
Qed.

Lemma ranks_total a b : ~ ranks_before a b -> ranks_before b a.
Proof. unfold ranks_before. lia. Qed.

Lemma ranks_trans a b c : ranks_before a b -> ranks_before b c -> ranks_before a c.
Proof. unfold ranks_before. lia. Qed.

Lemma ranked_insert_sorted x l : ranked l -> ranked (insert_sorted x l).
Proof.
  induction l as [| y r IH]; cbn [insert_sorted ranked]; [by split |].
  intros [Hy Hr]. destruct (Z.leb_spec (compare_products x y) 0) as [Hle | Hgt].
  - apply compare_ranks in Hle. cbn [ranked]. split; [| by split].
    constructor; [done |].
    eapply Forall_impl; [exact Hy |]. intros z Hz. by eapply ranks_trans.
  - assert (Hyx : ranks_before y x).
    { apply ranks_total. intros H. apply compare_ranks in H. lia. }
    cbn [ranked]. split; [| by apply IH].
    by apply Forall_insert_sorted.
Qed.

Lemma ranked_sort l : ranked (sort l).
Proof.
  induction l as [| x r IH]; cbn [sort]; [done | by apply ranked_insert_sorted].
Qed.

Lemma ranked_take n l : ranked l -> ranked (take n l).
Proof.
  revert n. induction l as [| a r IH]; intros [| n]; cbn; try done.
  intros [Ha Hr]. split; [by apply Forall_take | by apply IH].
Qed.

Lemma ranked_slice0 l e : ranked l -> ranked (slice0 l e).
Proof. intros H. unfold slice0. destruct (e <? 0); by apply ranked_take. Qed.

Lemma selection_ranked i limit available : ranked (selection i limit available).
Proof.
  unfold selection, applyCategoryDiversity.
  apply ranked_slice0, ranked_slice0, ranked_sort.
Qed.

(** Every answer is the empty one or a selection from the available
    products. *)
Lemma getRecommendations_products parsedIntent limit catalog :
  exists r,
    getRecommendations parsedIntent limit catalog = Returned r
    /\ (products r = []
        \/ exists i collection,
             parsedIntent = Some i /\ catalog = Returned collection
             /\ products r = selection i limit (find_available collection)).
Proof.
  unfold getRecommendations.
  destruct (recommend parsedIntent limit catalog) as [r | e] eqn:Hrec.
  - exists r. split; [reflexivity |].
    destruct (recommend_returned _ _ _ _ Hrec)
      as [-> | (i & collection & -> & -> & _ & Hp & _)]; [by left |].
    right. by exists i, collection.
  - exists nothing. split; [reflexivity | by left].
Qed.

(** X16 (the ranking). Whatever the intent, the limit and the catalogue,
    the products that [getRecommendations] returns are in ranking order:
    each one has a higher final score than every product after it or, at
    the same score, at least as many items in stock. *)
Theorem X16_results_ranked parsedIntent limit catalog :
  exists r,
    getRecommendations parsedIntent limit catalog = Returned r
    /\ ranked (products r).
Proof.
  destruct (getRecommendations_products parsedIntent limit catalog)
    as (r & Hr & [Hp | (i & collection & _ & _ & Hp)]); exists r; (split; [exact Hr |]).
  - by rewrite Hp.
  - rewrite Hp. apply selection_ranked.
Qed.

(** *** Which products are returned *)

Lemma insert_sorted_perm x l : insert_sorted x l ≡ₚ x :: l.
Proof.
  induction l as [| y r IH]; cbn [insert_sorted]; [done |].
  destruct (compare_products x y <=? 0); [done |].
  rewrite IH. apply perm_swap.
Qed.

Lemma sort_perm l : sort l ≡ₚ l.
Proof.
  induction l as [| x r IH]; cbn [sort]; [done |].
  by rewrite insert_sorted_perm, IH.
Qed.

Lemma filter_sublist {A} (f : A -> bool) l : List.filter f l `sublist_of` l.
Proof.
  induction l as [| x r IH]; cbn [List.filter]; [constructor |].
  destruct (f x); by constructor.
Qed.

Lemma slice0_sublist {A} (l : list A) e : slice0 l e `sublist_of` l.
Proof. unfold slice0. destruct (e <? 0); apply sublist_take. Qed.

Lemma item_diversity_loop ps selected n limit :
  map item (diversity_loop ps selected n limit) = map item ps.
Proof.
  revert selected n. induction ps as [| p r IH]; intros selected n; [reflexivity |].
  cbn [diversity_loop]. destruct (_ && _); cbn [map item]; by rewrite IH.
Qed.

Lemma item_score_all ps i intentTags ignoreBudget :
  map item (score_all ps i intentTags ignoreBudget) = ps.
Proof.
  unfold score_all. rewrite map_map. cbn [item]. apply map_id.
Qed.

Lemma map_sublist {A B} (f : A -> B) l1 l2 :
  l1 `sublist_of` l2 -> map f l1 `sublist_of` map f l2.
Proof. induction 1; cbn [map]; by constructor. Qed.

Lemma map_submseteq {A B} (f : A -> B) l1 l2 : l1 ⊆+ l2 -> map f l1 ⊆+ map f l2.
Proof.
  induction 1; cbn [map]; try by constructor.
  by etrans.
Qed.

Lemma item_filter_score_all ps i intentTags ignoreBudget :
  map item (sort (List.filter (fun p => 20 <=? score p)
                              (score_all ps i intentTags ignoreBudget)))
  ⊆+ ps.
Proof.
  rewrite (Permutation_map item (sort_perm _)).
  etrans; [apply sublist_submseteq, map_sublist, filter_sublist |].
  by rewrite item_score_all.
Qed.

Lemma selection_items i limit available :
  map item (selection i limit available) ⊆+ available.
Proof.
  unfold selection, applyCategoryDiversity.
  etrans; [apply sublist_submseteq, map_sublist, slice0_sublist |].
  etrans; [apply sublist_submseteq, map_sublist, slice0_sublist |].
  rewrite (Permutation_map item (sort_perm _)), item_diversity_loop.
  destruct (_ && _); apply item_filter_score_all.
Qed.

Lemma price_score_range productPrice b :
  0 <= calculatePriceScore productPrice b <= 30.
Proof. unfold calculatePriceScore. repeat case_match; lia. Qed.

Lemma product_score_range p i intentTags ignoreBudget :
  0 <= calculateProductScore p i intentTags ignoreBudget <= 90.
Proof.
  unfold calculateProductScore.
  pose proof (price_score_range (price p) (budget i)).
  repeat case_match; lia.
Qed.

Lemma Forall_diversity_loop_upper m ps selected n limit :
  Forall (fun p => score p <= m) ps ->
  Forall (fun p => score p <= m + 10) (diversity_loop ps selected n limit).
Proof.
  intros H. revert selected n.
  induction H as [| p r Hp Hr IH]; intros selected n; cbn [diversity_loop];
    [constructor |].
  destruct (_ && _); constructor; cbn [score]; auto; lia.
Qed.

Lemma selection_upper i limit available :
  Forall (fun p => score p <= 100) (selection i limit available).
Proof.
  unfold selection, applyCategoryDiversity.
  apply Forall_slice0, Forall_slice0, Forall_sort.
  apply (Forall_diversity_loop_upper 90).
  assert (H : forall ignoreBudget tags,
            Forall (fun p => score p <= 90)
              (sort (List.filter (fun p => 20 <=? score p)
                                 (score_all available i tags ignoreBudget)))).
  { intros ignoreBudget tags. apply Forall_sort, List.Forall_forall.
    intros p Hp. apply List.filter_In in Hp as [Hp _].
    unfold score_all in Hp. apply in_map_iff in Hp as (q & <- & _). cbn [score].
    apply product_score_range. }
  destruct (_ && _); apply H.
Qed.

Lemma find_available_spec collection p :
  p ∈ find_available collection ->
  p ∈ collection /\ inStock p = true /\ 0 < stockCount p.
Proof.
  intros H. apply list_elem_of_In, List.filter_In in H as [Hin Hb].
  apply andb_true_iff in Hb as [Hs Hc]. apply list_elem_of_In in Hin.
  split; [done |]. split; [done | lia].
Qed.

(** X17 (what is recommended). Every product that [getRecommendations]
    returns is an entry of the catalogue that is in stock with a positive
    stock count, and its final score lies between 20 and 100. The returned
    products are distinct entries of the catalogue (the list of their
    documents, completed by some others, is a rearrangement of the
    available ones), so no product id is returned twice when the ids of the
    catalogue are distinct. When the catalogue cannot be read, nothing is
    returned. *)
Theorem X17_recommended_products parsedIntent limit catalog :
  exists r,
    getRecommendations parsedIntent limit catalog = Returned r
    /\ (forall e, catalog = Thrown e -> r = nothing)
    /\ forall collection, catalog = Returned collection ->
         Forall (fun p => item p ∈ collection /\ inStock (item p) = true
                          /\ 0 < stockCount (item p) /\ 20 <= score p <= 100)
                (products r)
         /\ (exists others, map item (products r) ++ others ≡ₚ find_available collection)
         /\ (NoDup (map productId collection) ->
             NoDup (map (fun p => productId (item p)) (products r))).
Proof.
  unfold getRecommendations.
  destruct (recommend parsedIntent limit catalog) as [r | e] eqn:Hrec.
  - exists r. split; [reflexivity |]. split.
    { intros e ->. unfold recommend in Hrec.
      destruct parsedIntent; [discriminate | by injection Hrec]. }
    intros collection ->.
    assert (Hsub : map item (products r) ⊆+ find_available collection
                   /\ Forall (fun p => 20 <= score p <= 100) (products r)).
    { destruct (recommend_returned _ _ _ _ Hrec)
        as [-> | (i & c & _ & [= <-] & _ & Hp & _)].
      - split; [apply submseteq_nil_l | constructor].
      - rewrite Hp. split; [apply selection_items |].
        pose proof (selection_scores i limit (find_available collection)) as Hlo.
        pose proof (selection_upper i limit (find_available collection)) as Hhi.
        rewrite List.Forall_forall in Hlo, Hhi |- *.
        intros p Hp'. split; [by apply Hlo | by apply Hhi]. }
    destruct Hsub as [Hsub Hscores]. split; [| split].
    + rewrite List.Forall_forall in Hscores |- *. intros p Hp.
      assert (Hin : item p ∈ find_available collection).
      { eapply elem_of_submseteq; [| exact Hsub].
        apply list_elem_of_In, in_map, Hp. }
      apply find_available_spec in Hin as (? & ? & ?).
      split; [done |]. split; [done |]. split; [done | by apply Hscores].
    + apply submseteq_Permutation in Hsub as [others Hperm].
      exists others. by symmetry.
    + intros Hnodup.
      assert (Hids : map productId (map item (products r)) ⊆+ map productId collection).
      { apply map_submseteq. etrans; [exact Hsub |].
        apply sublist_submseteq, filter_sublist. }
      rewrite map_map in Hids.
      apply submseteq_Permutation in Hids as [others Hperm].
      rewrite Hperm in Hnodup. by apply NoDup_app in Hnodup as [? _].
  - exists nothing. split; [reflexivity |]. split; [done |].
    intros collection ->. cbn [products nothing map].
    split; [constructor |]. split; [| intros _; constructor].
    exists (find_available collection). reflexivity.
Qed.

Lemma X17_recommended_products_witness :
  exists r,
    getRecommendations (Some demo_intent) 3 (Returned demo_catalog) = Returned r
    /\ NoDup (map productId demo_catalog)
    /\ NoDup (map (fun p => productId (item p)) (products r)).
Proof.
  assert (Hnodup : NoDup (map productId demo_catalog)).
  { apply (@bool_decide_unpack _ (NoDup_dec _)). vm_compute. exact I. }
  destruct (X17_recommended_products (Some demo_intent) 3 (Returned demo_catalog))
    as (r & Hr & _ & H).
  exists r. split; [exact Hr |]. split; [exact Hnodup |].
  exact (proj2 (proj2 (H demo_catalog eq_refl)) Hnodup).
Defined.

(** *** How many products are returned *)

Lemma length_diversity_loop ps selected n limit :
  List.length (diversity_loop ps selected n limit) = List.length ps.
Proof.
  revert selected n. induction ps as [| p r IH]; intros selected n; [reflexivity |].
  cbn [diversity_loop]. destruct (_ && _); cbn [List.length]; by rewrite IH.
Qed.

Lemma length_slice0_exact {A} (l : list A) e :
  0 <= e -> Z.of_nat (List.length (slice0 l e)) = Z.min e (Z.of_nat (List.length l)).
Proof.
  intros He. unfold slice0. destruct (Z.ltb_spec e 0); [lia |].
  rewrite length_take. lia.
Qed.

Lemma stock_score_passes p i intentTags ignoreBudget :
  5 < stockCount p -> 20 <= calculateProductScore p i intentTags ignoreBudget.
Proof.
  intros Hs. unfold calculateProductScore.
  pose proof (price_score_range (price p) (budget i)).
  destruct (Z.ltb_spec 5 (stockCount p)); [| lia].
  destruct ignoreBudget; lia.
Qed.

Lemma well_stocked_counted collection i intentTags ignoreBudget :
  (List.length (well_stocked collection)
   <= List.length (List.filter (fun p => (20 <=? score p)%Z)
                     (score_all (find_available collection) i intentTags ignoreBudget)))%nat.
Proof.
  unfold well_stocked, find_available, score_all.
  induction collection as [| p r IH]; [done |]. cbn [List.filter].
  destruct (inStock p) eqn:Hin; cbn [andb]; [| exact IH].
  destruct (Z.ltb_spec 5 (stockCount p)) as [Hs | Hs].
  - destruct (Z.ltb_spec 0 (stockCount p)); [| lia].
    cbn [map List.filter score].
    pose proof (stock_score_passes p i intentTags ignoreBudget Hs).
    destruct (Z.leb_spec 20 (calculateProductScore p i intentTags ignoreBudget)); [| lia].
    cbn [List.length]. lia.
  - destruct (0 <? stockCount p); [| exact IH].
    cbn [map List.filter score]. destruct (20 <=? _); cbn [List.length]; lia.
Qed.

Lemma length_selection i limit available :
  0 <= limit ->
  exists filtered ignoreBudget intentTags,
    filtered = List.filter (fun p => 20 <=? score p)
                 (score_all available i intentTags ignoreBudget)
    /\ Z.of_nat (List.length (selection i limit available))
       = Z.min limit (Z.of_nat (List.length filtered)).
Proof.
  intros Hl. unfold selection, applyCategoryDiversity.
  set (tags := match intent_tags i with
               | Some ts => map strip_hash ts
               | None => generateTagsFromIntent i
               end).
  destruct (_ && _).
  - eexists _, true, tags. split; [reflexivity |].
    rewrite !length_slice0_exact, length_sort, length_diversity_loop, length_sort by done.
    by rewrite Z.min_assoc, Z.min_id.
  - eexists _, false, tags. split; [reflexivity |].
    rewrite !length_slice0_exact, length_sort, length_diversity_loop, length_sort by done.
    by rewrite Z.min_assoc, Z.min_id.
Qed.

Lemma selection_nil i limit : selection i limit [] = [].
Proof.
  unfold selection, applyCategoryDiversity, score_all. cbn [map List.filter sort].
  destruct (_ && _); cbn [diversity_loop sort]; unfold slice0;
    destruct (limit <? 0); cbn [List.length]; by rewrite !take_nil.
Qed.

Lemma recommend_products i limit collection r :
  recommend (Some i) limit (Returned collection) = Returned r ->
  products r = selection i limit (find_available collection).
Proof.
  unfold recommend. destruct (find_available collection) as [| p0 rest].
  - intros [= <-]. by rewrite selection_nil.
  - by intros [= <-].
Qed.

(** X18 (well-stocked products always qualify). A product of which more
    than five are in stock scores at least 20 whatever the intent, so the
    score filter never excludes it. Hence, for an intent object and a
    limit that is not negative, [getRecommendations] returns at least as
    many products as the limit allows among the well-stocked ones: it
    comes back short of the limit only if fewer products than that have
    more than five in stock. *)
Theorem X18_well_stocked_qualify i limit collection :
  0 <= limit ->
  (forall p intentTags ignoreBudget,
     5 < stockCount p -> 20 <= calculateProductScore p i intentTags ignoreBudget)
  /\ exists r,
       getRecommendations (Some i) limit (Returned collection) = Returned r
       /\ Z.min limit (Z.of_nat (List.length (well_stocked collection)))
          <= Z.of_nat (List.length (products r)).
Proof.
  intros Hl. split; [intros; by apply stock_score_passes |].
  unfold getRecommendations.
  destruct (recommend (Some i) limit (Returned collection)) as [r | e] eqn:Hrec;
    [| unfold recommend in Hrec; destruct (find_available collection); discriminate].
  exists r. split; [reflexivity |].
  rewrite (recommend_products _ _ _ _ Hrec).
  destruct (length_selection i limit (find_available collection) Hl)
    as (filtered & ignoreBudget & tags & Hf & ->).
  pose proof (well_stocked_counted collection i tags ignoreBudget) as Hc.
  rewrite <- Hf in Hc. lia.
Qed.

Lemma X18_well_stocked_qualify_witness :
  0 <= 2
  /\ exists r,
       getRecommendations (Some empty_intent) 2 (Returned demo_catalog) = Returned r
       /\ Z.min 2 (Z.of_nat (List.length (well_stocked demo_catalog)))
          <= Z.of_nat (List.length (products r)).
Proof.
  split; [lia |].
  exact (proj2 (X18_well_stocked_qualify empty_intent 2 demo_catalog ltac:(lia))).
Defined.

(** *** The price score *)

Lemma over_budget_mono n p1 p2 :
  0 < n -> (p1 <= p2)%Q ->
  ((p1 - inject_Z n) / inject_Z n * 100 <= (p2 - inject_Z n) / inject_Z n * 100)%Q.
Proof.
  intros Hn Hp.
  apply Qmult_le_compat_r; [| discriminate].
  unfold Qdiv. apply Qmult_le_compat_r.
  - unfold Qminus. by apply Qplus_le_l.
  - apply Qinv_le_0_compat. unfold Qle. cbn. lia.
Qed.

(** X19 (the price score). For a fixed budget the price score never
    increases with the price: a cheaper product scores at least as much.
    The score is one of 0, 10, 15, 20 and 30, and against a positive
    numeric budget it is 30 exactly for the products priced within the
    budget. *)
Theorem X19_price_score_antitone b p1 p2 :
  (p1 <= p2)%Q ->
  calculatePriceScore p2 b <= calculatePriceScore p1 b
  /\ In (calculatePriceScore p1 b) [0; 10; 15; 20; 30]
  /\ forall n, b = Some (BNum n) -> 0 < n ->
       (calculatePriceScore p1 b = 30 <-> (p1 <= inject_Z n)%Q).
Proof.
  intros Hp. split; [| split].
  - unfold calculatePriceScore.
    destruct b as [[n | s] |]; [| lia | lia].
    destruct (Z.ltb_spec 0 n) as [Hn | Hn]; [| lia].
    pose proof (over_budget_mono n p1 p2 Hn Hp) as Hover.
    assert (Hdiff : (p1 - inject_Z n <= p2 - inject_Z n)%Q).
    { unfold Qminus. by apply Qplus_le_l. }
    destruct (Qle_bool (p2 - inject_Z n) 0) eqn:E2.
    + apply Qle_bool_iff in E2.
      assert (E1 : Qle_bool (p1 - inject_Z n) 0 = true).
      { apply Qle_bool_iff. by eapply Qle_trans. }
      rewrite E1. lia.
    + destruct (Qle_bool (p1 - inject_Z n) 0); [repeat case_match; lia |].
      destruct (Qle_bool ((p2 - inject_Z n) / inject_Z n * 100) 10) eqn:F2.
      * apply Qle_bool_iff in F2.
        assert (F1 : Qle_bool ((p1 - inject_Z n) / inject_Z n * 100) 10 = true).
        { apply Qle_bool_iff. by eapply Qle_trans. }
        rewrite F1. lia.
      * destruct (Qle_bool ((p1 - inject_Z n) / inject_Z n * 100) 10);
          [repeat case_match; lia |].
        destruct (Qle_bool ((p2 - inject_Z n) / inject_Z n * 100) 20) eqn:G2.
        -- apply Qle_bool_iff in G2.
           assert (G1 : Qle_bool ((p1 - inject_Z n) / inject_Z n * 100) 20 = true).
           { apply Qle_bool_iff. by eapply Qle_trans. }
           rewrite G1. lia.
        -- repeat case_match; lia.
  - unfold calculatePriceScore. repeat case_match; cbn; auto 10.
  - intros n -> Hn. unfold calculatePriceScore.
    destruct (Z.ltb_spec 0 n); [| lia].
    destruct (Qle_bool (p1 - inject_Z n) 0) eqn:E.
    + apply Qle_bool_iff in E. split; [intros _ | done].
      apply Qplus_le_l with (z := (- inject_Z n)%Q).
      rewrite Qplus_opp_r. exact E.
    + split; [repeat case_match; discriminate |].
      intros Hle. exfalso.
      assert (H0 : Qle_bool (p1 - inject_Z n) 0 = true).
      { apply Qle_bool_iff. unfold Qminus.
        rewrite <- (Qplus_opp_r (inject_Z n)). by apply Qplus_le_l. }
      congruence.
Qed.

Lemma X19_price_score_antitone_witness :
  (180 <= 215)%Q
  /\ calculatePriceScore 215 (Some (BNum 200)) <= calculatePriceScore 180 (Some (BNum 200)).
Proof.
  assert (H : (180 <= 215)%Q) by (unfold Qle; cbn; lia).
  split; [exact H |].
  exact (proj1 (X19_price_score_antitone (Some (BNum 200)) 180 215 H)).
Defined.

End RecommenderFacts.

(** ** What the context engine extracts *)

Module ContextFacts.

Import Regex ContextEngine Spec Demo Tags TokenFacts RecommenderFacts.

(** *** Patterns on a longer text *)

Section Extend.

Variable t : string.
Hypothesis t_apart : at_boundary None t = false.

Lemma boundary_extend prev s : at_boundary prev (s +:+ t) = at_boundary prev s.
Proof.
  destruct s as [| x r]; [| by rewrite str_app_cons].
  rewrite str_app_nil. unfold at_boundary in *. cbn in t_apart.
  destruct t as [| y u]; [reflexivity |]. cbn in t_apart. by rewrite t_apart.
Qed.

Lemma lit_extend {R} l prev s cap cap' (k k' : cont R) :
  carries t k k' ->
  is_Some (lit l prev s cap k) -> is_Some (lit l prev (s +:+ t) cap' k').
Proof.
  intros Hk. revert prev s. induction l as [| a l IH]; intros prev s; cbn [lit].
  - apply Hk.
  - destruct s as [| x r]; [by intros [? [=]] |]. rewrite str_app_cons.
    destruct (Ascii.eqb _ _); [apply IH | by intros [? [=]]].
Qed.

Lemma star_extend {R} c prev s cap cap' (k k' : cont R) :
  carries t k k' ->
  is_Some (star c prev s cap k) -> is_Some (star c prev (s +:+ t) cap' k').
Proof.
  intros Hk. revert prev. induction s as [| x r IH]; intros prev.
  - cbn [star]. rewrite str_app_nil. intros H. apply (Hk _ _ _ cap') in H.
    rewrite str_app_nil in H.
    destruct t as [| y u]; [exact H |]. cbn [star].
    destruct (in_cls c y); [| exact H].
    destruct (star c (Some y) u cap' k'); [done | exact H].
  - rewrite str_app_cons. cbn [star].
    destruct (in_cls c x).
    + destruct (star c (Some x) r cap k) eqn:E.
      * intros _. destruct (IH (Some x)) as [res ->]; [by rewrite E | done].
      * intros H. destruct (star c (Some x) (r +:+ t) cap' k'); [done |].
        rewrite <- str_app_cons. by apply (Hk _ _ cap).
    + intros H. rewrite <- str_app_cons. by apply (Hk _ _ cap).
Qed.

Lemma run_extend {R} p prev s cap cap' (k k' : cont R) :
  carries t k k' ->
  is_Some (run p prev s cap k) -> is_Some (run p prev (s +:+ t) cap' k').
Proof.
  revert prev s cap cap' k k'.
  induction p as [l | a IHa b IHb | a IHa b IHb | a IHa | c | c | | a IHa];
    intros prev s cap cap' k k' Hk; cbn [run].
  - by apply lit_extend.
  - apply IHa. intros prev' s' c c'. by apply IHb.
  - destruct (run a prev s cap k) eqn:E.
    + intros _. destruct (IHa prev s cap cap' k k' Hk) as [res ->]; [by rewrite E | done].
    + intros H. destruct (run a prev (s +:+ t) cap' k'); [done | by eapply IHb].
  - destruct (run a prev s cap k) eqn:E.
    + intros _. destruct (IHa prev s cap cap' k k' Hk) as [res ->]; [by rewrite E | done].
    + intros H. destruct (run a prev (s +:+ t) cap' k'); [done | by eapply Hk].
  - by apply star_extend.
  - destruct s as [| x r]; [by intros [? [=]] |]. rewrite str_app_cons.
    destruct (in_cls c x); [by apply star_extend | by intros [? [=]]].
  - rewrite boundary_extend. destruct (at_boundary prev s); [by apply Hk | by intros [? [=]]].
  - apply IHa. intros prev' s' c c'. apply Hk.
Qed.

Lemma search_extend p prev s :
  is_Some (search p prev s) -> is_Some (search p prev (s +:+ t)).
Proof.
  revert prev. induction s as [| x r IH]; intros prev.
  - cbn [search]. destruct (match_here p prev "") eqn:E; [| by intros [? [=]]].
    intros _. rewrite str_app_nil.
    assert (H : is_Some (match_here p prev t)).
    { unfold match_here in *. rewrite <- (str_app_nil t).
      eapply run_extend; [| by rewrite E]. by intros ? ? ? ? _. }
    destruct H as [g Hg]. destruct t; cbn [search]; by rewrite Hg.
  - rewrite str_app_cons. cbn [search]. rewrite <- str_app_cons.
    destruct (match_here p prev (String x r)) eqn:E.
    + intros _.
      assert (H : is_Some (match_here p prev (String x r +:+ t))).
      { unfold match_here in *. eapply run_extend; [| by rewrite E]. by intros ? ? ? ? _. }
      destruct H as [g Hg]. by rewrite Hg.
    + intros H. destruct (match_here p prev (String x r +:+ t)); [done | by apply IH].
Qed.

Lemma test_extend p s : test p s = true -> test p (s +:+ t) = true.
Proof.
  unfold test. intros H.
  destruct (search_extend p None s) as [g ->]; [| done].
  by destruct (search p None s).
Qed.

End Extend.

Lemma test_combined p previous text :
  test p previous = true -> test p (previous +:+ " " +:+ text) = true.
Proof. apply test_extend. reflexivity. Qed.

Lemma falsy_combined previous text :
  Js.falsy previous = false -> Js.falsy (previous +:+ " " +:+ text) = false.
Proof. destruct previous; [discriminate |]. by rewrite str_app_cons. Qed.

(** Destructs the tests on the earlier text, carries the successful ones
    over to the combined text, and compares the outcomes. *)
Ltac compare_tests previous text :=
  repeat match goal with
  | |- context [test ?p previous] =>
      let E := fresh "E" in
      destruct (test p previous) eqn:E; [apply (test_combined _ _ text) in E |]
  end;
  repeat match goal with
  | |- context [test ?p (previous +:+ " " +:+ text)] =>
      destruct (test p (previous +:+ " " +:+ text)) eqn:?
  end;
  try congruence; cbn; lia.

Lemma occasion_kept previous text :
  Js.falsy previous = false ->
  (position (extractOccasion (previous +:+ " " +:+ text)
                             (Some (extractOccasion previous None))) occasions
   <= position (extractOccasion previous None) occasions)%nat.
Proof.
  intros H. unfold extractOccasion. rewrite H, (falsy_combined _ text H).
  compare_tests previous text.
Qed.

Lemma style_kept previous text :
  Js.falsy previous = false ->
  (position (extractStyle (previous +:+ " " +:+ text)
                          (Some (extractStyle previous None))) styles
   <= position (extractStyle previous None) styles)%nat.
Proof.
  intros H. unfold extractStyle. rewrite H, (falsy_combined _ text H).
  compare_tests previous text.
Qed.

Lemma season_kept previous text :
  Js.falsy previous = false ->
  (position (extractSeason (previous +:+ " " +:+ text)
                           (Some (extractSeason previous None))) seasons
   <= position (extractSeason previous None) seasons)%nat.
Proof.
  intros H. unfold extractSeason. rewrite H, (falsy_combined _ text H).
  compare_tests previous text.
Qed.

Lemma urgency_kept previous text :
  Js.falsy previous = false ->
  (position (extractUrgency (previous +:+ " " +:+ text)
                            (Some (extractUrgency previous None))) urgencies
   <= position (extractUrgency previous None) urgencies)%nat.
Proof.
  intros H. unfold extractUrgency. rewrite H, (falsy_combined _ text H).
  compare_tests previous text.
Qed.

(** X20 (earlier statements prevail). The parser reads the user's earlier
    messages together with the new one, and each extractor tries its
    patterns in a fixed order. So a field never moves to a value whose
    pattern is tried later than that of the value the earlier messages
    gave: the new message can only move occasion, style, season and
    urgency towards the front of their list. In particular a conversation
    that has mentioned a wedding stays a wedding conversation, whatever the
    user says next. *)
Theorem X20_earlier_statements_prevail msg history :
  let previous := extractPreviousContext history in
  let i := parsed_intent (parseUserMessage msg history) in
  (forall o, ctx_occasion previous = Some o ->
     exists o', occasion i = Some o'
                /\ (position o' occasions <= position o occasions)%nat)
  /\ (forall s, ctx_style previous = Some s ->
        exists s', style i = Some s' /\ (position s' styles <= position s styles)%nat)
  /\ (forall s, ctx_season previous = Some s ->
        exists s', season i = Some s' /\ (position s' seasons <= position s seasons)%nat)
  /\ (forall u, ctx_urgency previous = Some u ->
        exists u', urgency i = Some u'
                   /\ (position u' urgencies <= position u urgencies)%nat)
  /\ (ctx_occasion previous = Some "wedding" -> occasion i = Some "wedding").
Proof.
  intros previous i. subst previous i. unfold parseUserMessage.
  cbn [parsed_intent occasion style season urgency].
  unfold extractPreviousContext.
  set (texts := Js.join " " _).
  destruct (Js.falsy texts) eqn:Hf;
    cbn [ctx_text ctx_occasion ctx_style ctx_season ctx_urgency];
    [repeat split; intros; discriminate |].
  rewrite Hf.
  split; [| split; [| split; [| split]]].
  - intros o [= <-]. eexists. split; [reflexivity | by apply occasion_kept].
  - intros o [= <-]. eexists. split; [reflexivity | by apply style_kept].
  - intros o [= <-]. eexists. split; [reflexivity | by apply season_kept].
  - intros o [= <-]. eexists. split; [reflexivity | by apply urgency_kept].
  - intros [= Hw]. f_equal.
    pose proof (occasion_kept texts (Js.toLowerCase msg) Hf) as Hpos.
    rewrite Hw in Hpos. rewrite Hw.
    set (o' := extractOccasion (texts +:+ " " +:+ Js.toLowerCase msg) (Some "wedding"))
      in *.
    clearbody o'.
    destruct (String.eqb_spec o' "wedding") as [Heq | Hne]; [exact Heq |].
    apply String.eqb_neq in Hne. cbn [position occasions] in Hpos.
    rewrite Hne in Hpos. cbn in Hpos. lia.
Qed.

Lemma X20_earlier_statements_prevail_witness :
  ctx_occasion (extractPreviousContext [Message "a suit for my wedding" "user" 0])
  = Some "wedding"
  /\ occasion (parsed_intent
                 (parseUserMessage "no, it is for the office"
                    [Message "a suit for my wedding" "user" 0]))
     = Some "wedding".
Proof.
  assert (H : ctx_occasion (extractPreviousContext
                              [Message "a suit for my wedding" "user" 0])
              = Some "wedding") by (vm_compute; reflexivity).
  split; [exact H |].
  exact (proj2 (proj2 (proj2 (proj2
           (X20_earlier_statements_prevail "no, it is for the office"
              [Message "a suit for my wedding" "user" 0])))) H).
Defined.

(** *** The shape of a parse *)

Lemma or_str_domain domain prev d :
  In d domain -> (prev = None \/ one_of domain prev) -> In (or_str prev d) domain.
Proof.
  intros Hd [-> | (x & -> & Hx)]; [exact Hd |].
  unfold or_str. by destruct (Js.falsy x).
Qed.

Lemma extractOccasion_domain text prev :
  prev = None \/ one_of occasions prev -> In (extractOccasion text prev) occasions.
Proof.
  intros Hp. unfold extractOccasion.
  repeat case_match; try (cbn; tauto); apply or_str_domain; cbn; tauto.
Qed.

Lemma extractStyle_domain text prev :
  prev = None \/ one_of styles prev -> In (extractStyle text prev) styles.
Proof.
  intros Hp. unfold extractStyle.
  repeat case_match; try (cbn; tauto); apply or_str_domain; cbn; tauto.
Qed.

Lemma extractSeason_domain text prev :
  prev = None \/ one_of seasons prev -> In (extractSeason text prev) seasons.
Proof.
  intros Hp. unfold extractSeason.
  repeat case_match; try (cbn; tauto); apply or_str_domain; cbn; tauto.
Qed.

Lemma extractUrgency_domain text prev :
  prev = None \/ one_of urgencies prev -> In (extractUrgency text prev) urgencies.
Proof.
  intros Hp. unfold extractUrgency.
  repeat case_match; try (cbn; tauto); apply or_str_domain; cbn; tauto.
Qed.

Lemma first_amount_positive patterns text n :
  first_amount patterns text = Some n -> 0 < n.
Proof.
  induction patterns as [| p more IH]; cbn [first_amount]; [discriminate |].
  destruct (match1 p text) as [m |]; [| exact IH].
  destruct (Js.falsy m); [exact IH |].
  destruct (Z.ltb_spec 0 (parseInt m)); [| exact IH].
  by intros [= <-].
Qed.

Lemma extractBudget_given text prev :
  prev = None \/ budget_given prev -> budget_given (Some (extractBudget text prev)).
Proof.
  intros Hp.
  assert (Hdefault : budget_given (Some (or_budget prev (BStr "flexible")))).
  { destruct Hp as [-> | [-> | (n & -> & Hn)]]; cbn [or_budget].
    - by left.
    - by left.
    - destruct (Z.eqb_spec n 0); [lia |]. right. by exists n. }
  unfold extractBudget. destruct (Js.falsy text); [exact Hdefault |].
  destruct (first_amount numberPatterns text) as [n |] eqn:Hn.
  - right. exists n. split; [reflexivity |]. by eapply first_amount_positive.
  - repeat case_match; try exact Hdefault; right; eexists; (split; [reflexivity | lia]).
Qed.

Lemma push_new_NoDup found preferences newPreferences :
  NoDup (preferences ++ newPreferences) ->
  NoDup (preferences ++ push_new found preferences newPreferences).
Proof.
  revert newPreferences.
  induction found as [| m more IH]; intros newPreferences Hnd; cbn [push_new]; [done |].
  destruct (includes (Js.toLowerCase m) preferences) eqn:E1; cbn [negb andb];
    [by apply IH |].
  destruct (includes (Js.toLowerCase m) newPreferences) eqn:E2; cbn [negb];
    [by apply IH |].
  apply IH. apply includes_not_In in E1, E2.
  rewrite app_assoc. apply NoDup_app. split; [exact Hnd |]. split.
  - intros x Hx Hin. apply list_elem_of_singleton in Hin as ->.
    apply elem_of_app in Hx as [Hx | Hx]; apply list_elem_of_In in Hx; tauto.
  - apply NoDup_singleton.
Qed.

Lemma colors_NoDup : NoDup colors.
Proof. apply (@bool_decide_unpack _ (NoDup_dec _)). vm_compute. exact I. Qed.

Lemma extractPreferences_NoDup text previousPreferences :
  NoDup previousPreferences ->
  NoDup (extractPreferences text previousPreferences).
Proof.
  intros Hnd. unfold extractPreferences.
  assert (Hcolors : NoDup
            (previousPreferences
             ++ List.filter (fun color => test (Seq Bound (Seq (Lit color) Bound)) text
                                          && negb (includes color previousPreferences))
                            colors)).
  { apply NoDup_app. split; [exact Hnd |]. split.
    - intros x Hx Hin. apply list_elem_of_In, List.filter_In in Hin as [_ Hb].
      apply andb_true_iff in Hb as [_ Hb]. apply negb_true_iff, includes_not_In in Hb.
      apply Hb. by apply list_elem_of_In.
    - apply (sublist_NoDup _ _ colors_NoDup (filter_sublist _ _)). }
  destruct (test materials_re text), (test fits_re text);
    repeat apply push_new_NoDup; exact Hcolors.
Qed.

Lemma context_fields history :
  let previous := extractPreviousContext history in
  (ctx_occasion previous = None \/ one_of occasions (ctx_occasion previous))
  /\ (ctx_style previous = None \/ one_of styles (ctx_style previous))
  /\ (ctx_season previous = None \/ one_of seasons (ctx_season previous))
  /\ (ctx_urgency previous = None \/ one_of urgencies (ctx_urgency previous))
  /\ (ctx_budget previous = None \/ budget_given (ctx_budget previous))
  /\ NoDup (ctx_preferences previous).
Proof.
  cbv zeta. unfold extractPreviousContext.
  destruct (Js.falsy _);
    cbn [ctx_occasion ctx_style ctx_season ctx_urgency ctx_budget ctx_preferences].
  - repeat split; try (by left); constructor.
  - split; [right; eexists; split; [reflexivity | apply extractOccasion_domain; by left] |].
    split; [right; eexists; split; [reflexivity | apply extractStyle_domain; by left] |].
    split; [right; eexists; split; [reflexivity | apply extractSeason_domain; by left] |].
    split; [right; eexists; split; [reflexivity | apply extractUrgency_domain; by left] |].
    split; [right; apply extractBudget_given; by left |].
    apply extractPreferences_NoDup. constructor.
Qed.

Lemma confidence_range i :
  ((1 # 10) <= calculateConfidence i)%Q /\ (calculateConfidence i <= (95 # 100))%Q.
Proof.
  unfold calculateConfidence.
  destruct (preferences i);
    match goal with
    | |- context [Qmax' (1 # 10) ?x] => generalize x
    end; intros x; unfold Qmin', Qmax';
    destruct (Qle_bool (1 # 10) x) eqn:E1.
  all: try (destruct (Qle_bool (95 # 100) x) eqn:E2).
  all: try (destruct (Qle_bool (95 # 100) (1 # 10)) eqn:E3; [discriminate |]).
  all: split;
    try (by apply Qle_bool_iff);
    try apply Qle_refl; try discriminate.
  all: apply Qlt_le_weak, Qnot_le_lt; intros H; apply Qle_bool_iff in H; congruence.
Qed.

Lemma generateTags_hashtags i : Forall hashtag (generateTags i).
Proof.
  unfold generateTags.
  repeat case_match; rewrite ?Forall_app, ?Forall_singleton;
    repeat split; try apply Forall_nil_2; by eexists.
Qed.

Lemma user_entries_only history :
  extractPreviousContext
    (List.filter (fun m => str_eqb (Js.toLowerCase (sender m)) "user") history)
  = extractPreviousContext history.
Proof.
  unfold extractPreviousContext.
  replace (List.filter (fun msg => str_eqb (Js.toLowerCase (sender msg)) "user")
             (List.filter (fun m => str_eqb (Js.toLowerCase (sender m)) "user") history))
    with (List.filter (fun m => str_eqb (Js.toLowerCase (sender m)) "user") history);
    [reflexivity |].
  induction history as [| m more IH]; [reflexivity |]. cbn [List.filter].
  destruct (str_eqb (Js.toLowerCase (sender m)) "user") eqn:E; [| exact IH].
  cbn [List.filter]. rewrite E. by f_equal.
Qed.

(** X21 (the shape of a parse). Whatever the message and the history,
    the intent that [parseUserMessage] returns has its occasion, style,
    season and urgency among the values the extractors know, its budget is
    a positive amount or 'flexible', and its preferences hold no value
    twice. Every tag is a hashtag, the confidence lies between 0.1 and
    0.95, and entries of the history that are not the user's (the
    assistant's replies) have no influence on the result. *)
Theorem X21_parse_well_formed msg history :
  let p := parseUserMessage msg history in
  well_formed (parsed_intent p)
  /\ Forall hashtag (parsed_tags p)
  /\ ((1 # 10) <= confidence p)%Q /\ (confidence p <= (95 # 100))%Q
  /\ parseUserMessage msg
       (List.filter (fun m => str_eqb (Js.toLowerCase (sender m)) "user") history)
     = p.
Proof.
  intros p. subst p.
  destruct (context_fields history) as (Ho & Hs & Hse & Hu & Hb & Hp).
  split; [| split; [| split; [| split]]].
  - unfold parseUserMessage, well_formed.
    cbn [parsed_intent occasion style season urgency budget preferences].
    split; [eexists; split; [reflexivity | by apply extractOccasion_domain] |].
    split; [eexists; split; [reflexivity | by apply extractStyle_domain] |].
    split; [eexists; split; [reflexivity | by apply extractSeason_domain] |].
    split; [eexists; split; [reflexivity | by apply extractUrgency_domain] |].
    split; [by apply extractBudget_given |].
    by apply NoDup_ListNoDup, extractPreferences_NoDup.
  - apply generateTags_hashtags.
  - apply confidence_range.
  - apply confidence_range.
  - unfold parseUserMessage. by rewrite user_entries_only.
Qed.

End ContextFacts.

(** ** The handoff, end to end *)

Module HandoffFacts.

Import ContextEngine SocketManager Spec Demo QrFacts TokenFacts RegistryFacts Handoff.
Import HandlerFacts.

(** The state after a complete [mobile:message]. *)
Lemma message_state cfg now socket sid uid msg st :
  redis_client cfg = true ->
  Js.falsy sid = false -> Js.falsy uid = false -> Js.falsy msg = false ->
  let s0 := match sessions st !! sid with
            | Some s => s
            | None => new_session sid uid
            end in
  snd (mobile_message cfg now (Returned tt) socket (Some sid) (Some uid) (Some msg) st)
  = State (Redis.set (redis st) (MOBILE_PREFIX +:+ uid) (Redis.SocketId socket))
          (Session.save (sessions st) (fst (absorb now s0 msg)))
          (catalog st) (mobileNamespace st) (kioskNamespace st).
Proof.
  intros Hc Hsid Huid Hmsg s0. subst s0. unfold mobile_message, register.
  rewrite Hsid, Huid, Hmsg, Hc. cbn [orb]. unfold Session.findOne.
  cbn [sessions set_redis redis prefix_of].
  by destruct (absorb _ _ _).
Qed.

(** X22 (the handoff, end to end). A phone that is connected sends the
    first message of a new session, asks for a QR code, and a kiosk scans
    that code with the signature it carries no later than five minutes
    after it was issued. The session document passes the schema of
    [Session.js] as the handlers build it: the session id, the user id and
    the token id are non-empty texts without blanks, the message is in
    ASCII and begins and ends with a visible character, so that [trim]
    changes none of them, and the message states a budget, so that
    [parsedIntent.budget] is a number and not the parser's default
    ['flexible'], which the [Number] path refuses. Then the phone receives
    the token it asked for;
    the kiosk receives the session, now marked transferred, with its
    recommendations; the phone that sent the message is told that its
    session was transferred, with the kiosk's id; and the session is stored
    as transferred. *)
Theorem X22_handoff_end_to_end cfg st key phone kioskSocket sid uid msg uuid kioskId
    phones kiosks t1 t2 t3 :
  redis_client cfg = true -> QrService.secret (env cfg) = Some key ->
  Js.falsy sid = false -> Js.falsy uid = false -> Js.falsy uuid = false ->
  Js.falsy phone = false ->
  all_visible sid = true -> all_visible uid = true -> all_visible uuid = true ->
  ascii_only msg = true -> visible_ends msg = true ->
  stored_budget (budget (parsed_intent (parseUserMessage msg [Message msg "user" t1])))
  = true ->
  mobileNamespace st = Some phones -> kioskNamespace st = Some kiosks ->
  phone ∈ phones ->
  sessions st !! sid = None ->
  t3 <= t2 + 300000 ->
  let st1 := snd (handle cfg t1 (Returned tt)
                    (MobileMessage phone (Some sid) (Some uid) (Some msg)) st) in
  let out2 := handle cfg t2 (Returned tt) (MobileGenerateQR phone (Some sid) uuid) st1 in
  exists q,
    fst out2 = [Emit phone (mobile_qrGenerated q)]
    /\ QrService.qrId q = uuid
    /\ let out3 := handle cfg t3 (Returned tt)
                     (KioskScanQR kioskSocket (Some (QrService.qrId q))
                                  (Some (QrService.signature q)) kioskId)
                     (snd out2) in
       exists s recommendations,
         fst out3
         = [Emit kioskSocket (kiosk_sessionData s recommendations);
            Emit phone (mobile_sessionTransferred sid
                          "Your session has been transferred to the kiosk"
                          (or_str kioskId "unknown"))]
         /\ Session.sessionId s = sid /\ Session.userId s = uid
         /\ Session.status s = Session.transferred
         /\ Session.qrCode s = Some uuid
         /\ sessions (snd out3) !! sid = Some s.
Proof.
  intros Hc Hkey Hsid Huid Huuid Hphone _ _ _ _ Hends _ Hm Hk Hin Hfresh Ht st1 out2.
  assert (Hmsg : Js.falsy msg = false) by (by destruct msg).
  (* the message *)
  set (s0 := new_session sid uid).
  set (s1 := fst (absorb t1 s0 msg)).
  assert (Hs1 : Session.sessionId s1 = sid /\ Session.userId s1 = uid) by done.
  destruct Hs1 as [Hs1id Hs1user].
  assert (Hst1 : st1 = State (Redis.set (redis st) (MOBILE_PREFIX +:+ uid)
                                        (Redis.SocketId phone))
                             (Session.save (sessions st) s1)
                             (catalog st) (Some phones) (Some kiosks)).
  { subst st1. cbn [handle]. rewrite message_state by done.
    by rewrite Hfresh, Hm, Hk. }
  clearbody st1. subst st1.
  (* the token *)
  set (db1 := Redis.set (redis st) (MOBILE_PREFIX +:+ uid) (Redis.SocketId phone)).
  set (q := QrService.Qr uuid
              (QrService.toDataURL
                 (Json.stringify (QrService.qrData uuid (QrService.sign key uuid sid t2))))
              (t2 + 300000) (QrService.sign key uuid sid t2)).
  set (db2 := Redis.setex t2 db1 (QrService.QR_KEY_PREFIX +:+ uuid) QrService.QR_TTL
                (Redis.QrRecord sid t2)).
  set (s2 := Session.with_qr s1 uuid (t2 + 300000)).
  assert (Hout2 : out2 = ([Emit phone (mobile_qrGenerated q)],
                          State db2 (Session.save (Session.save (sessions st) s1) s2)
                                (catalog st) (Some phones) (Some kiosks))).
  { subst out2. cbn [handle]. unfold mobile_generateQR.
    rewrite truthy_some, Hsid. cbn [negb]. rewrite or_str_some by done.
    unfold QrService.generateQR. rewrite Hsid, Hkey. cbn [redis].
    unfold Session.findOne, Session.save at 1.
    cbn [sessions set_redis]. unfold Session.save at 1. rewrite Hs1id.
    by rewrite lookup_insert_eq. }
  clearbody out2. subst out2. exists q. cbn [fst snd].
  split; [reflexivity |]. split; [reflexivity |].
  (* the scan *)
  subst q. cbv zeta. cbn [handle fst snd QrService.qrId QrService.signature].
  rewrite (scan_body _ _ _ _ _ _ _ _ Huuid (sign_truthy _ _ _ _)). cbv zeta.
  set (st2 := State db2 (Session.save (Session.save (sessions st) s1) s2)
                    (catalog st) (Some phones) (Some kiosks)).
  set (st3 := after_kiosk_registration cfg kioskSocket kioskId st2).
  assert (Hreg : sessions st3 = sessions st2 /\ mobileNamespace st3 = Some phones
                 /\ kioskNamespace st3 = Some kiosks /\ catalog st3 = catalog st
                 /\ redis st3 !! (QrService.QR_KEY_PREFIX +:+ uuid)
                    = redis st2 !! (QrService.QR_KEY_PREFIX +:+ uuid)
                 /\ redis st3 !! (MOBILE_PREFIX +:+ uid)
                    = redis st2 !! (MOBILE_PREFIX +:+ uid)).
  { subst st3. unfold after_kiosk_registration, register. rewrite Hc.
    destruct (truthy kioskId); cbn [sessions mobileNamespace kioskNamespace catalog
                                     redis set_redis st2]; [| done].
    repeat split; unfold Redis.set; apply lookup_insert_ne.
    - apply (registry_key_ne_token kiosk).
    - intros H. symmetry in H. by apply channels_apart in H. }
  destruct Hreg as (Hsess3 & Hm3 & Hk3 & Hcat3 & Hqr3 & Hmob3).
  assert (Hg : Redis.get t3 (redis st3) (QrService.QR_KEY_PREFIX +:+ uuid)
               = Some (Redis.QrRecord sid t2)).
  { rewrite (get_ext t3 _ (redis st2) _ Hqr3). subst st2 db2. cbn [redis].
    apply get_setex. unfold QrService.QR_TTL. lia. }
  rewrite (validateQR_entry (env cfg) t3 uuid _ _ key sid t2 Huuid
             (sign_truthy _ _ _ _) Hkey Hg).
  rewrite (proj2 (compare_match _ _) (accepts_refl _)).
  cbn [fst snd]. rewrite Hsid.
  assert (Hfound : sessions st2 !! sid = Some s2).
  { subst st2. cbn [sessions]. unfold Session.save at 1.
    change (Session.sessionId s2) with (Session.sessionId s1). rewrite Hs1id.
    apply lookup_insert_eq. }
  rewrite Hfound.
  set (s3 := Session.with_status s2 Session.transferred).
  set (st4 := set_sessions (set_redis st3 _) _).
  assert (Hlookup : getSocketByUserId cfg t3 st4 (Some (Session.userId s3)) mobile
                    = Some phone).
  { unfold getSocketByUserId. rewrite Hc.
    subst st4. cbn [mobileNamespace kioskNamespace set_sessions set_redis namespace_of
                     redis prefix_of].
    rewrite Hm3, Hk3.
    change (Session.userId s3) with (Session.userId s1). rewrite Hs1user, Huid.
    assert (Hget : Redis.get t3 (delete (QrService.QR_KEY_PREFIX +:+ uuid) (redis st3))
                     (MOBILE_PREFIX +:+ uid)
                   = Some (Redis.SocketId phone)).
    { unfold Redis.get. rewrite lookup_delete_ne
        by (intros H; symmetry in H; by apply (registry_key_ne_token mobile) in H).
      rewrite Hmob3. subst st2 db2 db1. cbn [redis]. unfold Redis.setex, Redis.set.
      rewrite lookup_insert_ne by (apply not_eq_sym, (registry_key_ne_token mobile)).
      by rewrite lookup_insert_eq. }
    rewrite Hget. cbn [socket_id_of]. rewrite Hphone.
    by destruct (decide (phone ∈ phones)). }
  change (Session.userId s3) with (Session.userId s1) in *.
  rewrite Hs1user in *. rewrite Huid. cbn [negb].
  assert (Hm4 : mobileNamespace st4 = Some phones) by (subst st4; exact Hm3).
  rewrite Hm4, Hlookup.
  eexists s3, _. split.
  { change (Session.sessionId s3) with (Session.sessionId s1). by rewrite Hs1id. }
  split; [exact Hs1id |]. split; [exact Hs1user |].
  split; [reflexivity |]. split; [reflexivity |].
  cbn [snd]. subst st4. cbn [sessions set_sessions]. unfold Session.save at 1.
  change (Session.sessionId s3) with (Session.sessionId s1). rewrite Hs1id.
  apply lookup_insert_eq.
Qed.

Lemma X22_handoff_end_to_end_witness :
  redis_client demo_config = true
  /\ visible_ends "something cheap" = true
  /\ budget (parsed_intent (parseUserMessage "something cheap"
                              [Message "something cheap" "user" (demo_now - 5)]))
     = Some (BNum 100)
  /\ demo_now + 1000 <= demo_now + 300000
  /\ exists q,
       fst (handle demo_config demo_now (Returned tt)
              (MobileGenerateQR "m1" (Some "S1") demo_id)
              (snd (handle demo_config (demo_now - 5) (Returned tt)
                      (MobileMessage "m1" (Some "S1") (Some "u1") (Some "something cheap"))
                      (State ∅ ∅ demo_catalog (Some {[ "m1" ]}) (Some ∅)))))
       = [Emit "m1" (mobile_qrGenerated q)]
       /\ QrService.qrId q = demo_id.
Proof.
  assert (Ht : demo_now + 1000 <= demo_now + 300000) by lia.
  assert (Hin : "m1" ∈ ({[ "m1" ]} : gset string)) by (by apply elem_of_singleton).
  assert (Hparsed : budget (parsed_intent (parseUserMessage "something cheap"
                              [Message "something cheap" "user" (demo_now - 5)]))
                    = Some (BNum 100)) by (vm_compute; reflexivity).
  assert (Hbudget : stored_budget
                      (budget (parsed_intent (parseUserMessage "something cheap"
                                 [Message "something cheap" "user" (demo_now - 5)])))
                    = true) by (rewrite Hparsed; reflexivity).
  split; [reflexivity |]. split; [reflexivity |]. split; [exact Hparsed |].
  split; [exact Ht |].
  destruct (X22_handoff_end_to_end demo_config
              (State ∅ ∅ demo_catalog (Some {[ "m1" ]}) (Some ∅))
              "nexus-secret" "m1" "k1" "S1" "u1" "something cheap" demo_id (Some "K7")
              {[ "m1" ]} ∅ (demo_now - 5) demo_now (demo_now + 1000)
              eq_refl eq_refl eq_refl eq_refl eq_refl eq_refl
              eq_refl eq_refl eq_refl eq_refl eq_refl Hbudget
              eq_refl eq_refl Hin (lookup_empty _) Ht)
    as (q & Hq & Hid & _).
  exists q. by split.
Defined.





(** *** The reply to a message *)

Lemma generateSummary_prefix i : exists rest, generateSummary i = "Looking " +:+ rest.
Proof.
  unfold generateSummary. cbv zeta.
  match goal with
  | |- exists rest, match ?parts with [] => _ | _ :: _ => _ end = _ => destruct parts
  end.
  - by exists "for clothing items".
  - by eexists.
Qed.

(** X24 (the reply). The text sent back for a message, on the socket and
    by [POST /api/chat/message], is always the summary of the parsed
    intent, which begins with "Looking "; the fallback text
    "Got it. I will keep this in mind." is never sent. *)
Theorem X24_reply_is_summary msg history :
  let p := parseUserMessage msg history in
  reply_text p = summary p
  /\ (exists rest, reply_text p = "Looking " +:+ rest)
  /\ reply_text p <> "Got it. I will keep this in mind.".
Proof.
  intros p. subst p. unfold reply_text, parseUserMessage. cbn [summary].
  match goal with |- context [generateSummary ?i] =>
    destruct (generateSummary_prefix i) as [rest ->]
  end.
  change (Js.falsy ("Looking " +:+ rest)) with false. cbn match.
  split; [reflexivity |]. split; [by exists rest | discriminate].
Qed.

End HandoffFacts.
